(** * qsim: state-vector engine, instruction model and parameter store

    A shallow embedding of [qsim/core/backends.py], [qsim/core/instruction.py],
    [qsim/core/circuit.py] and the helper functions of [qsim/core/visuals.py].

    Conventions of the embedding:
    - a Python [float] is a real number of [R] and a [complex] a pair of
      reals: arithmetic is exact, rounding errors of IEEE doubles are not
      modelled;
    - a raised exception is an [Err] value; a method of an object is a
      function from the object before the call to the outcome of the call
      together with the object after it, so that what a failing call has
      already written stays visible;
    - numpy arrays are lists (vectors) and lists of rows (matrices). *)

From Stdlib Require Import String Ascii DecimalString Decimal.
From Stdlib Require Import Reals Lra Lia ZArith Bool List Ring Sorted.
Import ListNotations.

Set Implicit Arguments.

(** ** Python runtime: exceptions, results, indexing *)

(** The exceptions the modelled code raises, one constructor per [raise]
    statement or per failing library call. *)
Inductive error : Type :=
| DimensionMismatch      (* ValueError("Dimensions dont't match: ...") *)
| NotNormalized          (* ValueError("State not normalized: ...") *)
| MissingEigenvectors    (* ValueError("No Eigenvectors of the measurement-basis are specified ...") *)
| ComplexProbability     (* ValueError("Complex probability: ...") *)
| ChoiceError            (* ValueError raised by np.random.choice on an invalid p *)
| ShapeError             (* ValueError raised by numpy on mismatching shapes *)
| IndexError             (* list index out of range *)
| TypeError              (* operation on None, call or subscript of the wrong type *)
| AttributeError         (* attribute of None *)
| KeyError (key : string) (* KeyError, dictionary lookup or Gate._get_gatefunc *)
| ParseError.            (* ValueError raised by int(), float() or tuple unpacking *)

Inductive result (A : Type) : Type :=
| Ok (a : A)
| Err (e : error).
Arguments Ok {A} a.
Arguments Err {A} e.

Definition rbind {A B} (r : result A) (k : A -> result B) : result B :=
  match r with
  | Ok a => k a
  | Err e => Err e
  end.

Declare Scope result_scope.
Delimit Scope result_scope with result.
Notation "x <- r ;; k" := (rbind r (fun x => k))
  (at level 61, r at next level, right associativity) : result_scope.
Notation "' p <- r ;; k" := (rbind r (fun p => k))
  (at level 61, p pattern, r at next level, right associativity) : result_scope.

(** [l[i]] for a non-negative index: [IndexError] out of range. *)
Definition py_index {A} (l : list A) (i : nat) : result A :=
  match nth_error l i with
  | Some a => Ok a
  | None => Err IndexError
  end.

(** [l[i] = x] for a non-negative index: [IndexError] out of range. *)
Fixpoint py_assign {A} (l : list A) (i : nat) (x : A) : result (list A) :=
  match l, i with
  | [], _ => Err IndexError
  | _ :: t, O => Ok (x :: t)
  | h :: t, S j =>
      match py_assign t j x with
      | Ok t' => Ok (h :: t')
      | Err e => Err e
      end
  end.

(** [[f(x) for x in l]] where [f] may raise: the first exception wins. *)
Fixpoint mapM {A B} (f : A -> result B) (l : list A) : result (list B) :=
  match l with
  | [] => Ok []
  | a :: t =>
      match f a with
      | Err e => Err e
      | Ok b =>
          match mapM f t with
          | Err e => Err e
          | Ok bs => Ok (b :: bs)
          end
      end
  end.

(** ** Numbers and arrays *)

Local Open Scope R_scope.

Definition C : Type := (R * R)%type.

Definition Cre (z : C) : R := fst z.
Definition Cim (z : C) : R := snd z.
Definition RtoC (x : R) : C := (x, 0).
Definition Ci : C := (0, 1).
Definition Cadd (z w : C) : C := (fst z + fst w, snd z + snd w).
Definition Cmul (z w : C) : C :=
  (fst z * fst w - snd z * snd w, fst z * snd w + snd z * fst w).
Definition Cconj (z : C) : C := (fst z, - snd z).
(** [z / r] for a complex [z] and a float [r]. *)
Definition Cdiv_real (z : C) (r : R) : C := (fst z / r, snd z / r).
(** [abs(z) ** 2] *)
Definition Cabs2 (z : C) : R := fst z * fst z + snd z * snd z.

(** Arrays of one and of two dimensions. *)
Abbreviation vec := (list C).
Abbreviation mat := (list (list C)).

Definition Csum (l : list C) : C := fold_right Cadd (RtoC 0) l.
Definition Rsum (l : list R) : R := fold_right Rplus 0 l.

(** [scipy.linalg.norm] of a vector: the Euclidean norm. *)
Definition norm (v : vec) : R := sqrt (Rsum (map Cabs2 v)).

(** [v / r] for an array [v] and a float [r]. *)
Definition vdiv (v : vec) (r : R) : vec := map (fun z => Cdiv_real z r) v.

(** [np.conj(v)] *)
Definition vconj (v : vec) : vec := map Cconj v.

(** [np.dot(u, v)] for two vectors of one length: the sum of the products
    (no conjugation). *)
Definition vdot (u v : vec) : C :=
  Csum (map (fun p => Cmul (fst p) (snd p)) (combine u v)).

(** [np.dot(m, v)] for a matrix and a vector: [ValueError] unless every row
    has the length of [v] (a matrix without rows has no row to compare). *)
Definition np_dot (m : mat) (v : vec) : result vec :=
  if forallb (fun row => Nat.eqb (length row) (length v)) m
  then Ok (map (fun row => vdot row v) m)
  else Err ShapeError.

(** [m.T] for a matrix of [k] columns. *)
Definition transpose (k : nat) (m : mat) : mat :=
  map (fun j => map (fun row => nth j row (RtoC 0)) m) (seq 0 k).

(** [x.T] as numpy computes it: the number of columns is the length of the
    first row. *)
Definition np_T (m : mat) : mat :=
  match m with
  | [] => []
  | row :: _ => transpose (length row) m
  end.

(** Round half to even, the rounding of [np.rint]. *)
Definition rint (x : R) : Z :=
  let f := Int_part x in
  let r := x - IZR f in
  if Rlt_dec r (1 / 2) then f
  else if Rlt_dec (1 / 2) r then (f + 1)%Z
  else if Z.even f then f else (f + 1)%Z.

(** [np.round(x, decimals)] in exact arithmetic: the product of [x] with
    the power of ten is rounded half to even and divided by the power of
    ten again.  numpy does the same on binary64 numbers, where the product
    is rounded before [rint] sees it; the two can differ at doubles
    whose product lies within a rounding error of a half (the double
    nearest to 1.00000000005 with ten decimals, the double 0.05 with
    one).  The engine rounds with it only the norm of a state, to compare
    it with one. *)
Definition np_round (x : R) (decimals : nat) : R :=
  IZR (rint (x * 10 ^ decimals)) / 10 ^ decimals.

(** *** Missing from the sources: [qsim/core/utils.py] *)

(** Modelled from the spec: the constants [ZERO] and [ONE] of [utils.py],
    the two states of the computational basis. *)
Definition ZERO : vec := [RtoC 1; RtoC 0].
Definition ONE : vec := [RtoC 0; RtoC 1].

(** Modelled from the spec: [np.kron] of two vectors and of two matrices,
    the tensor product. *)
Definition kron_vec2 (a b : vec) : vec :=
  flat_map (fun x => map (Cmul x) b) a.
Definition kron_mat2 (a b : mat) : mat :=
  flat_map (fun ra => map (fun rb => kron_vec2 ra rb) b) a.

(** Modelled from the spec: [kron] of [utils.py], the tensor product of a
    list of vectors, starting from the scalar one. *)
Definition kron_vec (parts : list vec) : vec :=
  fold_left kron_vec2 parts [RtoC 1].
(** Modelled from the spec: [kron] of [utils.py], the tensor product of a
    list of matrices. *)
Definition kron (parts : list mat) : mat :=
  fold_left kron_mat2 parts [[RtoC 1]].

(** Modelled from the spec: what [get_projector] of [utils.py] returns by
    the glossary, the rank-one operator |v><v|. *)
Definition ket_bra (v : vec) : mat :=
  map (fun a => map (fun b => Cmul a (Cconj b)) v) v.

(** [np.eye(2)] *)
Definition eye2 : mat := [[RtoC 1; RtoC 0]; [RtoC 0; RtoC 1]].

(** Modelled from the spec: [EIGVALS] of [utils.py], the eigenvalues +1 and
    -1 of the Pauli operators. *)
Definition EIGVALS : list R := [1; -1].

(** Modelled from the spec: [Qubit] and [Clbit] of [register.py], which is
    not among the sources: a bit is an index into its register, and the
    code reads nothing but [.index] from it. *)
Record Bit : Type := mkBit { index : nat }.
Definition Qubit : Type := Bit.
Definition Clbit : Type := Bit.

(** Modelled from the spec: [Basis] of [utils.py], the labels of the basis
    states of [n] qubits, used for display only. *)
Record Basis : Type := mkBasis { basis_qubits : nat }.

(** ** [backends.py]: class [StateVector] *)

Module StateVector.

(** The attributes [__init__] declares.  [None] is the value of an
    attribute before [set_qubits] and [set] have assigned it. *)
#[local] Unset Elimination Schemes.
Inductive t : Type := mk {
  n_qubits : nat;
  n : nat;
  qubits : option (list Qubit);
  basis : option Basis;
  amp : option vec;
  snapshots : list t
}.
#[local] Set Elimination Schemes.

Definition with_amp (self : t) (a : vec) : t :=
  mk (n_qubits self) (n self) (qubits self) (basis self) (Some a)
     (snapshots self).

Definition with_snapshots (self : t) (l : list t) : t :=
  mk (n_qubits self) (n self) (qubits self) (basis self) (amp self) l.

(** Reading [self.amp] where an array is needed. *)
Definition the_amp (self : t) : result vec :=
  match amp self with
  | Some a => Ok a
  | None => Err TypeError
  end.

(** [StateVector.set(amp=None)] *)
Definition set (self : t) (a : option vec) : result unit * t :=
  let state :=
    match a with
    | None => kron_vec (repeat ZERO (n_qubits self))
    | Some v => v
    end in
  if negb (Nat.eqb (length state) (n self)) then
    (Err DimensionMismatch, self)
  else if Req_EM_T (np_round (norm state) 10) 1 then
    (Ok tt, with_amp self (vdiv state (norm state)))
  else
    (Err NotNormalized, self).

(** [StateVector.set_qubits(qubits, basis=None, amp=None)], for a list of
    qubits. *)
Definition set_qubits (self : t) (qs : list Qubit) (b : option Basis)
    (a : option vec) : result unit * t :=
  let self1 :=
    mk (length qs) (2 ^ length qs) (Some qs)
       (Some match b with
             | Some b' => b'
             | None => mkBasis (length qs)
             end)
       (amp self) (snapshots self) in
  set self1 a.

(** [StateVector(qubits, basis, amp)]: the object exists only when
    [__init__] returns. *)
Definition new (qs : list Qubit) (b : option Basis) (a : option vec)
    : result t :=
  match set_qubits (mk 0 0 None None None []) qs b a with
  | (Ok _, self) => Ok self
  | (Err e, _) => Err e
  end.

(** [StateVector.save_snapshot()] *)
Definition save_snapshot (self : t) : result unit * t :=
  match qubits self with
  | None => (Err TypeError, self)
  | Some qs =>
      match new qs (basis self) (amp self) with
      | Err e => (Err e, self)
      | Ok s => (Ok tt, with_snapshots self (snapshots self ++ [s]))
      end
  end.

(** [StateVector.density_matrix()] *)
Definition density_matrix (self : t) : result mat :=
  (a <- the_amp self ;;
   Ok (map (fun x => map (fun y => Cmul x y) a) a))%result.

(** [StateVector.apply_unitary(u)] *)
Definition apply_unitary (self : t) (u : mat) : result unit * t :=
  match (a <- the_amp self ;; np_dot u a)%result with
  | Ok a' => (Ok tt, with_amp self a')
  | Err e => (Err e, self)
  end.

(** [list(product([0, 1], repeat=k))] *)
Fixpoint product01 (k : nat) : list (list nat) :=
  match k with
  | O => [[]]
  | S k' => flat_map (fun b => map (cons b) (product01 k')) [0%nat; 1%nat]
  end.

(** The first lines of [measure]: a single qubit is wrapped in a list. *)
Inductive qubit_arg : Type :=
| One (q : Qubit)
| Several (qs : list Qubit).

Definition as_list (a : qubit_arg) : list Qubit :=
  match a with
  | One q => [q]
  | Several qs => qs
  end.

(** The eigenbasis [measure] works with: the computational basis when no
    eigenvalues are passed, the transposed [eigvecs] otherwise. *)
Definition eigenbasis (eigvals : option (list R)) (eigvecs : option mat)
    : result (list R * mat) :=
  match eigvals with
  | None => Ok ([0; 1], [ZERO; ONE])
  | Some vals =>
      match eigvecs with
      | None => Err MissingEigenvectors
      | Some vecs => Ok (vals, np_T vecs)
      end
  end.

(** [projections[i] = projected]: the row has [self.n] entries; numpy
    broadcasts an array of one entry and refuses any other length. *)
Definition assign_row (width : nat) (projected : vec) : result vec :=
  if Nat.eqb (length projected) width then Ok projected
  else match projected with
       | [z] => Ok (repeat z width)
       | _ => Err ShapeError
       end.

Section Measure.

(** [get_projector] of [utils.py], which is not among the sources: the
    operator a measurement projects with, built from an eigenvector. *)
Variable get_projector : vec -> mat.

(** [np.random.choice(range(k), p=probs)]: the index numpy draws, or
    [None] for the [ValueError] it raises when [probs] is not a
    distribution. *)
Variable random_choice : nat -> list R -> option nat.

(** The inner loop of [measure]:
    [for r, q in zip(res, qubits):
         parts[q.index] = get_projector(eigvecs[r])] *)
Fixpoint build_parts (eigvecs : mat) (parts : list mat)
    (rq : list (nat * Qubit)) : result (list mat) :=
  match rq with
  | [] => Ok parts
  | (r, q) :: rest =>
      (v <- py_index eigvecs r ;;
       parts' <- py_assign parts (index q) (get_projector v) ;;
       build_parts eigvecs parts' rest)%result
  end.

(** The first half of a round of the outer loop of [measure]: the
    projected state and the probability [p] of the outcome [res]. *)
Definition projection (self : t) (eigvecs : mat) (qs : list Qubit)
    (res : list nat) : result (vec * C) :=
  (parts <- build_parts eigvecs (repeat eye2 (n_qubits self))
                        (combine res qs) ;;
   let projector := kron parts in
   a <- the_amp self ;;
   projected <- np_dot projector a ;;
   let p := vdot (vconj a) projected in
   Ok (projected, p))%result.

(** A round of the outer loop of [measure]: the row written to
    [projections] and the entry written to [probs] for the outcome
    [res]. *)
Definition outcome (self : t) (eigvecs : mat) (qs : list Qubit)
    (res : list nat) : result (vec * R) :=
  ('(projected, p) <- projection self eigvecs qs res ;;
   row <- assign_row (n self) projected ;;
   if Rgt_dec (Rabs (Cim p)) (1 / 10 ^ 15) then Err ComplexProbability
   else Ok (row, Cre p))%result.

(** The outer loop of [measure], over the outcomes that are left. *)
Fixpoint outcomes (self : t) (eigvecs : mat) (qs : list Qubit)
    (results : list (list nat)) : result (list vec * list R) :=
  match results with
  | [] => Ok ([], [])
  | res :: rest =>
      ('(row, p) <- outcome self eigvecs qs res ;;
       '(rows, ps) <- outcomes self eigvecs qs rest ;;
       Ok (row :: rows, p :: ps))%result
  end.

(** [measure] up to the sampling: the eigenvalues of the sampled outcome,
    the array [projections] and the sampled index.  Nothing is written
    to [self] here. *)
Definition sample (self : t) (qs : list Qubit)
    (eigvals : option (list R)) (eigvecs : option mat)
    : result (list R * list vec * nat) :=
  ('(vals, vecs) <- eigenbasis eigvals eigvecs ;;
   let results := product01 (length qs) in
   '(projections, probs) <- outcomes self vecs qs results ;;
   idx <- match random_choice (length results) probs with
          | Some i => Ok i
          | None => Err ChoiceError
          end ;;
   res <- py_index results idx ;;
   result <- mapM (py_index vals) res ;;
   Ok (result, projections, idx))%result.

(** [StateVector.measure(qubits, eigvals=None, eigvecs=None,
    shadow=False, snapshot=True)] *)
Definition measure (self : t) (q : qubit_arg)
    (eigvals : option (list R)) (eigvecs : option mat)
    (shadow snapshot : bool) : result (list R) * t :=
  match sample self (as_list q) eigvals eigvecs with
  | Err e => (Err e, self)
  | Ok (result, projections, idx) =>
      if negb shadow then
        match (if snapshot then save_snapshot self else (Ok tt, self)) with
        | (Err e, self') => (Err e, self')
        | (Ok _, self') =>
            match py_index projections idx with
            | Err e => (Err e, self')
            | Ok projected =>
                (Ok result,
                 with_amp self' (vdiv projected (norm projected)))
            end
        end
      else (Ok result, self)
  end.

End Measure.

End StateVector.

(** ** Python strings and dictionaries *)

Local Open Scope string_scope.

(** [str(n)] for a non-negative [int]. *)
Definition str_of_nat (k : nat) : string :=
  NilEmpty.string_of_uint (Nat.to_uint k).

Definition is_digit (c : ascii) : bool :=
  let k := nat_of_ascii c in (48 <=? k)%nat && (k <=? 57)%nat.

Fixpoint all_digits (s : string) : bool :=
  match s with
  | EmptyString => true
  | String c s' => is_digit c && all_digits s'
  end.

(** [int(s)] for a string of decimal digits; [ValueError] for any other
    string (signs, blanks and underscores are not modelled). *)
Definition int_of_str (s : string) : result nat :=
  match s with
  | EmptyString => Err ParseError
  | _ =>
      if all_digits s then
        match NilEmpty.uint_of_string s with
        | Some u => Ok (Nat.of_uint u)
        | None => Err ParseError
        end
      else Err ParseError
  end.

(** [sep.join(parts)] *)
Fixpoint join (sep : string) (parts : list string) : string :=
  match parts with
  | [] => ""
  | [x] => x
  | x :: rest => x ++ sep ++ join sep rest
  end.

(** [s.split(sep)] for a non-empty [sep].  [skip] counts the characters of
    a separator just recognised that are still to be dropped, [cur] is the
    piece being read, backwards. *)
Fixpoint split_from (sep : string) (skip : nat) (cur : list ascii)
    (s : string) : list string :=
  match s with
  | EmptyString => [string_of_list_ascii (rev cur)]
  | String c s' =>
      match skip with
      | S k => split_from sep k cur s'
      | O =>
          if prefix sep s then
            string_of_list_ascii (rev cur)
              :: split_from sep (String.length sep - 1) [] s'
          else split_from sep 0 (c :: cur) s'
      end
  end.

Definition str_split (sep s : string) : list string := split_from sep 0 [] s.

(** [s.splitlines()], for lines that end in a line feed. *)
Definition splitlines (s : string) : list string :=
  let parts := str_split (String (ascii_of_nat 10) "") s in
  match rev parts with
  | "" :: front => rev front
  | _ => parts
  end.

(** [s.lower()] on ASCII. *)
Definition lower_ascii (c : ascii) : ascii :=
  let k := nat_of_ascii c in
  if (65 <=? k)%nat && (k <=? 90)%nat then ascii_of_nat (k + 32) else c.

Fixpoint lower (s : string) : string :=
  match s with
  | EmptyString => EmptyString
  | String c s' => String (lower_ascii c) (lower s')
  end.

(** [s.replace(c, "")] for a single character [c]. *)
Fixpoint remove_char (c : ascii) (s : string) : string :=
  match s with
  | EmptyString => EmptyString
  | String d s' =>
      if Ascii.eqb c d then remove_char c s' else String d (remove_char c s')
  end.

(** [c * k] for a single character [c]. *)
Fixpoint repeat_char (c : ascii) (k : nat) : string :=
  match k with
  | O => EmptyString
  | S k' => String c (repeat_char c k')
  end.

(** A [dict] with string keys, as the list of its items in insertion
    order. *)
Definition dict (A : Type) : Type := list (string * A).

(** [d.get(key)] *)
Fixpoint dict_get {A} (d : dict A) (key : string) : option A :=
  match d with
  | [] => None
  | (k, v) :: rest => if String.eqb k key then Some v else dict_get rest key
  end.

(** [d[key]] *)
Definition dict_item {A} (d : dict A) (key : string) : result A :=
  match dict_get d key with
  | Some v => Ok v
  | None => Err (KeyError key)
  end.

(** [d.update({key: v})] *)
Fixpoint dict_update {A} (d : dict A) (key : string) (v : A) : dict A :=
  match d with
  | [] => [(key, v)]
  | (k, w) :: rest =>
      if String.eqb k key then (k, v) :: rest
      else (k, w) :: dict_update rest key v
  end.

(** Python's printing of a list: ["[" + ", ".join(items) + "]"]. *)
Definition str_of_list (items : list string) : string :=
  "[" ++ join ", " items ++ "]".

(** Modelled from the spec: [str_to_list] of [utils.py], which is not among
    the sources: the reader of the lists the text format holds.  ["None"]
    is [None]; otherwise the items between the brackets, separated by
    [", "], are converted by [dtype]. *)
Definition str_to_list {A} (s : string) (dtype : string -> result A)
    : result (option (list A)) :=
  if String.eqb s "None" then Ok None
  else
    match s with
    | String "[" body =>
        match rev (list_ascii_of_string body) with
        | "]"%char :: inner =>
            let text := string_of_list_ascii (rev inner) in
            if String.eqb text "" then Ok (Some [])
            else
              match mapM dtype (str_split ", " text) with
              | Ok l => Ok (Some l)
              | Err e => Err e
              end
        | _ => Err ParseError
        end
    | _ => Err ParseError
    end.

(** Modelled from the spec: [get_info] of [utils.py], which is not among
    the sources: the value of the field [key] of a line of [key=value]
    fields that each end in [delim]. *)
Fixpoint get_info_from (fields : list string) (key : string) : result string :=
  match fields with
  | [] => Err (KeyError key)
  | f :: rest =>
      match str_split "=" f with
      | [k; v] => if String.eqb k key then Ok v else get_info_from rest key
      | _ => get_info_from rest key
      end
  end.

Definition get_info (line key delim : string) : result string :=
  get_info_from (str_split delim line) key.

(** ** [instruction.py]: class [ParameterMap] *)

Module ParameterMap.

(** What [arg] may be when it is not [None]: a number or a sequence
    ([hasattr(arg, "__len__")]). *)
Inductive argument (V : Type) : Type :=
| Scalar (x : V)
| Sequence (l : list V).
Arguments Scalar {V} x.
Arguments Sequence {V} l.

(** What [idx] may be when it is not [None]: a pool position or a list of
    pool positions. *)
Inductive positions : Type :=
| Position (i : nat)
| Positions (l : list nat).

Section Store.

(** The values of the pool: Python floats in the simulator. *)
Variable V : Type.

Record t : Type := mk {
  indices : list (option positions);
  params : list V
}.

(** [ParameterMap()] *)
Definition empty : t := mk [] [].

(** [ParameterMap.set(args)] *)
Definition set (self : t) (args : list V) : t :=
  mk (indices self) args.

(** [ParameterMap.add_param(value)] *)
Definition add_param (self : t) (value : V) : t :=
  mk (indices self) (params self ++ [value]).

(** [ParameterMap.link_param(idx)] *)
Definition link_param (self : t) (idx : positions) : t :=
  mk (indices self ++ [Some idx]) (params self).

(** [idx[i]] *)
Definition subscript (idx : positions) (i : nat) : result nat :=
  match idx with
  | Position _ => Err TypeError
  | Positions l => py_index l i
  end.

(** The loop of [add_arg], from its round [i] on: [acc] is the local
    list [indices].  The pool grows as the loop runs, also when a later
    round raises. *)
Fixpoint add_arg_loop (self : t) (idx : option positions) (i : nat)
    (args : list V) (acc : list nat) : result (list nat) * t :=
  match args with
  | [] => (Ok acc, self)
  | x :: rest =>
      match
        match idx with
        | None => Ok (length (params self))
        | Some p => subscript p i
        end
      with
      | Err e => (Err e, self)
      | Ok pos =>
          add_arg_loop (add_param self x) idx (S i) rest (acc ++ [pos])
      end
  end.

(** [ParameterMap.add_arg(args, idx=None)] *)
Definition add_arg (self : t) (args : argument V) (idx : option positions)
    : result unit * t :=
  let args :=
    match args with
    | Scalar x => [x]
    | Sequence l => l
    end in
  match add_arg_loop self idx 0 args [] with
  | (Err e, self') => (Err e, self')
  | (Ok l, self') =>
      (Ok tt, mk (indices self' ++ [Some (Positions l)]) (params self'))
  end.

(** [ParameterMap.add_empty()] *)
Definition add_empty (self : t) : t :=
  mk (indices self ++ [None]) (params self).

(** [ParameterMap.add(arg=None, idx=None)] *)
Definition add (self : t) (arg : option (argument V))
    (idx : option positions) : result unit * t :=
  match arg, idx with
  | Some a, _ => add_arg self a idx
  | None, Some p => (Ok tt, link_param self p)
  | None, None => (Ok tt, add_empty self)
  end.

(** [ParameterMap.get(i)] *)
Definition get (self : t) (i : nat) : result (option (list V)) :=
  (entry <- py_index (indices self) i ;;
   match entry with
   | None => Ok None
   | Some (Position _) => Err TypeError
   | Some (Positions l) =>
       args <- mapM (py_index (params self)) l ;;
       Ok (Some args)
   end)%result.

(** [ParameterMap.args] *)
Definition args (self : t) : result (list (option (list V))) :=
  mapM (get self) (seq 0 (length (indices self))).

(** [ParameterMap.__getitem__(item)], for a non-negative position. *)
Definition getitem (self : t) (item : nat) : result V :=
  py_index (params self) item.

(** [ParameterMap.__setitem__(key, value)], for a non-negative position:
    the outcome and the map after the call.  [Circuit.set_param(idx, arg)]
    is this assignment on the one instance. *)
Definition setitem (self : t) (key : nat) (value : V) : result unit * t :=
  match py_assign (params self) key value with
  | Ok params' => (Ok tt, mk (indices self) params')
  | Err e => (Err e, self)
  end.

End Store.

End ParameterMap.

(** [np.dot(a, b)] for two matrices: [ValueError] unless the rows of [a]
    are as long as [b] has rows. *)
Definition np_matmul (a b : mat) : result mat :=
  if forallb (fun row => Nat.eqb (length row) (length b)) a
  then Ok (map (fun row => map (fun col => vdot row col) (np_T b)) a)
  else Err ShapeError.

(** ** [instruction.py]: classes [Instruction], [Measurement] and [Gate] *)

Module Instruction.

(** The class of an instruction object; [basis] is the attribute only a
    [Measurement] has. *)
Inductive kind : Type :=
| IsGate
| IsMeasurement (basis : option string).

Record t : Type := mk {
  idx : nat;
  size : nat;
  name : string;
  qubits : option (list (option Bit));
  con : option (list (option Bit));
  clbits : option (list (option Bit));
  con_trigger : nat;
  cls : kind
}.

(** [get_bit(bit_list, idx)]: [None] when no bit has the index. *)
Fixpoint get_bit (bit_list : list Bit) (i : nat) : option Bit :=
  match bit_list with
  | [] => None
  | b :: rest => if Nat.eqb (index b) i then Some b else get_bit rest i
  end.

(** [[b.index for b in bits]] *)
Definition bit_indices (bits : list (option Bit)) : result (list nat) :=
  mapM (fun b => match b with
                 | Some b' => Ok (index b')
                 | None => Err AttributeError
                 end) bits.

(** The values [to_dict] holds and [to_string] prints. *)
Inductive value (V : Type) : Type :=
| VNone
| VInt (k : nat)
| VStr (s : string)
| VInts (l : list nat)
| VArgs (l : list V).
Arguments VNone {V}.
Arguments VInt {V} k.
Arguments VStr {V} s.
Arguments VInts {V} l.
Arguments VArgs {V} l.

Section Instructions.

(** The type of the arguments of the gates (Python floats), how Python
    prints one ([repr]) and reads one ([float(s)]). *)
Variable V : Type.
Variable repr : V -> string.
Variable float_of_str : string -> result V.

(** The state shared by all instructions: the class attribute
    [Instruction.INDEX] and the one [ParameterMap] instance. *)
Record world : Type := mkWorld {
  INDEX : nat;
  pmap : ParameterMap.t V
}.

(** [Instruction.__init__]; [to_list] of [utils.py] leaves the lists it
    is given here as they are. *)
Definition init (w : world) (c : kind) (name : string)
    (qubits con clbits : option (list (option Bit))) (n : nat)
    (arg : option (ParameterMap.argument V))
    (argidx : option ParameterMap.positions) (trigger : nat)
    : result t * world :=
  let i := INDEX w in
  let w1 := mkWorld (S (INDEX w)) (pmap w) in
  match ParameterMap.add (pmap w1) arg argidx with
  | (Err e, pm) => (Err e, mkWorld (INDEX w1) pm)
  | (Ok _, pm) =>
      (Ok (mk i n name qubits con clbits trigger c), mkWorld (INDEX w1) pm)
  end.

(** [Instruction.is_controlled]: [bool(self.con)] *)
Definition is_controlled (self : t) : bool :=
  match con self with
  | Some (_ :: _) => true
  | _ => false
  end.

(** [Instruction.qu_indices], for a flat list of qubits. *)
Definition qu_indices (self : t) : result (option (list nat)) :=
  match qubits self with
  | None => Ok None
  | Some l => (r <- bit_indices l ;; Ok (Some r))%result
  end.

(** [Instruction.con_indices] *)
Definition con_indices (self : t) : result (option (list nat)) :=
  match con self with
  | None => Ok None
  | Some l => (r <- bit_indices l ;; Ok (Some r))%result
  end.

(** [Instruction.cl_indices] *)
Definition cl_indices (self : t) : result (option (list nat)) :=
  match clbits self with
  | None => Ok None
  | Some l => (r <- bit_indices l ;; Ok (Some r))%result
  end.

(** [Instruction.argidx] *)
Definition argidx (w : world) (self : t)
    : result (option ParameterMap.positions) :=
  py_index (ParameterMap.indices (pmap w)) (idx self).

(** [Instruction.args] *)
Definition args (w : world) (self : t) : result (option (list V)) :=
  ParameterMap.get (pmap w) (idx self).

(** [Instruction.get_arg(i=0)] *)
Definition get_arg (w : world) (self : t) (i : nat) : result (option V) :=
  (a <- args w self ;;
   match a with
   | None => Ok None
   | Some l => x <- py_index l i ;; Ok (Some x)
   end)%result.

Definition value_of_ints (o : option (list nat)) : value V :=
  match o with
  | None => VNone
  | Some l => VInts l
  end.

(** [Instruction.to_dict()] *)
Definition to_dict (w : world) (self : t) : result (dict (value V)) :=
  (qb <- qu_indices self ;;
   cn <- con_indices self ;;
   cb <- cl_indices self ;;
   ar <- args w self ;;
   ai <- argidx w self ;;
   Ok [("idx", VInt (idx self));
       ("name", VStr (name self));
       ("qbits", value_of_ints qb);
       ("con", value_of_ints cn);
       ("cbits", value_of_ints cb);
       ("arg", match ar with
               | None => VNone
               | Some l => VArgs l
               end);
       ("argidx", match ai with
                  | None => VNone
                  | Some (ParameterMap.Position k) => VInt k
                  | Some (ParameterMap.Positions l) => VInts l
                  end)])%result.

(** [f"{val}"] *)
Definition str_of_value (v : value V) : string :=
  match v with
  | VNone => "None"
  | VInt k => str_of_nat k
  | VStr s => s
  | VInts l => str_of_list (map str_of_nat l)
  | VArgs l => str_of_list (map repr l)
  end.

(** [Instruction.to_string(delim="; ")] *)
Definition to_string (w : world) (self : t) (delim : string)
    : result string :=
  (d <- to_dict w self ;;
   Ok (fold_left
         (fun acc kv => acc ++ fst kv ++ "=" ++ str_of_value (snd kv) ++ delim)
         d ""))%result.

(** [Measurement.__init__(name, qubits, clbits=None, basis=None)] *)
Definition Measurement (w : world) (name : string)
    (qubits clbits : option (list (option Bit))) (basis : option string)
    : result t * world :=
  let clbits :=
    match clbits with
    | None => qubits
    | Some _ => clbits
    end in
  init w (IsMeasurement basis) name qubits None clbits 1 None None 1.

(** [Gate.__init__(name, qubits, con=None, arg=None, argidx=None, n=1,
    trigger=1)], for a list of qubits or [None]. *)
Definition Gate (w : world) (name : string)
    (qubits con : option (list (option Bit)))
    (arg : option (ParameterMap.argument V))
    (argidx : option ParameterMap.positions) (n trigger : nat)
    : result t * world :=
  let arg :=
    match qubits, arg with
    | Some l, Some (ParameterMap.Scalar x) =>
        Some (ParameterMap.Sequence (repeat x (length l)))
    | _, _ => arg
    end in
  let argidx :=
    match qubits, argidx with
    | Some l, Some (ParameterMap.Position i) =>
        Some (ParameterMap.Positions (repeat i (length l)))
    | _, _ => argidx
    end in
  match init w IsGate name qubits con None n arg argidx trigger with
  | (Err e, w') => (Err e, w')
  | (Ok self, w') =>
      match con with
      | None => (Ok self, w')
      | Some c =>
          (Ok (mk (idx self) (size self)
                  (repeat_char "c" (length c) ++ name)
                  (Instruction.qubits self) (Instruction.con self)
                  (Instruction.clbits self)
                  (con_trigger self) (cls self)), w')
      end
  end.

(** [dict.update] over the fields of a line:
    [key, val = arg.split("="); args.update({key: val})] *)
Fixpoint read_fields (fields : list string) (args : dict string)
    : result (dict string) :=
  match fields with
  | [] => Ok args
  | f :: rest =>
      match str_split "=" f with
      | [key; val] => read_fields rest (dict_update args key val)
      | _ => Err ParseError
      end
  end.

(** [[get_bit(bit_list, idx) for idx in indices]] *)
Definition get_bits (bit_list : list Bit) (indices : option (list nat))
    : option (list (option Bit)) :=
  match indices with
  | None => None
  | Some l => Some (map (get_bit bit_list) l)
  end.

(** [Instruction.from_string(string, qubit_list, clbit_list, delim)] *)
Definition from_string (w : world) (text : string)
    (qubit_list : list Qubit) (clbit_list : list Clbit) (delim : string)
    : result t * world :=
  match
    (args <- read_fields (removelast (str_split delim text)) [] ;;
     name <- dict_item args "name" ;;
     qb <- dict_item args "qbits" ;;
     qu_indices <- str_to_list qb int_of_str ;;
     let qubits := get_bits qubit_list qu_indices in
     cn <- dict_item args "con" ;;
     con_indices <- str_to_list cn int_of_str ;;
     let con := get_bits qubit_list con_indices in
     cb <- dict_item args "qbits" ;;
     cl_indices <- str_to_list cb int_of_str ;;
     let clbits := get_bits clbit_list cl_indices in
     a <- dict_item args "arg" ;;
     arg <- (if String.eqb a "None" then Ok None
             else str_to_list a float_of_str) ;;
     ai <- dict_item args "argidx" ;;
     argidx <- (if String.eqb ai "None" then Ok None
                else str_to_list ai int_of_str) ;;
     Ok (name, qubits, con, clbits, arg, argidx))%result
  with
  | Err e => (Err e, w)
  | Ok (name, qubits, con, clbits, arg, argidx) =>
      if String.eqb (lower name) "m" then
        Measurement w name qubits clbits None
      else
        Gate w name qubits con
             (option_map ParameterMap.Sequence arg)
             (option_map ParameterMap.Positions argidx) 1 1
  end.

End Instructions.

End Instruction.

(** ** [instruction.py]: the methods of class [Gate] *)

Module Gate.

(** The entries of [GATE_DICT]: a gate of one qubit is a function of its
    argument, a gate on a block of qubits a function of the position, the
    number of qubits and the argument. *)
Inductive gate_func (V : Type) : Type :=
| Unary (f : option V -> mat)
| Ternary (f : nat -> nat -> option V -> mat).
Arguments Unary {V} f.
Arguments Ternary {V} f.

Section Matrices.

Variable V : Type.

(** [GATE_DICT] of [gates.py], which is not among the sources, together
    with the gates [add_custom_gate] has put into it. *)
Variable GATE_DICT : dict (gate_func V).

(** [cgate(con, t, gate, n, trigger)] and [single_gate(indices, gates,
    n)] of [gates.py], which is not among the sources: the operator of
    a controlled gate and of gates on single qubits. *)
Variable cgate : list nat -> nat -> mat -> nat -> nat -> mat.
Variable single_gate : list nat -> list mat -> nat -> mat.

(** [GATE_DICT.update({name: item})] *)
Definition add_custom_gate (d : dict (gate_func V)) (name : string)
    (item : gate_func V) : dict (gate_func V) :=
  dict_update d name item.

(** [Gate._get_gatefunc(name)] *)
Definition _get_gatefunc (name : string) : result (gate_func V) :=
  match dict_get GATE_DICT (lower name) with
  | Some func => Ok func
  | None => Err (KeyError name)
  end.

(** [func(arg)] *)
Definition call1 (func : gate_func V) (arg : option V) : result mat :=
  match func with
  | Unary f => Ok (f arg)
  | Ternary _ => Err TypeError
  end.

(** [func(indices, n_qubits, arg)] *)
Definition call3 (func : gate_func V) (i n_qubits : nat) (arg : option V)
    : result mat :=
  match func with
  | Unary _ => Err TypeError
  | Ternary f => Ok (f i n_qubits arg)
  end.

(** [Gate._qubit_gate_matrix(idx)] *)
Definition _qubit_gate_matrix (w : Instruction.world V) (self : Instruction.t)
    (i : nat) : result mat :=
  (arg <- Instruction.get_arg w self i ;;
   func <- _get_gatefunc (Instruction.name self) ;;
   call1 func arg)%result.

(** [x[i]] for an [x] that may be [None]. *)
Definition item_of {A} (x : option (list A)) (i : nat) : result A :=
  match x with
  | None => Err TypeError
  | Some l => py_index l i
  end.

(** The loop of the second branch of [build_matrix], over the rounds
    that are left. *)
Fixpoint chain (w : Instruction.world V) (self : Instruction.t)
    (gate_func : gate_func V) (n_qubits : nat) (arr : mat)
    (rounds : list nat) : result mat :=
  match rounds with
  | [] => Ok arr
  | i :: rest =>
      (ix <- Instruction.qu_indices self ;;
       q <- item_of ix i ;;
       arg <- Instruction.get_arg w self i ;;
       m <- call3 gate_func q n_qubits arg ;;
       arr' <- np_matmul arr m ;;
       chain w self gate_func n_qubits arr' rest)%result
  end.

(** [Gate.build_matrix(n_qubits)] *)
Definition build_matrix (w : Instruction.world V) (self : Instruction.t)
    (n_qubits : nat) : result mat :=
  if Instruction.is_controlled self then
    (let name := remove_char "c" (Instruction.name self) in
     gate_func <- _get_gatefunc name ;;
     arg <- Instruction.get_arg w self 0 ;;
     gate_arr <- call1 gate_func arg ;;
     cn <- Instruction.con_indices self ;;
     ix <- Instruction.qu_indices self ;;
     q <- item_of ix 0 ;;
     match cn with
     | None => Err TypeError
     | Some c => Ok (cgate c q gate_arr n_qubits
                           (Instruction.con_trigger self))
     end)%result
  else if (1 <? Instruction.size self)%nat then
    (indices <- Instruction.qu_indices self ;;
     match indices with
     | None => Err TypeError
     | Some l =>
         let n_gates := length l in
         gate_func <- _get_gatefunc (Instruction.name self) ;;
         q <- py_index l 0 ;;
         arg <- Instruction.get_arg w self 0 ;;
         arr <- call3 gate_func q n_qubits arg ;;
         chain w self gate_func n_qubits arr (seq 1 (n_gates - 1))
     end)%result
  else
    (indices <- Instruction.qu_indices self ;;
     match indices with
     | None => Err TypeError
     | Some l =>
         gate_matrices <-
           mapM (_qubit_gate_matrix w self) (seq 0 (length l)) ;;
         Ok (single_gate l gate_matrices n_qubits)
     end)%result.

End Matrices.

End Gate.

(** ** [circuit.py]: class [Circuit] *)

Module Circuit.

(** The registers and the instruction list of a circuit.  The backend,
    the basis and the results of a run play no part in the text format
    and are left out. *)
Record t : Type := mk {
  qubits : list Qubit;
  clbits : list Clbit;
  instructions : list Instruction.t
}.

(** Modelled from the spec: [QuRegister(n).bits] and [ClRegister(n).bits]
    of [register.py], which is not among the sources: the bits of the
    indices [0] to [n - 1]. *)
Definition register (k : nat) : list Bit := map mkBit (seq 0 k).

(** [Circuit(qubits, clbits)] for two numbers of bits. *)
Definition new (qbits cbits : nat) : t :=
  mk (register qbits) (register cbits) [].

Definition n_qubits (self : t) : nat := length (qubits self).
Definition n_clbits (self : t) : nat := length (clbits self).

(** [Circuit.add(inst)] *)
Definition add (self : t) (inst : Instruction.t) : t :=
  mk (qubits self) (clbits self) (instructions self ++ [inst]).

Section Text.

Variable V : Type.
Variable repr : V -> string.
Variable float_of_str : string -> result V.

(** Modelled from the spec: [QuRegister.list] and [ClRegister.list] of
    [register.py], which is not among the sources: the bits of a
    register at the given indices, [None] for [None]. *)
Definition reg_list (bits : list Bit) (indices : option (list nat))
    : option (list (option Bit)) :=
  Instruction.get_bits bits indices.

(** [Circuit.add_gate(name, qubits, con=None, arg=None, argidx=None,
    n=1)], the qubits given by their indices. *)
Definition add_gate (w : Instruction.world V) (self : t) (name : string)
    (qs con : option (list nat))
    (arg : option (ParameterMap.argument V))
    (argidx : option ParameterMap.positions) (n : nat)
    : result t * Instruction.world V :=
  let qs :=
    match qs with
    | None => Some (map (fun b => Some b) (qubits self))
    | Some _ => reg_list (qubits self) qs
    end in
  let con := reg_list (qubits self) con in
  match Instruction.Gate w name qs con arg argidx n 1 with
  | (Err e, w') => (Err e, w')
  | (Ok gates, w') => (Ok (add self gates), w')
  end.

(** [Circuit.add_measurement(qubits, clbits, basis=None)], the bits
    given by their indices. *)
Definition add_measurement (w : Instruction.world V) (self : t)
    (qs cs : option (list nat)) (basis : option string)
    : result t * Instruction.world V :=
  let qs :=
    match qs with
    | None => Some (seq 0 (n_qubits self))
    | Some _ => qs
    end in
  let cs :=
    match cs with
    | None => qs
    | Some _ => cs
    end in
  match Instruction.Measurement w "m" (reg_list (qubits self) qs)
                                (reg_list (clbits self) cs) basis with
  | (Err e, w') => (Err e, w')
  | (Ok m, w') => (Ok (add self m), w')
  end.

(** [Circuit.to_string(delim="; ")]; the instructions are printed with
    the default delimiter, as in the source. *)
Definition to_string (w : Instruction.world V) (self : t) (delim : string)
    : result string :=
  (let info := ["qubits=" ++ str_of_nat (n_qubits self);
                "clbits=" ++ str_of_nat (n_clbits self)] in
   let header := String.concat "" (map (fun x => x ++ delim) info) in
   lines <- mapM (fun inst => Instruction.to_string repr w inst "; ")
                 (instructions self) ;;
   Ok (join (String (ascii_of_nat 10) "") (header :: lines)))%result.

(** The loop of [from_string] over the lines that are left. *)
Fixpoint read_lines (w : Instruction.world V) (self : t)
    (lines : list string) (delim : string)
    : result t * Instruction.world V :=
  match lines with
  | [] => (Ok self, w)
  | line :: rest =>
      match Instruction.from_string float_of_str w line
              (qubits self) (clbits self) delim with
      | (Err e, w') => (Err e, w')
      | (Ok inst, w') => read_lines w' (add self inst) rest delim
      end
  end.

(** [Circuit.from_string(string, delim="; ")] *)
Definition from_string (w : Instruction.world V) (text : string)
    (delim : string) : result t * Instruction.world V :=
  match splitlines text with
  | [] => (Err IndexError, w)
  | info :: lines =>
      match
        (q <- get_info info "qubits" delim ;;
         qbits <- int_of_str q ;;
         c <- get_info info "clbits" delim ;;
         cbits <- int_of_str c ;;
         Ok (qbits, cbits))%result
      with
      | Err e => (Err e, w)
      | Ok (qbits, cbits) => read_lines w (new qbits cbits) lines delim
      end
  end.

End Text.

Section Measure.

Variable get_projector : vec -> mat.
Variable random_choice : nat -> list R -> option nat.

(** [Circuit.measure(qubits, basis=None)] on the backend of the circuit,
    for the list of qubits [qureg.list] returns: [basis] is passed on as
    the second argument of [StateVector.measure], its eigenvalues. *)
Definition measure (backend : StateVector.t) (qs : list Qubit)
    (basis : option (list R)) : result (list R) * StateVector.t :=
  StateVector.measure get_projector random_choice backend
    (StateVector.Several qs) basis None false true.

End Measure.

End Circuit.

(** * Vocabulary of the properties *)

Local Open Scope list_scope.
Local Open Scope R_scope.

(** ** Arrays *)

(** A matrix of [r] rows and [c] columns. *)
Definition shape (r c : nat) (m : mat) : Prop :=
  length m = r /\ Forall (fun row => length row = c) m.

(** The computational basis state |0...0> of [k] qubits: amplitude one at
    index zero, amplitude zero elsewhere. *)
Definition zero_state (k : nat) : vec :=
  RtoC 1 :: repeat (RtoC 0) (2 ^ k - 1).

(** The outer product of a vector with itself, without conjugation. *)
Definition outer (v : vec) : mat :=
  map (fun x => map (fun y => Cmul x y) v) v.

(** The opposite and the difference of complex numbers. *)
Definition Copp (z : C) : C := (- fst z, - snd z).
Definition Csub (z w : C) : C := Cadd z (Copp w).

(** The sum of [f 0], ..., [f (k - 1)]. *)
Fixpoint Csumn (k : nat) (f : nat -> C) : C :=
  match k with
  | O => RtoC 0
  | S m => Cadd (Csumn m f) (f m)
  end.

(** The entry of a matrix in row [i] and column [j]. *)
Definition entry (u : mat) (i j : nat) : C := nth j (nth i u []) (RtoC 0).

(** A unitary matrix of [d] rows and columns: the product of its adjoint
    with it is the identity, entry by entry. *)
Definition unitary (d : nat) (u : mat) : Prop :=
  shape d d u
  /\ forall j k, (j < d)%nat -> (k < d)%nat ->
       Csumn d (fun i => Cmul (Cconj (entry u i j)) (entry u i k))
       = if Nat.eqb j k then RtoC 1 else RtoC 0.

(** ** States of the engine and calls of [measure] *)

(** The engine holds an amplitude vector of the right length: what
    [set_qubits] and [set] establish. *)
Definition well_formed (self : StateVector.t) : Prop :=
  exists a, StateVector.amp self = Some a
            /\ length a = (2 ^ StateVector.n_qubits self)%nat
            /\ StateVector.n self = (2 ^ StateVector.n_qubits self)%nat.

(** The eigenvectors are two vectors of two entries at least. *)
Definition basis_ok (em : mat) : Prop :=
  (2 <= length em)%nat /\ Forall (fun v => length v = 2%nat) em.

(** The projector of a state of one qubit is a matrix of two rows and two
    columns. *)
Definition projector_ok (get_projector : vec -> mat) : Prop :=
  forall v, length v = 2%nat -> shape 2 2 (get_projector v).

(** The measured qubits are qubits of the engine. *)
Definition qubits_ok (self : StateVector.t) (qs : list Qubit) : Prop :=
  Forall (fun q => (index q < StateVector.n_qubits self)%nat) qs.

(** The state [set_qubits] and [set] leave behind: the qubits [qs0] and an
    amplitude vector [a] of 2^n entries whose norm rounds to one. *)
Definition initialised (self : StateVector.t) (qs0 : list Qubit) (a : vec)
    : Prop :=
  StateVector.qubits self = Some qs0
  /\ StateVector.n_qubits self = length qs0
  /\ StateVector.n self = (2 ^ length qs0)%nat
  /\ StateVector.amp self = Some a
  /\ length a = (2 ^ length qs0)%nat
  /\ np_round (norm a) 10 = 1.

(** The object [save_snapshot] builds from such an engine. *)
Definition snapshot_of (self : StateVector.t) (qs0 : list Qubit) (a : vec)
    : StateVector.t :=
  StateVector.mk (length qs0) (2 ^ length qs0) (Some qs0)
    (Some match StateVector.basis self with
          | Some b => b
          | None => mkBasis (length qs0)
          end)
    (Some (vdiv a (norm a))) [].

(** The probabilities of the outcomes, in the order [measure] enumerates
    them: the array [probs] numpy draws from. *)
Definition probabilities (get_projector : vec -> mat) (self : StateVector.t)
    (em : mat) (qs : list Qubit) : list R :=
  map (fun res =>
         match StateVector.projection get_projector self em qs res with
         | Ok (_, p) => Cre p
         | Err _ => 0
         end)
      (StateVector.product01 (length qs)).

(** The invariant: the engine holds an amplitude vector of [self.n]
    entries and of norm one. *)
Definition normalised (self : StateVector.t) : Prop :=
  exists a, StateVector.amp self = Some a
            /\ length a = StateVector.n self
            /\ norm a = 1.

(** What the round trip of the text format is to preserve of an
    instruction: its name, the indices of its qubits, of its controls and
    of its classical bits, and the values of its arguments. *)
Definition described (V : Type) (w : Instruction.world V)
    (inst : Instruction.t) :=
  (Instruction.name inst,
   Instruction.qu_indices inst,
   Instruction.con_indices inst,
   Instruction.cl_indices inst,
   Instruction.args w inst).

(** The factor [measure] puts at the position [k] of the tensor product
    for the outcome [res]: the projector of the eigenvector [res] selects
    for the measured qubit of index [k] (the last one of them, if a qubit
    is listed twice), the identity at every other position. *)
Definition part_of (get_projector : vec -> mat) (em : mat) (res : list nat)
    (qs : list Qubit) (k : nat) : mat :=
  match find (fun rq => Nat.eqb (index (snd rq)) k) (rev (combine res qs)) with
  | Some (r, _) => get_projector (nth r em [])
  | None => eye2
  end.

(** ** Examples *)

(** An engine of one qubit in the state |0>. *)
Definition engine1 : StateVector.t :=
  StateVector.mk 1 2 (Some [mkBit 0]) (Some (mkBasis 1))
                 (Some (zero_state 1)) [].

(** An engine of one qubit in the state (3/5, 4/5). *)
Definition engine_34 : StateVector.t :=
  StateVector.mk 1 2 (Some [mkBit 0]) (Some (mkBasis 1))
                 (Some [RtoC (3 / 5); RtoC (4 / 5)]) [].

(** An engine of one qubit in the state i |1>. *)
Definition engine_i : StateVector.t :=
  StateVector.mk 1 2 (Some [mkBit 0]) (Some (mkBasis 1))
                 (Some [RtoC 0; Ci]) [].

(** A basis of eigenvectors, columns (1, 1) and (1, -1). *)
Definition plus_minus : mat :=
  [[RtoC 1; RtoC 1]; [RtoC 1; RtoC (-1)]].

(** Eigenvectors (1, i) and (1, -i), as the columns of a matrix. *)
Definition y_basis : mat := [[RtoC 1; RtoC 1]; [Ci; Cconj Ci]].

(** The Pauli X gate. *)
Definition pauli_x : mat := [[RtoC 0; RtoC 1]; [RtoC 1; RtoC 0]].

(** A source of randomness that draws the first outcome of non-zero
    probability. *)
Fixpoint first_nonzero (k : nat) (probs : list R) : option nat :=
  match probs with
  | [] => None
  | p :: rest =>
      if Req_EM_T p 0 then option_map S (first_nonzero k rest) else Some 0%nat
  end.

(** A source of randomness that draws the second outcome. *)
Definition draw_second (k : nat) (probs : list R) : option nat := Some 1%nat.

(** The phase gate S and its adjoint. *)
Definition s_matrix : mat := [[RtoC 1; RtoC 0]; [RtoC 0; Ci]].
Definition sdg_matrix : mat := [[RtoC 1; RtoC 0]; [RtoC 0; Cconj Ci]].

(** A gate dictionary with the gate ["s"] and a custom gate registered
    under the name ["sc"]. *)
Definition dict_s_sc (V : Type) : dict (Gate.gate_func V) :=
  Gate.add_custom_gate [("s", Gate.Unary (fun _ => s_matrix))]
                       "sc" (Gate.Unary (fun _ => sdg_matrix)).

(** A gate dictionary with a custom gate registered under the name
    ["dec"]. *)
Definition dict_dec (V : Type) : dict (Gate.gate_func V) :=
  Gate.add_custom_gate [] "dec" (Gate.Unary (fun _ => sdg_matrix)).

(** The circuit of two qubits and two classical bits built by
    [c.h(0); c.cx(0, 1); c.m([0], [1])]. *)
Definition bell_measured (V : Type)
    : result Circuit.t * Instruction.world V :=
  let w0 := Instruction.mkWorld 0 (ParameterMap.empty V) in
  let c0 := Circuit.new 2 2 in
  match Circuit.add_gate w0 c0 "H" (Some [0%nat]) None None None 1 with
  | (Err e, w) => (Err e, w)
  | (Ok c1, w1) =>
      match Circuit.add_gate w1 c1 "X" (Some [1%nat]) (Some [0%nat])
                             None None 1 with
      | (Err e, w) => (Err e, w)
      | (Ok c2, w2) =>
          Circuit.add_measurement w2 c2 (Some [0%nat]) (Some [1%nat]) None
      end
  end.

(** The line feed between the lines of the text. *)
Definition LF : string := String (ascii_of_nat 10) "".

Definition bell_measured_text : string :=
  ("qubits=2; clbits=2; " ++ LF
   ++ "idx=0; name=H; qbits=[0]; con=None; cbits=None; arg=None; argidx=None; "
   ++ LF
   ++ "idx=1; name=cX; qbits=[1]; con=[0]; cbits=None; arg=None; argidx=None; "
   ++ LF
   ++ "idx=2; name=m; qbits=[0]; con=None; cbits=[1]; arg=None; argidx=None; "
  )%string.

(** * Properties *)

(** ** Rounding *)

Lemma Int_part_IZR (z : Z) : Int_part (IZR z) = z.
Proof. symmetry. apply Int_part_spec. lra. Qed.

Lemma rint_IZR (z : Z) : rint (IZR z) = z.
Proof.
  unfold rint. rewrite Int_part_IZR.
  destruct (Rlt_dec (IZR z - IZR z) (1 / 2)) as [_ | H]; [reflexivity | lra].
Qed.

(** [rint] moves a number by one half at most. *)
Lemma rint_near (x : R) : IZR (rint x) - 1 / 2 <= x <= IZR (rint x) + 1 / 2.
Proof.
  unfold rint.
  destruct (base_Int_part x) as [Hlo Hhi].
  destruct (Rlt_dec (x - IZR (Int_part x)) (1 / 2)) as [H1 | H1].
  - lra.
  - destruct (Rlt_dec (1 / 2) (x - IZR (Int_part x))) as [H2 | H2].
    + rewrite plus_IZR. lra.
    + destruct (Z.even (Int_part x)); [| rewrite plus_IZR]; lra.
Qed.

Lemma pow10_pos (d : nat) : 0 < 10 ^ d.
Proof. apply pow_lt. lra. Qed.

(** Rounding leaves an integer as it is. *)
Lemma np_round_IZR (z : Z) (d : nat) : np_round (IZR z) d = IZR z.
Proof.
  unfold np_round.
  replace (10 ^ d) with (IZR (10 ^ Z.of_nat d)) at 1
    by (rewrite <- pow_IZR; reflexivity).
  rewrite <- mult_IZR, rint_IZR, mult_IZR, <- pow_IZR.
  field. apply Rgt_not_eq, pow10_pos.
Qed.

(** A number that rounds to one is positive. *)
Lemma np_round_one_pos (x : R) (d : nat) : np_round x d = 1 -> 0 < x.
Proof.
  unfold np_round. intros H.
  pose proof (pow10_pos d) as Hp.
  assert (Hr : IZR (rint (x * 10 ^ d)) = 10 ^ d).
  { apply (Rmult_eq_reg_r (/ 10 ^ d)).
    - rewrite Rinv_r by lra. exact H.
    - apply Rinv_neq_0_compat. lra. }
  destruct (rint_near (x * 10 ^ d)) as [Hlo _].
  rewrite Hr in Hlo.
  assert (H1 : 1 <= 10 ^ d) by (apply pow_R1_Rle; lra).
  nra.
Qed.

(** ** Complex numbers and norms *)

Lemma C_eq (a b c d : R) : a = c -> b = d -> ((a, b) : C) = (c, d).
Proof. intros -> ->. reflexivity. Qed.

Ltac c_ring :=
  unfold Cmul, Cadd, Cconj, Cdiv_real, RtoC, Cabs2, Cre, Cim; simpl;
  try (apply C_eq); try ring.

Lemma Cmul_1_l (z : C) : Cmul (RtoC 1) z = z.
Proof. destruct z. c_ring. Qed.

Lemma Cmul_0_l (z : C) : Cmul (RtoC 0) z = RtoC 0.
Proof. destruct z. c_ring. Qed.

Lemma Cabs2_nonneg (z : C) : 0 <= Cabs2 z.
Proof. unfold Cabs2. nra. Qed.

Lemma Rsum_cons (x : R) (l : list R) : Rsum (x :: l) = x + Rsum l.
Proof. reflexivity. Qed.

Lemma Rsum_Cabs2_nonneg (v : vec) : 0 <= Rsum (map Cabs2 v).
Proof.
  induction v as [| z v IH]; simpl; [lra |].
  pose proof (Cabs2_nonneg z). lra.
Qed.

Lemma norm_sqr (v : vec) : norm v * norm v = Rsum (map Cabs2 v).
Proof. apply sqrt_sqrt, Rsum_Cabs2_nonneg. Qed.

Lemma Rsum_Cabs2_vdiv (v : vec) (r : R) :
  r <> 0 -> Rsum (map Cabs2 (vdiv v r)) = Rsum (map Cabs2 v) / (r * r).
Proof.
  intros Hr. unfold vdiv. induction v as [| z v IH].
  - simpl. field. exact Hr.
  - rewrite !map_cons, !Rsum_cons, IH. unfold Cabs2, Cdiv_real; simpl.
    field. exact Hr.
Qed.

(** Dividing a vector by its norm gives a vector of norm one. *)
Lemma norm_vdiv (v : vec) : norm v <> 0 -> norm (vdiv v (norm v)) = 1.
Proof.
  intros Hn. unfold norm at 1.
  rewrite Rsum_Cabs2_vdiv by exact Hn.
  rewrite norm_sqr.
  replace (Rsum (map Cabs2 v) / Rsum (map Cabs2 v)) with 1.
  - apply sqrt_1.
  - field. rewrite <- norm_sqr. nra.
Qed.

Lemma vdiv_1 (v : vec) : vdiv v 1 = v.
Proof.
  induction v as [| [a b] v IH]; simpl; [reflexivity |].
  rewrite IH. f_equal. unfold Cdiv_real; simpl. apply C_eq; field.
Qed.

Lemma length_vdiv (v : vec) (r : R) : length (vdiv v r) = length v.
Proof. apply length_map. Qed.

(** ** The state of all qubits at zero *)

Lemma kron_vec2_zeros (j : nat) (b : vec) :
  kron_vec2 (repeat (RtoC 0) j) b = repeat (RtoC 0) (j * length b).
Proof.
  assert (Hb : map (Cmul (RtoC 0)) b = repeat (RtoC 0) (length b)).
  { induction b as [| z b IHb]; simpl; [reflexivity |].
    rewrite Cmul_0_l, IHb. reflexivity. }
  unfold kron_vec2. induction j as [| j IH]; [reflexivity |].
  change (repeat (RtoC 0) (S j)) with (RtoC 0 :: repeat (RtoC 0) j).
  cbn [flat_map]. rewrite IH, Hb, <- repeat_app. reflexivity.
Qed.

Lemma kron_vec2_zero_state (k : nat) :
  kron_vec2 (zero_state k) ZERO = zero_state (S k).
Proof.
  unfold zero_state.
  change (kron_vec2 (RtoC 1 :: repeat (RtoC 0) (2 ^ k - 1)) ZERO)
    with (map (Cmul (RtoC 1)) ZERO
            ++ kron_vec2 (repeat (RtoC 0) (2 ^ k - 1)) ZERO).
  rewrite kron_vec2_zeros. unfold ZERO. cbn [map app length].
  rewrite !Cmul_1_l.
  assert (H : (0 < 2 ^ k)%nat) by (apply Nat.neq_0_lt_0, Nat.pow_nonzero; lia).
  replace (2 ^ S k - 1)%nat with (S ((2 ^ k - 1) * 2))%nat
    by (rewrite Nat.pow_succ_r'; lia).
  reflexivity.
Qed.

Lemma kron_vec_from_zero_state (j k : nat) :
  fold_left kron_vec2 (repeat ZERO k) (zero_state j) = zero_state (j + k).
Proof.
  revert j. induction k as [| k IH]; intros j; cbn [repeat fold_left].
  - rewrite Nat.add_0_r. reflexivity.
  - rewrite kron_vec2_zero_state, IH. f_equal. lia.
Qed.

(** [kron([ZERO] * k)] is the state |0...0>. *)
Lemma kron_vec_ZERO (k : nat) : kron_vec (repeat ZERO k) = zero_state k.
Proof. apply (kron_vec_from_zero_state 0 k). Qed.

Lemma length_zero_state (k : nat) : length (zero_state k) = (2 ^ k)%nat.
Proof.
  unfold zero_state. simpl. rewrite repeat_length.
  assert (H : (0 < 2 ^ k)%nat) by (apply Nat.neq_0_lt_0, Nat.pow_nonzero; lia).
  lia.
Qed.

Lemma Rsum_Cabs2_zeros (j : nat) : Rsum (map Cabs2 (repeat (RtoC 0) j)) = 0.
Proof.
  induction j as [| j IH]; simpl; [reflexivity |].
  rewrite IH. unfold Cabs2; simpl. ring.
Qed.

Lemma norm_zero_state (k : nat) : norm (zero_state k) = 1.
Proof.
  unfold norm, zero_state. simpl. rewrite Rsum_Cabs2_zeros.
  replace (Cabs2 (RtoC 1) + 0) with 1 by (unfold Cabs2; simpl; ring).
  apply sqrt_1.
Qed.

(** ** [StateVector.set] *)

Lemma set_some (self : StateVector.t) (v : vec) :
  StateVector.set self (Some v) =
  if negb (Nat.eqb (length v) (StateVector.n self)) then
    (Err DimensionMismatch, self)
  else if Req_EM_T (np_round (norm v) 10) 1 then
    (Ok tt, StateVector.with_amp self (vdiv v (norm v)))
  else (Err NotNormalized, self).
Proof. reflexivity. Qed.

(** Without an argument [set] puts the engine in the state |0...0>. *)
Lemma set_none (self : StateVector.t) :
  StateVector.n self = (2 ^ StateVector.n_qubits self)%nat ->
  StateVector.set self None =
  (Ok tt, StateVector.with_amp self (zero_state (StateVector.n_qubits self))).
Proof.
  intros Hn. unfold StateVector.set.
  rewrite kron_vec_ZERO, length_zero_state, Hn, Nat.eqb_refl. simpl negb.
  cbv iota. rewrite norm_zero_state.
  destruct (Req_EM_T (np_round 1 10) 1) as [_ | H].
  - rewrite vdiv_1. reflexivity.
  - exfalso. apply H. apply (np_round_IZR 1 10).
Qed.

(** C3, as the code has it: [set] raises the dimension error exactly when
    the length of the vector differs from 2^n; it raises the normalisation
    error exactly when the length is 2^n and the norm rounded to 10
    decimals differs from 1.0 (the length is checked first); in every other
    case the state becomes the vector divided by its norm, and no other
    error is raised.  Without a vector the state becomes |0...0>. *)
Theorem set_outcomes (self : StateVector.t) (v : vec)
    (Hn : StateVector.n self = (2 ^ StateVector.n_qubits self)%nat) :
  let dim := (2 ^ StateVector.n_qubits self)%nat in
  (fst (StateVector.set self (Some v)) = Err DimensionMismatch
   <-> length v <> dim)
  /\ (fst (StateVector.set self (Some v)) = Err NotNormalized
      <-> length v = dim /\ np_round (norm v) 10 <> 1)
  /\ (length v = dim -> np_round (norm v) 10 = 1 ->
      StateVector.set self (Some v)
      = (Ok tt, StateVector.with_amp self (vdiv v (norm v))))
  /\ (forall e, fst (StateVector.set self (Some v)) = Err e ->
      e = DimensionMismatch \/ e = NotNormalized)
  /\ StateVector.set self None
     = (Ok tt,
        StateVector.with_amp self (zero_state (StateVector.n_qubits self))).
Proof.
  intros dim. rewrite set_some, Hn. fold dim.
  split; [| split; [| split; [| split]]]; try (apply set_none, Hn);
    destruct (Nat.eqb_spec (length v) dim) as [Hlen | Hlen]; simpl negb;
    cbv iota;
    try (destruct (Req_EM_T (np_round (norm v) 10) 1) as [Hr | Hr]);
    simpl fst;
    try (intros e He; inversion He; subst e);
    intuition (try discriminate; try congruence).
Qed.

(** [set_outcomes] at an engine of one qubit and the vector (1, 0). *)
Lemma set_outcomes_witness :
  StateVector.set engine1 (Some [RtoC 1; RtoC 0])
  = (Ok tt,
     StateVector.with_amp engine1
       (vdiv [RtoC 1; RtoC 0] (norm [RtoC 1; RtoC 0]))).
Proof.
  pose proof (set_outcomes engine1 [RtoC 1; RtoC 0] eq_refl) as H.
  destruct H as (_ & _ & H & _).
  apply H.
  - reflexivity.
  - change [RtoC 1; RtoC 0] with (zero_state 1).
    rewrite norm_zero_state. apply (np_round_IZR 1 10).
Defined.

Lemma norm_2_0_0 : norm [RtoC 2; RtoC 0; RtoC 0] = 2.
Proof.
  unfold norm. simpl.
  replace (Cabs2 (RtoC 2) + (Cabs2 (RtoC 0) + (Cabs2 (RtoC 0) + 0)))
    with (2 * 2) by (unfold Cabs2; simpl; ring).
  apply sqrt_square. lra.
Qed.

(** C3 as it is stated fails: for one qubit the vector (2, 0, 0) has a norm
    that does not round to 1.0, and [set] raises the dimension error, not
    the normalisation error. *)
Lemma set_normalisation_error_needs_length :
  let v := [RtoC 2; RtoC 0; RtoC 0] in
  np_round (norm v) 10 <> 1
  /\ fst (StateVector.set engine1 (Some v)) = Err DimensionMismatch
  /\ ~ (fst (StateVector.set engine1 (Some v)) = Err NotNormalized
        <-> np_round (norm v) 10 <> 1).
Proof.
  intros v.
  assert (Hr : np_round (norm v) 10 <> 1).
  { unfold v. rewrite norm_2_0_0, (np_round_IZR 2 10). lra. }
  assert (He : fst (StateVector.set engine1 (Some v)) = Err DimensionMismatch)
    by reflexivity.
  repeat split; try assumption.
  intros [_ H]. specialize (H Hr). rewrite He in H. discriminate.
Qed.

(** ** Results and exceptions *)

Lemma rbind_Ok {A B} (r : result A) (k : A -> result B) (b : B) :
  rbind r k = Ok b -> exists a, r = Ok a /\ k a = Ok b.
Proof. destruct r as [a | e]; simpl; [eauto | discriminate]. Qed.

Lemma rbind_Err {A B} (r : result A) (k : A -> result B) (e : error) :
  rbind r k = Err e -> r = Err e \/ exists a, r = Ok a /\ k a = Err e.
Proof.
  destruct r as [a | e']; simpl; intros H; [right; eauto | left].
  inversion H. reflexivity.
Qed.

Lemma py_index_Err {A} (l : list A) (i : nat) (e : error) :
  py_index l i = Err e -> e = IndexError.
Proof.
  unfold py_index. destruct (nth_error l i); intros H; inversion H.
  reflexivity.
Qed.

Lemma py_index_Ok {A} (l : list A) (i : nat) (a : A) :
  py_index l i = Ok a <-> nth_error l i = Some a.
Proof.
  unfold py_index. destruct (nth_error l i); split; intros H; inversion H;
    reflexivity.
Qed.

Lemma py_index_lt {A} (l : list A) (i : nat) :
  (i < length l)%nat -> exists a, py_index l i = Ok a.
Proof.
  intros H. unfold py_index.
  destruct (nth_error l i) as [a |] eqn:E; [eauto |].
  apply nth_error_None in E. lia.
Qed.

Lemma py_assign_Err {A} (l : list A) (i : nat) (x : A) (e : error) :
  py_assign l i x = Err e -> e = IndexError.
Proof.
  revert i. induction l as [| h t IH]; intros i; simpl.
  - intros H. inversion H. reflexivity.
  - destruct i as [| j]; [discriminate |].
    destruct (py_assign t j x) eqn:E; [discriminate |].
    intros H. inversion H. subst. eapply IH. exact E.
Qed.

(** A successful assignment keeps the length and what holds of every
    entry, when it holds of the new one. *)
Lemma py_assign_Ok {A} (P : A -> Prop) (l l' : list A) (i : nat) (x : A) :
  py_assign l i x = Ok l' -> Forall P l -> P x ->
  Forall P l' /\ length l' = length l.
Proof.
  revert i l'. induction l as [| h t IH]; intros i l'; simpl.
  - discriminate.
  - destruct i as [| j].
    + intros H HF Hx. inversion H. inversion HF. subst. split.
      * constructor; assumption.
      * reflexivity.
    + destruct (py_assign t j x) as [t' |] eqn:E; [| discriminate].
      intros H HF Hx. inversion H. inversion HF. subst.
      destruct (IH j t' E) as [HF' Hlen]; try assumption.
      split; [constructor; assumption | simpl; rewrite Hlen; reflexivity].
Qed.

Lemma py_assign_lt {A} (l : list A) (i : nat) (x : A) :
  (i < length l)%nat -> exists l', py_assign l i x = Ok l'.
Proof.
  revert i. induction l as [| h t IH]; intros i; simpl; [lia |].
  destruct i as [| j]; [eauto |].
  intros H. destruct (IH j) as [t' Ht]; [lia |]. rewrite Ht. eauto.
Qed.

Lemma py_assign_nth_error {A} (l l' : list A) (i : nat) (x : A) :
  py_assign l i x = Ok l' ->
  length l' = length l
  /\ forall k, nth_error l' k = if Nat.eqb k i then Some x else nth_error l k.
Proof.
  revert i l'. induction l as [| h t IH]; intros i l'; simpl.
  - discriminate.
  - destruct i as [| j].
    + intros H. inversion H. subst. split; [reflexivity |].
      intros [| k]; reflexivity.
    + destruct (py_assign t j x) as [t' |] eqn:E; [| discriminate].
      intros H. inversion H. subst.
      destruct (IH j t' E) as (Hlen & Hnth).
      split; [simpl; congruence |].
      intros [| k]; [reflexivity |]. simpl. apply Hnth.
Qed.

Lemma mapM_Err {A B} (f : A -> result B) (l : list A) (e : error) :
  mapM f l = Err e -> exists a, In a l /\ f a = Err e.
Proof.
  induction l as [| a t IH]; simpl; [discriminate |].
  destruct (f a) as [b | e'] eqn:E.
  - destruct (mapM f t) as [bs | e''].
    + discriminate.
    + intros H. inversion H. subst. destruct IH as [a' [Hin Ha']];
        [reflexivity | eauto].
  - intros H. inversion H. subst. eauto.
Qed.

Lemma mapM_Ok {A B} (f : A -> result B) (l : list A) (bs : list B) :
  mapM f l = Ok bs -> Forall2 (fun a b => f a = Ok b) l bs.
Proof.
  revert bs. induction l as [| a t IH]; simpl; intros bs.
  - intros H. inversion H. constructor.
  - destruct (f a) as [b |] eqn:E; [| discriminate].
    destruct (mapM f t) as [bs' |]; [| discriminate].
    intros H. inversion H. subst. constructor; [exact E | apply IH; reflexivity].
Qed.

(** ** Shapes of arrays *)

Lemma length_kron_vec2 (a b : vec) :
  length (kron_vec2 a b) = (length a * length b)%nat.
Proof.
  unfold kron_vec2. induction a as [| x a IH]; simpl; [reflexivity |].
  rewrite length_app, length_map, IH. reflexivity.
Qed.

Lemma shape_kron_mat2 (r1 c1 r2 c2 : nat) (a b : mat) :
  shape r1 c1 a -> shape r2 c2 b -> shape (r1 * r2) (c1 * c2) (kron_mat2 a b).
Proof.
  intros [Ha1 Ha2] [Hb1 Hb2]. subst r1 r2. unfold kron_mat2.
  induction a as [| ra a IH]; cbn [flat_map].
  - split; [reflexivity | constructor].
  - inversion Ha2 as [| ? ? Hra Ha2']. subst.
    destruct (IH Ha2') as [IH1 IH2]. split.
    + rewrite length_app, length_map, IH1. reflexivity.
    + apply Forall_app. split; [| exact IH2].
      apply Forall_forall. intros row Hin.
      apply in_map_iff in Hin. destruct Hin as [rb [<- Hrb]].
      rewrite length_kron_vec2. f_equal.
      rewrite Forall_forall in Hb2. apply Hb2. exact Hrb.
Qed.

Lemma shape_fold_kron (parts : list mat) (r c : nat) (acc : mat) :
  shape r c acc -> Forall (shape 2 2) parts ->
  shape (r * 2 ^ length parts) (c * 2 ^ length parts)
        (fold_left kron_mat2 parts acc).
Proof.
  revert r c acc. induction parts as [| m parts IH]; intros r c acc Hacc HF.
  - simpl. rewrite !Nat.mul_1_r. exact Hacc.
  - inversion HF as [| ? ? Hm HF']. subst. cbn [fold_left length].
    replace (r * 2 ^ S (length parts))%nat
      with ((r * 2) * 2 ^ length parts)%nat by (rewrite Nat.pow_succ_r'; lia).
    replace (c * 2 ^ S (length parts))%nat
      with ((c * 2) * 2 ^ length parts)%nat by (rewrite Nat.pow_succ_r'; lia).
    apply IH; [| exact HF']. apply shape_kron_mat2; assumption.
Qed.

(** The tensor product of [k] matrices of two rows and two columns has
    2^k rows and 2^k columns. *)
Lemma shape_kron (parts : list mat) :
  Forall (shape 2 2) parts ->
  shape (2 ^ length parts) (2 ^ length parts) (kron parts).
Proof.
  intros HF. unfold kron.
  pose proof (@shape_fold_kron parts 1 1 [[RtoC 1]]) as H.
  rewrite !Nat.mul_1_l in H. apply H; [| exact HF].
  split; [reflexivity | repeat constructor].
Qed.

Lemma shape_eye2 : shape 2 2 eye2.
Proof. split; [reflexivity | repeat constructor]. Qed.

Lemma shape_ket_bra (v : vec) : length v = 2%nat -> shape 2 2 (ket_bra v).
Proof.
  intros H. unfold ket_bra. split.
  - rewrite length_map. exact H.
  - apply Forall_forall. intros row Hin. apply in_map_iff in Hin.
    destruct Hin as [a [<- _]]. rewrite length_map. exact H.
Qed.

Lemma np_dot_shape (r c : nat) (m : mat) (v : vec) :
  shape r c m -> length v = c ->
  np_dot m v = Ok (map (fun row => vdot row v) m).
Proof.
  intros [_ HF] Hv. unfold np_dot.
  replace (forallb (fun row => Nat.eqb (length row) (length v)) m) with true;
    [reflexivity |].
  symmetry. apply forallb_forall. intros row Hin.
  rewrite Forall_forall in HF. rewrite (HF row Hin), Hv. apply Nat.eqb_refl.
Qed.

Lemma np_dot_Err (m : mat) (v : vec) (e : error) :
  np_dot m v = Err e -> e = ShapeError.
Proof.
  unfold np_dot. destruct (forallb _ m); intros H; inversion H. reflexivity.
Qed.

(** ** The outcomes [measure] enumerates *)

Lemma length_product01 (k : nat) :
  length (StateVector.product01 k) = (2 ^ k)%nat.
Proof.
  induction k as [| k IH]; [reflexivity |].
  cbn [StateVector.product01 flat_map].
  rewrite !length_app, !length_map, IH. simpl. lia.
Qed.

(** Every outcome is a tuple of [k] bits. *)
Lemma product01_bits (k : nat) (res : list nat) :
  In res (StateVector.product01 k) ->
  length res = k /\ Forall (fun b => (b < 2)%nat) res.
Proof.
  revert res. induction k as [| k IH]; intros res.
  - simpl. intros [<- | []]. split; [reflexivity | constructor].
  - cbn [StateVector.product01 flat_map]. rewrite app_nil_r.
    intros Hin. apply in_app_or in Hin.
    destruct Hin as [Hin | Hin]; apply in_map_iff in Hin;
      destruct Hin as [res' [<- Hres']]; destruct (IH res' Hres') as [Hl HF];
      (split; [simpl; rewrite Hl; reflexivity | constructor; [lia | exact HF]]).
Qed.

(** ** [StateVector.measure] *)

Lemma eigenbasis_Err (vals : option (list R)) (vecs : option mat) (e : error) :
  StateVector.eigenbasis vals vecs = Err e <->
  e = MissingEigenvectors /\ vals <> None /\ vecs = None.
Proof.
  destruct vals as [vals |], vecs as [vecs |]; simpl; split;
    try discriminate; try (intros (_ & H & _); congruence);
    try (intros (_ & _ & H); congruence).
  - intros H. inversion H. repeat split. discriminate.
  - intros (-> & _). reflexivity.
Qed.

Lemma save_snapshot_Err (self self' : StateVector.t) (e : error) :
  StateVector.save_snapshot self = (Err e, self') ->
  self' = self /\ In e [TypeError; DimensionMismatch; NotNormalized].
Proof.
  unfold StateVector.save_snapshot.
  destruct (StateVector.qubits self) as [qs |].
  - unfold StateVector.new, StateVector.set_qubits, StateVector.set.
    match goal with
    | |- context [negb (Nat.eqb ?x ?y)] => destruct (negb (Nat.eqb x y))
    end.
    + intros H. inversion H. subst. simpl. auto.
    + match goal with
      | |- context [Req_EM_T ?x ?y] => destruct (Req_EM_T x y)
      end; intros H; inversion H; subst; simpl; auto.
  - intros H. inversion H. subst. simpl. auto.
Qed.

Lemma assign_row_Err (width : nat) (v : vec) (e : error) :
  StateVector.assign_row width v = Err e -> e = ShapeError.
Proof.
  unfold StateVector.assign_row. destruct (Nat.eqb (length v) width);
    [discriminate |].
  destruct v as [| z [| z' v]]; intros H; inversion H; reflexivity.
Qed.

Lemma assign_row_length (width : nat) (v row : vec) :
  StateVector.assign_row width v = Ok row -> length row = width.
Proof.
  unfold StateVector.assign_row.
  destruct (Nat.eqb_spec (length v) width) as [Hl | Hl].
  - intros H. inversion H. subst. reflexivity.
  - destruct v as [| z [| z' v]]; intros H; inversion H.
    apply repeat_length.
Qed.

Lemma assign_row_same (v : vec) :
  StateVector.assign_row (length v) v = Ok v.
Proof. unfold StateVector.assign_row. rewrite Nat.eqb_refl. reflexivity. Qed.

Section MeasureFacts.

Variable get_projector : vec -> mat.

Let build_parts := StateVector.build_parts get_projector.
Let projection := StateVector.projection get_projector.
Let outcome := StateVector.outcome get_projector.
Let outcomes := StateVector.outcomes get_projector.

Lemma build_parts_Err (em : mat) (parts : list mat)
    (rq : list (nat * Qubit)) (e : error) :
  build_parts em parts rq = Err e -> e = IndexError.
Proof.
  revert parts. induction rq as [| [r q] rq IH]; intros parts; simpl.
  - discriminate.
  - intros H. apply rbind_Err in H. destruct H as [H | [v [_ H]]].
    + eapply py_index_Err. exact H.
    + apply rbind_Err in H. destruct H as [H | [parts' [_ H]]].
      * eapply py_assign_Err. exact H.
      * eapply IH. exact H.
Qed.

(** On the qubits of the engine the inner loop of [measure] builds a list
    of as many matrices of two rows and two columns. *)
Lemma build_parts_Ok (em : mat) (parts : list mat)
    (rq : list (nat * Qubit)) :
  projector_ok get_projector -> basis_ok em ->
  Forall (shape 2 2) parts ->
  Forall (fun p => (fst p < 2)%nat /\ (index (snd p) < length parts)%nat) rq ->
  exists parts', build_parts em parts rq = Ok parts'
                 /\ Forall (shape 2 2) parts'
                 /\ length parts' = length parts.
Proof.
  intros Hp [Hem1 Hem2]. revert parts.
  induction rq as [| [r q] rq IH]; intros parts HF Hrq; simpl.
  - eauto.
  - inversion Hrq as [| ? ? [Hr Hq] Hrq']. subst. simpl in Hr, Hq.
    destruct (@py_index_lt _ em r) as [v Hv]; [lia |].
    rewrite Hv. simpl.
    assert (Hlv : length v = 2%nat).
    { apply py_index_Ok, nth_error_In in Hv.
      rewrite Forall_forall in Hem2. apply Hem2. exact Hv. }
    destruct (@py_assign_lt _ parts (index q) (get_projector v) Hq)
      as [parts' Hparts'].
    rewrite Hparts'. simpl.
    destruct (@py_assign_Ok _ (shape 2 2) _ _ _ _ Hparts' HF (Hp v Hlv))
      as [HF' Hlen].
    destruct (IH parts' HF') as (parts'' & H1 & H2 & H3).
    + rewrite Hlen. exact Hrq'.
    + exists parts''. repeat split; try assumption. congruence.
Qed.

Lemma projection_Err (self : StateVector.t) (em : mat) (qs : list Qubit)
    (res : list nat) (e : error) :
  projection self em qs res = Err e ->
  In e [IndexError; TypeError; ShapeError].
Proof.
  unfold projection, StateVector.projection. intros H.
  apply rbind_Err in H. destruct H as [H | [parts [_ H]]].
  - apply build_parts_Err in H. subst. simpl. auto.
  - apply rbind_Err in H. destruct H as [H | [a [_ H]]].
    + unfold StateVector.the_amp in H.
      destruct (StateVector.amp self); inversion H. simpl. auto.
    + apply rbind_Err in H. destruct H as [H | [projected [_ H]]].
      * apply np_dot_Err in H. subst. simpl. auto.
      * discriminate.
Qed.

(** In a well-formed call every outcome has a projected state, of the
    length of the amplitude vector, and a probability. *)
Lemma projection_Ok (self : StateVector.t) (em : mat) (qs : list Qubit)
    (res : list nat) :
  well_formed self -> projector_ok get_projector -> basis_ok em ->
  qubits_ok self qs ->
  Forall (fun b => (b < 2)%nat) res ->
  exists projected p,
    projection self em qs res = Ok (projected, p)
    /\ length projected = StateVector.n self.
Proof.
  intros (a & Ha & Hla & Hn) Hp Hem Hqs Hres.
  unfold projection, StateVector.projection.
  destruct (@build_parts_Ok em (repeat eye2 (StateVector.n_qubits self))
              (combine res qs) Hp Hem) as (parts & H1 & H2 & H3).
  - apply Forall_forall. intros m Hm. apply repeat_spec in Hm. subst.
    apply shape_eye2.
  - rewrite repeat_length. apply Forall_forall. intros [r q] Hin.
    simpl. split.
    + apply in_combine_l in Hin. rewrite Forall_forall in Hres.
      apply Hres. exact Hin.
    + apply in_combine_r in Hin. unfold qubits_ok in Hqs.
      rewrite Forall_forall in Hqs. apply Hqs. exact Hin.
  - fold build_parts. rewrite H1. cbn [rbind].
    unfold StateVector.the_amp. rewrite Ha. cbn [rbind].
    rewrite repeat_length in H3.
    pose proof (shape_kron H2) as Hk. rewrite H3 in Hk.
    rewrite (@np_dot_shape _ _ _ _ Hk Hla). cbn [rbind].
    eexists. eexists. split; [reflexivity |].
    rewrite length_map, Hn. exact (proj1 Hk).
Qed.

Lemma outcome_Err (self : StateVector.t) (em : mat) (qs : list Qubit)
    (res : list nat) (e : error) :
  outcome self em qs res = Err e ->
  (e = ComplexProbability
   /\ exists projected p,
        projection self em qs res = Ok (projected, p)
        /\ Rabs (Cim p) > 1 / 10 ^ 15)
  \/ (e <> ComplexProbability /\ In e [IndexError; TypeError; ShapeError]).
Proof.
  unfold outcome, StateVector.outcome. fold projection. intros H.
  apply rbind_Err in H. destruct H as [H | [[projected p] [Hproj H]]].
  - right. apply projection_Err in H. split; [| exact H].
    simpl in H. intuition (subst; discriminate).
  - apply rbind_Err in H. destruct H as [H | [row [_ H]]].
    + right. apply assign_row_Err in H. subst. split; [discriminate |].
      simpl. auto.
    + destruct (Rgt_dec (Rabs (Cim p)) (1 / 10 ^ 15)) as [Hgt | Hle];
        [| discriminate].
      inversion H. subst. left. split; [reflexivity |]. eauto.
Qed.

Lemma outcome_Ok (self : StateVector.t) (em : mat) (qs : list Qubit)
    (res : list nat) (row : vec) (pr : R) :
  outcome self em qs res = Ok (row, pr) ->
  exists projected p,
    projection self em qs res = Ok (projected, p)
    /\ StateVector.assign_row (StateVector.n self) projected = Ok row
    /\ ~ Rabs (Cim p) > 1 / 10 ^ 15
    /\ pr = Cre p.
Proof.
  unfold outcome, StateVector.outcome. fold projection. intros H.
  apply rbind_Ok in H. destruct H as [[projected p] [Hproj H]].
  apply rbind_Ok in H. destruct H as [row' [Hrow H]].
  destruct (Rgt_dec (Rabs (Cim p)) (1 / 10 ^ 15)) as [Hgt | Hle];
    [discriminate |].
  inversion H. subst. exists projected, p. auto.
Qed.

Lemma outcomes_Err (self : StateVector.t) (em : mat) (qs : list Qubit)
    (results : list (list nat)) (e : error) :
  outcomes self em qs results = Err e ->
  exists res, In res results /\ outcome self em qs res = Err e.
Proof.
  induction results as [| res rest IH]; simpl; [discriminate |].
  fold outcome. fold outcomes.
  destruct (outcome self em qs res) as [[row p] | e'] eqn:E; simpl.
  - destruct (outcomes self em qs rest) as [[rows ps] | e''] eqn:E';
      simpl; [discriminate |].
    intros H. inversion H. subst.
    destruct IH as [res' [Hin Hres']]; [reflexivity |]. eauto.
  - intros H. inversion H. subst. eauto.
Qed.

(** The loop fills [projections] and [probs] outcome by outcome. *)
Lemma outcomes_Ok (self : StateVector.t) (em : mat) (qs : list Qubit)
    (results : list (list nat)) (rows : list vec) (ps : list R) :
  outcomes self em qs results = Ok (rows, ps) ->
  length rows = length results
  /\ length ps = length results
  /\ forall i res, nth_error results i = Some res ->
       exists row p, nth_error rows i = Some row
                     /\ nth_error ps i = Some p
                     /\ outcome self em qs res = Ok (row, p).
Proof.
  revert rows ps. induction results as [| res rest IH]; intros rows ps;
    simpl.
  - intros H. inversion H. subst. repeat split.
    intros [| i] res'; discriminate.
  - fold outcome. fold outcomes.
    destruct (outcome self em qs res) as [[row p] | e'] eqn:E; simpl;
      [| discriminate].
    destruct (outcomes self em qs rest) as [[rows' ps'] | e''] eqn:E';
      simpl; [| discriminate].
    intros H. inversion H. subst.
    destruct (IH rows' ps' eq_refl) as (H1 & H2 & H3).
    simpl. repeat split; try congruence.
    intros [| i] res' Hres'; simpl in *.
    + inversion Hres'. subst. eauto.
    + apply H3. exact Hres'.
Qed.

Lemma outcomes_one_Err (self : StateVector.t) (em : mat) (qs : list Qubit)
    (results : list (list nat)) (e : error) :
  (forall res e', In res results -> outcome self em qs res = Err e' ->
                  e' = e) ->
  (exists res, In res results /\ outcome self em qs res = Err e) ->
  outcomes self em qs results = Err e.
Proof.
  induction results as [| res rest IH]; intros Hall [res' [Hin Hres']];
    simpl; [destruct Hin |].
  fold outcome. fold outcomes.
  destruct (outcome self em qs res) as [[row p] | e'] eqn:E; simpl.
  - destruct Hin as [<- | Hin]; [congruence |].
    rewrite IH; [reflexivity | |].
    + intros r e' Hr. apply Hall. right. exact Hr.
    + eauto.
  - f_equal. apply (Hall res); [left; reflexivity | exact E].
Qed.

End MeasureFacts.

Section MeasureLoop.

Variable get_projector : vec -> mat.
Variable random_choice : nat -> list R -> option nat.

Let projection := StateVector.projection get_projector.
Let outcome := StateVector.outcome get_projector.
Let outcomes := StateVector.outcomes get_projector.
Let sample := StateVector.sample get_projector random_choice.
Let measure := StateVector.measure get_projector random_choice.

(** Where [sample] can raise. *)
Lemma sample_Err (self : StateVector.t) (qs : list Qubit)
    (vals : option (list R)) (vecs : option mat) (e : error) :
  sample self qs vals vecs = Err e ->
  StateVector.eigenbasis vals vecs = Err e
  \/ (exists ev em,
        StateVector.eigenbasis vals vecs = Ok (ev, em)
        /\ outcomes self em qs (StateVector.product01 (length qs)) = Err e)
  \/ In e [ChoiceError; IndexError].
Proof.
  unfold sample, StateVector.sample. intros H.
  apply rbind_Err in H. destruct H as [H | [[ev em] [Hb H]]];
    [left; exact H |].
  right. fold outcomes in H.
  apply rbind_Err in H. destruct H as [H | [[rows ps] [_ H]]];
    [left; eauto |].
  right. apply rbind_Err in H. destruct H as [H | [i [_ H]]].
  - destruct (random_choice _ ps); inversion H. simpl. auto.
  - apply rbind_Err in H. destruct H as [H | [res [_ H]]].
    + apply py_index_Err in H. subst. simpl. auto.
    + apply rbind_Err in H. destruct H as [H | [result [_ H]]];
        [| discriminate].
      apply mapM_Err in H. destruct H as [b [_ H]].
      apply py_index_Err in H. subst. simpl. auto.
Qed.

(** What a successful [sample] has done. *)
Lemma sample_Ok (self : StateVector.t) (qs : list Qubit)
    (vals : option (list R)) (vecs : option mat)
    (result : list R) (projections : list vec) (i : nat) :
  sample self qs vals vecs = Ok (result, projections, i) ->
  exists ev em probs res,
    StateVector.eigenbasis vals vecs = Ok (ev, em)
    /\ outcomes self em qs (StateVector.product01 (length qs))
       = Ok (projections, probs)
    /\ random_choice (length (StateVector.product01 (length qs))) probs
       = Some i
    /\ nth_error (StateVector.product01 (length qs)) i = Some res
    /\ Forall2 (fun bit val => nth_error ev bit = Some val) res result.
Proof.
  unfold sample, StateVector.sample. intros H.
  apply rbind_Ok in H. destruct H as [[ev em] [Hb H]].
  fold outcomes in H.
  apply rbind_Ok in H. destruct H as [[rows ps] [Ho H]].
  apply rbind_Ok in H. destruct H as [j [Hj H]].
  apply rbind_Ok in H. destruct H as [res [Hres H]].
  apply rbind_Ok in H. destruct H as [result' [Hresult H]].
  inversion H. subst.
  exists ev, em, ps, res. repeat split; try assumption.
  - destruct (random_choice _ ps); inversion Hj. reflexivity.
  - apply py_index_Ok. exact Hres.
  - apply mapM_Ok in Hresult.
    eapply Forall2_impl; [| exact Hresult].
    intros bit val Hbv. apply py_index_Ok. exact Hbv.
Qed.

End MeasureLoop.

(** *** Shadow measurements *)

(** C10: a measurement with [shadow=True] leaves the engine as it was,
    amplitude vector and snapshot log included, whatever the snapshot flag
    is; the flag does not change the outcome of the call either, which is
    the list of eigenvalues [sample] returns or the exception it raises. *)
Theorem measure_shadow_frame (get_projector : vec -> mat)
    (random_choice : nat -> list R -> option nat) (self : StateVector.t)
    (q : StateVector.qubit_arg) (vals : option (list R)) (vecs : option mat)
    (snapshot : bool) :
  let call :=
    StateVector.measure get_projector random_choice self q vals vecs true in
  snd (call snapshot) = self
  /\ StateVector.amp (snd (call snapshot)) = StateVector.amp self
  /\ StateVector.snapshots (snd (call snapshot)) = StateVector.snapshots self
  /\ call snapshot = call (negb snapshot)
  /\ fst (call snapshot)
     = match StateVector.sample get_projector random_choice self
               (StateVector.as_list q) vals vecs with
       | Ok (result, _, _) => Ok result
       | Err e => Err e
       end.
Proof.
  intros call. unfold call, StateVector.measure.
  destruct (StateVector.sample get_projector random_choice self
              (StateVector.as_list q) vals vecs) as [[[result rows] i] | e];
    simpl; repeat split; reflexivity.
Qed.

(** *** The measurement basis *)

(** The missing-eigenvectors error has one source, the choice of the
    basis. *)
Lemma measure_Err_missing (get_projector : vec -> mat)
    (random_choice : nat -> list R -> option nat) (self : StateVector.t)
    (q : StateVector.qubit_arg) (vals : option (list R)) (vecs : option mat)
    (shadow snapshot : bool) :
  fst (StateVector.measure get_projector random_choice self q vals vecs
                           shadow snapshot) = Err MissingEigenvectors ->
  StateVector.eigenbasis vals vecs = Err MissingEigenvectors.
Proof.
  unfold StateVector.measure.
  destruct (StateVector.sample get_projector random_choice self
              (StateVector.as_list q) vals vecs)
    as [[[result rows] i] | e] eqn:E.
  - destruct shadow; simpl; [discriminate |].
    destruct snapshot.
    + destruct (StateVector.save_snapshot self) as [[[] | e] self'] eqn:Es.
      * destruct (py_index rows i) eqn:Ei; simpl; [discriminate |].
        intros H. inversion H. subst. apply py_index_Err in Ei. congruence.
      * simpl. intros H. inversion H. subst.
        apply save_snapshot_Err in Es. destruct Es as [_ Hin].
        simpl in Hin. intuition congruence.
    + destruct (py_index rows i) eqn:Ei; simpl; [discriminate |].
      intros H. inversion H. subst. apply py_index_Err in Ei. congruence.
  - simpl. intros H. inversion H. subst.
    apply sample_Err in E. destruct E as [E | [(ev & em & _ & E) | E]].
    + exact E.
    + apply outcomes_Err in E. destruct E as [res [_ E]].
      apply outcome_Err in E.
      destruct E as [[E _] | [_ E]]; [congruence |].
      simpl in E. intuition congruence.
    + simpl in E. intuition congruence.
Qed.

(** The guard of [measure], as the code has it: the call fails with the
    missing-eigenvectors error exactly when eigenvalues are passed without
    eigenvectors.  Eigenvectors passed without eigenvalues are dropped: the
    call is the call without a basis, which measures in the computational
    basis with the eigenvalues 0 and 1 and cannot raise that error. *)
Lemma measure_missing_eigenvectors (get_projector : vec -> mat)
    (random_choice : nat -> list R -> option nat) (self : StateVector.t)
    (q : StateVector.qubit_arg) (vals : option (list R)) (vecs : option mat)
    (shadow snapshot : bool) :
  let measure := StateVector.measure get_projector random_choice self q in
  (fst (measure vals vecs shadow snapshot) = Err MissingEigenvectors
   <-> vals <> None /\ vecs = None)
  /\ measure None vecs shadow snapshot = measure None None shadow snapshot
  /\ StateVector.eigenbasis None vecs = Ok ([0; 1], [ZERO; ONE])
  /\ fst (measure None vecs shadow snapshot) <> Err MissingEigenvectors.
Proof.
  intros measure. split; [split | split; [| split]].
  - intros H. apply measure_Err_missing in H.
    apply eigenbasis_Err in H. destruct H as (_ & H1 & H2). auto.
  - intros [Hv ->]. destruct vals as [vals |]; [reflexivity | congruence].
  - reflexivity.
  - reflexivity.
  - intros H. apply measure_Err_missing in H. discriminate H.
Qed.

(** *** Complex probabilities *)

(** The complex-probability error comes from the loop over the outcomes
    only, and the engine is then as it was. *)
Lemma measure_Err_complex (get_projector : vec -> mat)
    (random_choice : nat -> list R -> option nat) (self : StateVector.t)
    (q : StateVector.qubit_arg) (vals : option (list R)) (vecs : option mat)
    (shadow snapshot : bool) (self' : StateVector.t) :
  StateVector.measure get_projector random_choice self q vals vecs
                      shadow snapshot = (Err ComplexProbability, self') ->
  self' = self
  /\ exists ev em,
       StateVector.eigenbasis vals vecs = Ok (ev, em)
       /\ StateVector.outcomes get_projector self em (StateVector.as_list q)
            (StateVector.product01 (length (StateVector.as_list q)))
          = Err ComplexProbability.
Proof.
  unfold StateVector.measure.
  destruct (StateVector.sample get_projector random_choice self
              (StateVector.as_list q) vals vecs)
    as [[[result rows] i] | e] eqn:E.
  - destruct shadow; simpl; [discriminate |].
    destruct snapshot.
    + destruct (StateVector.save_snapshot self) as [[[] | e] self1] eqn:Es.
      * destruct (py_index rows i) eqn:Ei; simpl; [discriminate |].
        intros H. inversion H. subst. apply py_index_Err in Ei. congruence.
      * simpl. intros H. inversion H. subst.
        apply save_snapshot_Err in Es. destruct Es as [_ Hin].
        simpl in Hin. intuition congruence.
    + destruct (py_index rows i) eqn:Ei; simpl; [discriminate |].
      intros H. inversion H. subst. apply py_index_Err in Ei. congruence.
  - intros H. inversion H. subst. split; [reflexivity |].
    apply sample_Err in E. destruct E as [E | [E | E]].
    + apply eigenbasis_Err in E. destruct E as [E _]. discriminate E.
    + exact E.
    + simpl in E. intuition congruence.
Qed.

(** An outcome whose projected state fits the row of [projections] passes
    the check of its probability or raises the complex-probability
    error. *)
Lemma outcome_cases (get_projector : vec -> mat) (self : StateVector.t)
    (em : mat) (qs : list Qubit) (res : list nat) (projected : vec) (p : C) :
  StateVector.projection get_projector self em qs res = Ok (projected, p) ->
  length projected = StateVector.n self ->
  StateVector.outcome get_projector self em qs res
  = if Rgt_dec (Rabs (Cim p)) (1 / 10 ^ 15) then Err ComplexProbability
    else Ok (projected, Cre p).
Proof.
  intros Hp Hlen. unfold StateVector.outcome. rewrite Hp. cbn [rbind].
  rewrite <- Hlen, assign_row_same. reflexivity.
Qed.

(** C7: in a well-formed call of [measure] every one of the 2^k outcomes
    has a probability; the call fails with the complex-probability error
    exactly when one of them has an imaginary part above 1e-15 in absolute
    value, it then leaves the engine as it was, and it does so whatever the
    source of randomness would have drawn. *)
Theorem measure_complex_probability (get_projector : vec -> mat)
    (random_choice : nat -> list R -> option nat) (self : StateVector.t)
    (q : StateVector.qubit_arg) (vals : option (list R)) (vecs : option mat)
    (shadow snapshot : bool) (ev : list R) (em : mat)
    (Hself : well_formed self)
    (Hproj : projector_ok get_projector)
    (Hbasis : StateVector.eigenbasis vals vecs = Ok (ev, em))
    (Hem : basis_ok em)
    (Hqs : qubits_ok self (StateVector.as_list q)) :
  let qs := StateVector.as_list q in
  let results := StateVector.product01 (length qs) in
  let complex res :=
    exists projected p,
      StateVector.projection get_projector self em qs res = Ok (projected, p)
      /\ Rabs (Cim p) > 1 / 10 ^ 15 in
  length results = (2 ^ length qs)%nat
  /\ (forall res, In res results ->
        exists projected p,
          StateVector.projection get_projector self em qs res
          = Ok (projected, p))
  /\ ((exists res, In res results /\ complex res)
      <-> fst (StateVector.measure get_projector random_choice self q
                 vals vecs shadow snapshot) = Err ComplexProbability)
  /\ ((exists res, In res results /\ complex res) ->
      forall choice,
        StateVector.measure get_projector choice self q vals vecs
                            shadow snapshot = (Err ComplexProbability, self)).
Proof.
  intros qs results complex.
  assert (Hall : forall res, In res results ->
            exists projected p,
              StateVector.projection get_projector self em qs res
              = Ok (projected, p)
              /\ length projected = StateVector.n self).
  { intros res Hin. apply projection_Ok; try assumption.
    apply (product01_bits _ _ Hin). }
  assert (Hraise : (exists res, In res results /\ complex res) ->
            StateVector.outcomes get_projector self em qs results
            = Err ComplexProbability).
  { intros (res & Hin & projected & p & Hp & Hgt).
    apply outcomes_one_Err.
    - intros r e' Hr He'.
      destruct (Hall r Hr) as (pr & pp & Hpr & Hlen).
      rewrite (outcome_cases _ _ _ _ _ Hpr Hlen) in He'.
      destruct (Rgt_dec (Rabs (Cim pp)) (1 / 10 ^ 15));
        inversion He'; reflexivity.
    - exists res. split; [exact Hin |].
      destruct (Hall res Hin) as (pr & pp & Hpr & Hlen).
      rewrite (outcome_cases _ _ _ _ _ Hpr Hlen).
      rewrite Hp in Hpr. inversion Hpr. subst.
      destruct (Rgt_dec (Rabs (Cim pp)) (1 / 10 ^ 15));
        [reflexivity | contradiction]. }
  assert (Hfail : (exists res, In res results /\ complex res) ->
            forall choice,
              StateVector.measure get_projector choice self q vals vecs
                                  shadow snapshot
              = (Err ComplexProbability, self)).
  { intros Hex choice. unfold StateVector.measure, StateVector.sample.
    rewrite Hbasis. cbn [rbind]. fold qs. fold results.
    rewrite (Hraise Hex). reflexivity. }
  split; [apply length_product01 |].
  split; [intros res Hin; destruct (Hall res Hin) as (pr & pp & H & _); eauto |].
  split; [| exact Hfail].
  split.
  - intros Hex. rewrite (Hfail Hex). reflexivity.
  - intros H.
    destruct (StateVector.measure get_projector random_choice self q
                vals vecs shadow snapshot) as [r self'] eqn:Em.
    simpl in H. subst r.
    apply measure_Err_complex in Em.
    destruct Em as (_ & ev' & em' & Hb' & Ho).
    rewrite Hbasis in Hb'. inversion Hb'. subst ev' em'.
    apply outcomes_Err in Ho. destruct Ho as (res & Hin & Ho).
    exists res. split; [exact Hin |].
    apply outcome_Err in Ho. destruct Ho as [[_ Ho] | [Ho _]];
      [exact Ho | congruence].
Qed.

Lemma shape_outer (v : vec) : length v = 2%nat -> shape 2 2 (outer v).
Proof.
  intros H. unfold outer. split.
  - rewrite length_map. exact H.
  - apply Forall_forall. intros row Hin. apply in_map_iff in Hin.
    destruct Hin as [a [<- _]]. rewrite length_map. exact H.
Qed.

(** [measure_complex_probability] at a measurement of the state (3/5, 4/5)
    in the basis (1, i), (1, -i), with projectors built without
    conjugation: the first outcome has the probability -7/25 + 24/25 i. *)
Lemma measure_complex_probability_witness :
  fst (StateVector.measure outer first_nonzero engine_34
         (StateVector.One (mkBit 0)) (Some EIGVALS) (Some y_basis)
         false true) = Err ComplexProbability.
Proof.
  assert (Hself : well_formed engine_34).
  { eexists. repeat split. }
  assert (Hem : basis_ok (np_T y_basis)).
  { split; [simpl; lia | repeat constructor]. }
  assert (Hqs : qubits_ok engine_34
                  (StateVector.as_list (StateVector.One (mkBit 0)))).
  { repeat constructor. }
  destruct (@measure_complex_probability outer first_nonzero engine_34
              (StateVector.One (mkBit 0)) (Some EIGVALS) (Some y_basis)
              false true EIGVALS (np_T y_basis) Hself shape_outer eq_refl
              Hem Hqs)
    as (_ & _ & [H _] & _).
  apply H. exists [0%nat]. split; [left; reflexivity |].
  eexists. eexists. split; [reflexivity |].
  cbn.
  match goal with
  | |- Rabs ?x > _ => replace x with (24 / 25) by field
  end.
  rewrite Rabs_right by lra. lra.
Defined.

(** *** Collapse *)

Lemma initialised_well_formed (self : StateVector.t) (qs0 : list Qubit)
    (a : vec) :
  initialised self qs0 a -> well_formed self.
Proof.
  intros (_ & Hn & Hd & Ha & Hl & _). exists a. rewrite Hn. auto.
Qed.

Lemma save_snapshot_Ok (self : StateVector.t) (qs0 : list Qubit) (a : vec) :
  initialised self qs0 a ->
  StateVector.save_snapshot self
  = (Ok tt,
     StateVector.with_snapshots self
       (StateVector.snapshots self ++ [snapshot_of self qs0 a])).
Proof.
  intros (Hq & Hn & Hd & Ha & Hl & Hr).
  unfold StateVector.save_snapshot, StateVector.new,
    StateVector.set_qubits, StateVector.set.
  rewrite Hq, Ha. cbn [StateVector.n StateVector.n_qubits].
  rewrite Hl, Nat.eqb_refl. cbn [negb].
  destruct (Req_EM_T (np_round (norm a) 10) 1) as [_ | H];
    [reflexivity | contradiction].
Qed.

Lemma outcomes_real (get_projector : vec -> mat) (self : StateVector.t)
    (em : mat) (qs : list Qubit) (results : list (list nat)) :
  (forall res, In res results ->
     exists projected p,
       StateVector.projection get_projector self em qs res = Ok (projected, p)
       /\ length projected = StateVector.n self
       /\ Rabs (Cim p) <= 1 / 10 ^ 15) ->
  StateVector.outcomes get_projector self em qs results
  = Ok (map (fun res =>
               match StateVector.projection get_projector self em qs res with
               | Ok (projected, _) => projected
               | Err _ => []
               end) results,
        map (fun res =>
               match StateVector.projection get_projector self em qs res with
               | Ok (_, p) => Cre p
               | Err _ => 0
               end) results).
Proof.
  induction results as [| res rest IH]; intros H; [reflexivity |].
  cbn [StateVector.outcomes map].
  destruct (H res) as (projected & p & Hp & Hlen & Hre); [left; reflexivity |].
  rewrite (outcome_cases _ _ _ _ _ Hp Hlen), Hp.
  destruct (Rgt_dec (Rabs (Cim p)) (1 / 10 ^ 15)) as [Hgt | _]; [lra |].
  cbn [rbind]. rewrite IH; [reflexivity |].
  intros r Hr. apply H. right. exact Hr.
Qed.

Lemma mapM_py_index (ev : list R) (res : list nat) :
  Forall (fun b => (b < length ev)%nat) res ->
  mapM (py_index ev) res = Ok (map (fun bit => nth bit ev 0) res).
Proof.
  induction 1 as [| b res Hb _ IH]; [reflexivity |].
  cbn [mapM map]. rewrite IH. unfold py_index.
  destruct (nth_error ev b) as [x |] eqn:E.
  - rewrite (nth_error_nth _ _ _ E). reflexivity.
  - apply nth_error_None in E. lia.
Qed.

(** The factors the inner loop of [measure] leaves in [parts]. *)
Lemma find_snoc {A} (f : A -> bool) (l : list A) (x : A) :
  find f (l ++ [x])
  = match find f l with
    | Some y => Some y
    | None => if f x then Some x else None
    end.
Proof.
  induction l as [| y l IH]; simpl.
  - destruct (f x); reflexivity.
  - destruct (f y); [reflexivity | exact IH].
Qed.

Lemma build_parts_nth (get_projector : vec -> mat) (em : mat)
    (rq : list (nat * Qubit)) (parts parts' : list mat) :
  StateVector.build_parts get_projector em parts rq = Ok parts' ->
  length parts' = length parts
  /\ forall k,
       nth k parts' []
       = match find (fun p => Nat.eqb (index (snd p)) k) (rev rq) with
         | Some (r, _) => get_projector (nth r em [])
         | None => nth k parts []
         end.
Proof.
  revert parts. induction rq as [| [r q] rq IH]; intros parts H.
  - cbn in H. inversion H. subst. split; reflexivity.
  - cbn [StateVector.build_parts] in H.
    apply rbind_Ok in H. destruct H as (v & Hv & H).
    apply rbind_Ok in H. destruct H as (parts1 & H1 & H).
    apply IH in H. destruct H as (Hlen & Hnth).
    apply py_assign_nth_error in H1. destruct H1 as (Hlen1 & Hnth1).
    split; [congruence |].
    intros k. rewrite Hnth. cbn [rev]. rewrite find_snoc. cbn [snd].
    destruct (find (fun p => Nat.eqb (index (snd p)) k) (rev rq))
      as [[r' q'] |]; [reflexivity |].
    apply py_index_Ok in Hv.
    destruct (Nat.eqb (index q) k) eqn:E.
    + apply Nat.eqb_eq in E. subst k.
      assert (Hq : nth_error parts1 (index q) = Some (get_projector v))
        by (rewrite Hnth1, Nat.eqb_refl; reflexivity).
      rewrite (nth_error_nth _ _ _ Hq), (nth_error_nth _ _ _ Hv).
      reflexivity.
    + assert (Hk : nth_error parts1 k = nth_error parts k).
      { rewrite Hnth1. rewrite Nat.eqb_sym, E. reflexivity. }
      destruct (nth_error parts k) as [m |] eqn:Em.
      * rewrite (nth_error_nth _ _ _ Hk), (nth_error_nth _ _ _ Em).
        reflexivity.
      * rewrite !nth_overflow; [reflexivity | |].
        -- apply nth_error_None. exact Em.
        -- apply nth_error_None. exact Hk.
Qed.

(** The projected state is the product of the tensor product of these
    factors with the amplitude vector. *)
Lemma projection_explicit (get_projector : vec -> mat)
    (self : StateVector.t) (em : mat) (qs : list Qubit) (res : list nat)
    (projected : vec) (p : C) :
  StateVector.projection get_projector self em qs res = Ok (projected, p) ->
  exists parts a,
    length parts = StateVector.n_qubits self
    /\ (forall k, (k < StateVector.n_qubits self)%nat ->
          nth k parts [] = part_of get_projector em res qs k)
    /\ StateVector.amp self = Some a
    /\ projected = map (fun row => vdot row a) (kron parts)
    /\ p = vdot (vconj a) projected.
Proof.
  unfold StateVector.projection. intros H.
  apply rbind_Ok in H. destruct H as (parts & Hparts & H).
  apply rbind_Ok in H. destruct H as (a & Ha & H).
  apply rbind_Ok in H. destruct H as (pr & Hdot & H).
  inversion H. subst pr p. clear H.
  apply build_parts_nth in Hparts. destruct Hparts as (Hlen & Hnth).
  rewrite repeat_length in Hlen.
  exists parts, a. split; [exact Hlen |]. split; [| split; [| split]].
  - intros k Hk. rewrite Hnth. unfold part_of.
    destruct (find (fun rq => Nat.eqb (index (snd rq)) k)
                   (rev (combine res qs))) as [[r q] |]; [reflexivity |].
    apply nth_repeat_lt. exact Hk.
  - unfold StateVector.the_amp in Ha.
    destruct (StateVector.amp self); inversion Ha. reflexivity.
  - unfold np_dot in Hdot.
    destruct (forallb _ (kron parts)); inversion Hdot. reflexivity.
  - reflexivity.
Qed.

(** What a collapsing measurement of an initialised engine returns and
    writes, in terms of [projection]. *)
Lemma measure_projects (get_projector : vec -> mat)
    (random_choice : nat -> list R -> option nat) (self : StateVector.t)
    (q : StateVector.qubit_arg) (vals : option (list R)) (vecs : option mat)
    (snapshot : bool) (qs0 : list Qubit) (a : vec) (ev : list R) (em : mat)
    (i : nat) (res : list nat)
    (Hself : initialised self qs0 a)
    (Hproj : projector_ok get_projector)
    (Hbasis : StateVector.eigenbasis vals vecs = Ok (ev, em))
    (Hem : basis_ok em)
    (Hev : (2 <= length ev)%nat)
    (Hqs : qubits_ok self (StateVector.as_list q))
    (Hreal : forall r projected p,
        In r (StateVector.product01 (length (StateVector.as_list q))) ->
        StateVector.projection get_projector self em (StateVector.as_list q) r
        = Ok (projected, p) ->
        Rabs (Cim p) <= 1 / 10 ^ 15)
    (Hdraw : random_choice (2 ^ length (StateVector.as_list q))%nat
               (probabilities get_projector self em (StateVector.as_list q))
             = Some i)
    (Hres : nth_error (StateVector.product01 (length (StateVector.as_list q))) i
            = Some res) :
  exists projected p,
    StateVector.projection get_projector self em (StateVector.as_list q) res
    = Ok (projected, p)
    /\ StateVector.measure get_projector random_choice self q vals vecs
         false snapshot
       = (Ok (map (fun bit => nth bit ev 0) res),
          StateVector.mk (StateVector.n_qubits self) (StateVector.n self)
            (StateVector.qubits self) (StateVector.basis self)
            (Some (vdiv projected (norm projected)))
            (StateVector.snapshots self
               ++ if snapshot then [snapshot_of self qs0 a] else []))
    /\ StateVector.amp (snapshot_of self qs0 a) = Some (vdiv a (norm a))
    /\ (norm a = 1 -> StateVector.amp (snapshot_of self qs0 a) = Some a).
Proof.
  set (qs := StateVector.as_list q) in *.
  set (results := StateVector.product01 (length qs)) in *.
  pose proof (initialised_well_formed Hself) as Hwf.
  assert (Hin : In res results) by (eapply nth_error_In; exact Hres).
  destruct (product01_bits _ _ Hin) as [_ Hbits].
  assert (Hall : forall r, In r results ->
            exists projected p,
              StateVector.projection get_projector self em qs r
              = Ok (projected, p)
              /\ length projected = StateVector.n self
              /\ Rabs (Cim p) <= 1 / 10 ^ 15).
  { intros r Hr.
    destruct (@projection_Ok get_projector self em qs r) as (pr & p & Hp & Hl);
      try assumption.
    - apply (product01_bits _ _ Hr).
    - exists pr, p. repeat split; try assumption.
      eapply Hreal; eassumption. }
  destruct (Hall res Hin) as (projected & p & Hp & Hlen & _).
  exists projected, p. split; [exact Hp |]. split; [| split].
  - unfold StateVector.measure, StateVector.sample. fold qs. fold results.
    rewrite Hbasis. cbn [rbind].
    rewrite (outcomes_real _ _ _ _ _ Hall). cbn [rbind].
    unfold results at 1. rewrite length_product01.
    unfold probabilities in Hdraw. fold qs in Hdraw. fold results in Hdraw.
    rewrite Hdraw. cbn [rbind].
    apply py_index_Ok in Hres. rewrite Hres. cbn [rbind].
    rewrite mapM_py_index
      by (eapply Forall_impl; [| exact Hbits]; simpl; intros; lia).
    cbn [rbind negb].
    match goal with
    | |- context [py_index ?rows i] =>
        assert (Hrow : py_index rows i = Ok projected)
    end.
    { apply py_index_Ok. apply py_index_Ok in Hres.
      rewrite nth_error_map, Hres. simpl. rewrite Hp. reflexivity. }
    destruct snapshot.
    + rewrite (save_snapshot_Ok Hself), Hrow. reflexivity.
    + rewrite Hrow, app_nil_r. reflexivity.
  - reflexivity.
  - intros Hn. simpl. rewrite Hn, vdiv_1. reflexivity.
Qed.

(** C2: a collapsing measurement ([shadow=False]) of an initialised engine,
    in a well-formed call whose probabilities are real and in which numpy
    draws the outcome [res] of index [i].
    - The projected state of the outcome is the product of a matrix with
      the amplitude vector [a] before the measurement; the matrix is the
      tensor product of one factor for every qubit of the engine: the
      projector of the eigenvector the outcome selects at the measured
      qubits, the identity elsewhere.
    - With the snapshot flag set, the snapshot built from the engine
      before the measurement is appended to the log; its amplitude vector
      is [a] divided by the norm of [a], which is [a] itself when that
      norm is one.
    - The amplitude vector becomes the projected state, every entry
      divided by the norm of the projected state: a vector of norm one
      unless the projected state is zero.
    - The call returns the eigenvalues the bits of [res] select, not the
      bits. *)
Theorem measure_collapse (get_projector : vec -> mat)
    (random_choice : nat -> list R -> option nat) (self : StateVector.t)
    (q : StateVector.qubit_arg) (vals : option (list R)) (vecs : option mat)
    (snapshot : bool) (qs0 : list Qubit) (a : vec) (ev : list R) (em : mat)
    (i : nat) (res : list nat)
    (Hself : initialised self qs0 a)
    (Hproj : projector_ok get_projector)
    (Hbasis : StateVector.eigenbasis vals vecs = Ok (ev, em))
    (Hem : basis_ok em)
    (Hev : (2 <= length ev)%nat)
    (Hqs : qubits_ok self (StateVector.as_list q))
    (Hreal : forall r projected p,
        In r (StateVector.product01 (length (StateVector.as_list q))) ->
        StateVector.projection get_projector self em (StateVector.as_list q) r
        = Ok (projected, p) ->
        Rabs (Cim p) <= 1 / 10 ^ 15)
    (Hdraw : random_choice (2 ^ length (StateVector.as_list q))%nat
               (probabilities get_projector self em (StateVector.as_list q))
             = Some i)
    (Hres : nth_error (StateVector.product01 (length (StateVector.as_list q))) i
            = Some res) :
  exists parts projected p,
    StateVector.projection get_projector self em (StateVector.as_list q) res
    = Ok (projected, p)
    /\ length parts = StateVector.n_qubits self
    /\ (forall k, (k < StateVector.n_qubits self)%nat ->
          nth k parts []
          = part_of get_projector em res (StateVector.as_list q) k)
    /\ projected = map (fun row => vdot row a) (kron parts)
    /\ length projected = StateVector.n self
    /\ StateVector.measure get_projector random_choice self q vals vecs
         false snapshot
       = (Ok (map (fun bit => nth bit ev 0) res),
          StateVector.mk (StateVector.n_qubits self) (StateVector.n self)
            (StateVector.qubits self) (StateVector.basis self)
            (Some (map (fun z => (fst z / norm projected,
                                  snd z / norm projected)) projected))
            (StateVector.snapshots self
               ++ if snapshot then [snapshot_of self qs0 a] else []))
    /\ (norm projected <> 0 ->
        norm (map (fun z => (fst z / norm projected,
                             snd z / norm projected)) projected) = 1)
    /\ StateVector.amp (snapshot_of self qs0 a)
       = Some (map (fun z => (fst z / norm a, snd z / norm a)) a)
    /\ (norm a = 1 -> StateVector.amp (snapshot_of self qs0 a) = Some a).
Proof.
  destruct (@measure_projects get_projector random_choice self q vals vecs
              snapshot qs0 a ev em i res Hself Hproj Hbasis Hem Hev Hqs
              Hreal Hdraw Hres)
    as (projected & p & Hp & Hm & Hs & Hs1).
  destruct (projection_explicit _ _ _ _ _ Hp)
    as (parts & a' & Hlen & Hparts & Ha & Hpr & _).
  assert (a' = a).
  { destruct Hself as (_ & _ & _ & Hamp & _). congruence. }
  subst a'.
  assert (Hin : In res (StateVector.product01
                          (length (StateVector.as_list q))))
    by (eapply nth_error_In; exact Hres).
  destruct (@projection_Ok get_projector self em (StateVector.as_list q) res
              (initialised_well_formed Hself) Hproj Hem Hqs
              (proj2 (product01_bits _ _ Hin)))
    as (projected' & p' & Hp' & Hl).
  assert (projected' = projected) by congruence. subst projected'.
  exists parts, projected, p.
  split; [exact Hp |]. split; [exact Hlen |]. split; [exact Hparts |].
  split; [exact Hpr |]. split; [exact Hl |]. split; [exact Hm |].
  split; [apply norm_vdiv |]. split; [exact Hs | exact Hs1].
Qed.

Lemma initialised_engine1 : initialised engine1 [mkBit 0] (zero_state 1).
Proof.
  repeat split. rewrite norm_zero_state. apply (np_round_IZR 1 10).
Qed.

Lemma norm_engine_34 : norm [RtoC (3 / 5); RtoC (4 / 5)] = 1.
Proof.
  unfold norm. cbn [map Rsum fold_right]. unfold Cabs2, RtoC. cbn [fst snd].
  replace (3 / 5 * (3 / 5) + 0 * 0 + (4 / 5 * (4 / 5) + 0 * 0 + 0))
    with (1 * 1) by field.
  apply sqrt_square. lra.
Qed.

Lemma initialised_engine_34 :
  initialised engine_34 [mkBit 0] [RtoC (3 / 5); RtoC (4 / 5)].
Proof.
  repeat split. rewrite norm_engine_34. apply (np_round_IZR 1 10).
Qed.

(** The two outcomes of a measurement of the state (3/5, 4/5) in the
    computational basis. *)
Lemma projection_engine_34 :
  StateVector.projection ket_bra engine_34 [ZERO; ONE] [mkBit 0] [0%nat]
  = Ok ([RtoC (3 / 5); RtoC 0], RtoC (9 / 25))
  /\ StateVector.projection ket_bra engine_34 [ZERO; ONE] [mkBit 0] [1%nat]
     = Ok ([RtoC 0; RtoC (4 / 5)], RtoC (16 / 25)).
Proof.
  split; cbn; unfold Cadd, Cmul, Cconj, RtoC; cbn [fst snd];
    (f_equal; f_equal; [f_equal; [| f_equal] |]); apply C_eq; field.
Qed.

Lemma norm_0_45 : norm [RtoC 0; RtoC (4 / 5)] = 4 / 5.
Proof.
  unfold norm. cbn [map Rsum fold_right]. unfold Cabs2, RtoC. cbn [fst snd].
  replace (0 * 0 + 0 * 0 + (4 / 5 * (4 / 5) + 0 * 0 + 0))
    with (4 / 5 * (4 / 5)) by field.
  apply sqrt_square. lra.
Qed.

(** [measure_collapse] at a measurement of the state (3/5, 4/5) with the
    eigenvalues 1 and -1 of the computational basis, numpy drawing the
    second outcome: the call returns the eigenvalue -1, not the bit 1, the
    state becomes (0, 1), and the log holds the state before. *)
Lemma measure_collapse_witness :
  exists self',
    StateVector.measure ket_bra draw_second engine_34
      (StateVector.One (mkBit 0)) (Some EIGVALS) (Some eye2) false true
    = (Ok [-1], self')
    /\ StateVector.amp self' = Some [RtoC 0; RtoC 1]
    /\ map StateVector.amp (StateVector.snapshots self')
       = [Some [RtoC (3 / 5); RtoC (4 / 5)]].
Proof.
  assert (Hem : basis_ok [ZERO; ONE]).
  { split; [simpl; lia | repeat constructor]. }
  assert (Hqs : qubits_ok engine_34
                  (StateVector.as_list (StateVector.One (mkBit 0)))).
  { repeat constructor. }
  assert (Hreal : forall r projected p,
             In r (StateVector.product01
                     (length (StateVector.as_list
                                (StateVector.One (mkBit 0))))) ->
             StateVector.projection ket_bra engine_34 [ZERO; ONE]
               (StateVector.as_list (StateVector.One (mkBit 0))) r
             = Ok (projected, p) ->
             Rabs (Cim p) <= 1 / 10 ^ 15).
  { intros r projected p Hin Hp.
    assert (H0 : Cim p = 0).
    { destruct projection_engine_34 as (E0 & E1).
      cbn in Hin. cbn [StateVector.as_list] in Hp.
      destruct Hin as [<- | [<- | []]];
        [pose proof (eq_trans (eq_sym Hp) E0) as H
        | pose proof (eq_trans (eq_sym Hp) E1) as H];
        inversion H; reflexivity. }
    rewrite H0, Rabs_R0.
    apply Rlt_le, Rdiv_lt_0_compat; [lra | apply pow_lt; lra]. }
  destruct (@measure_collapse ket_bra draw_second engine_34
              (StateVector.One (mkBit 0)) (Some EIGVALS) (Some eye2) true
              [mkBit 0] [RtoC (3 / 5); RtoC (4 / 5)] EIGVALS [ZERO; ONE]
              1%nat [1%nat]
              initialised_engine_34 shape_ket_bra eq_refl Hem (le_n 2) Hqs
              Hreal eq_refl eq_refl)
    as (parts & projected & p & Hp & _ & _ & _ & _ & Hm & _ & _ & Hsnap).
  pose proof (eq_trans (eq_sym Hp) (proj2 projection_engine_34)) as Hpr.
  inversion Hpr. subst projected p. clear Hpr.
  eexists. split; [exact Hm |]. split.
  - cbn [StateVector.amp map]. rewrite norm_0_45.
    unfold RtoC. cbn [fst snd].
    replace (0 / (4 / 5)) with 0 by field.
    replace (4 / 5 / (4 / 5)) with 1 by field.
    reflexivity.
  - transitivity
      [StateVector.amp
         (snapshot_of engine_34 [mkBit 0] [RtoC (3 / 5); RtoC (4 / 5)])];
      [reflexivity |].
    rewrite (Hsnap norm_engine_34). reflexivity.
Defined.

(** *** Eigenvectors without eigenvalues *)

(** The two outcomes of a measurement of the state |0> in the
    computational basis. *)
Lemma projection_engine1 :
  StateVector.projection ket_bra engine1 [ZERO; ONE] [mkBit 0] [0%nat]
  = Ok ([RtoC 1; RtoC 0], RtoC 1)
  /\ StateVector.projection ket_bra engine1 [ZERO; ONE] [mkBit 0] [1%nat]
     = Ok ([RtoC 0; RtoC 0], RtoC 0).
Proof.
  split; cbn; unfold Cadd, Cmul, Cconj, RtoC; cbn [fst snd];
    (f_equal; f_equal; [f_equal; [| f_equal] |]); apply C_eq; ring.
Qed.

(** C8 fails on the code.  [measure] guards one half of the pair only:
    eigenvalues passed without eigenvectors raise the missing-eigenvectors
    error, but eigenvectors passed without eigenvalues are dropped without
    an error and the call is the call without a basis, which measures in
    the computational basis, although [eigvecs] is documented as the
    eigenvectors of the basis in which is measured.  On the state |0> with
    the eigenvectors (1, 1) and (1, -1) passed alone, [measure] returns
    the bit 0 and leaves the state |0>, which is no eigenvector of that
    basis. *)
Theorem measure_eigenvectors_alone_accepted :
  (forall (get_projector : vec -> mat)
          (random_choice : nat -> list R -> option nat)
          (self : StateVector.t) (q : StateVector.qubit_arg) (vecs : mat)
          (shadow snapshot : bool),
     StateVector.measure get_projector random_choice self q None (Some vecs)
       shadow snapshot
     = StateVector.measure get_projector random_choice self q None None
         shadow snapshot
     /\ fst (StateVector.measure get_projector random_choice self q None
               (Some vecs) shadow snapshot) <> Err MissingEigenvectors)
  /\ (forall (get_projector : vec -> mat)
             (random_choice : nat -> list R -> option nat)
             (self : StateVector.t) (q : StateVector.qubit_arg)
             (vals : list R) (shadow snapshot : bool),
        StateVector.measure get_projector random_choice self q (Some vals)
          None shadow snapshot
        = (Err MissingEigenvectors, self))
  /\ StateVector.measure ket_bra first_nonzero engine1
       (StateVector.One (mkBit 0)) None (Some plus_minus) false false
     = (Ok [0], engine1).
Proof.
  split; [| split].
  - intros get_projector random_choice self q vecs shadow snapshot.
    split; [reflexivity |].
    intros H. apply measure_Err_missing in H. discriminate H.
  - reflexivity.
  - destruct projection_engine1 as (E0 & E1).
    assert (Hem : basis_ok [ZERO; ONE]).
    { split; [simpl; lia | repeat constructor]. }
    assert (Hqs : qubits_ok engine1
                    (StateVector.as_list (StateVector.One (mkBit 0)))).
    { repeat constructor. }
    assert (Hreal : forall r projected p,
               In r (StateVector.product01
                       (length (StateVector.as_list
                                  (StateVector.One (mkBit 0))))) ->
               StateVector.projection ket_bra engine1 [ZERO; ONE]
                 (StateVector.as_list (StateVector.One (mkBit 0))) r
               = Ok (projected, p) ->
               Rabs (Cim p) <= 1 / 10 ^ 15).
    { intros r projected p Hin Hp.
      assert (H0 : Cim p = 0).
      { cbn in Hin. cbn [StateVector.as_list] in Hp.
        destruct Hin as [<- | [<- | []]];
          [pose proof (eq_trans (eq_sym Hp) E0) as H
          | pose proof (eq_trans (eq_sym Hp) E1) as H];
          inversion H; reflexivity. }
      rewrite H0, Rabs_R0.
      apply Rlt_le, Rdiv_lt_0_compat; [lra | apply pow_lt; lra]. }
    assert (Hdraw :
              first_nonzero
                (2 ^ length (StateVector.as_list (StateVector.One (mkBit 0))))
                (probabilities ket_bra engine1 [ZERO; ONE]
                   (StateVector.as_list (StateVector.One (mkBit 0))))
              = Some 0%nat).
    { unfold probabilities.
      cbn [StateVector.as_list length StateVector.product01 flat_map map app].
      change (StateVector.projection ket_bra engine1 [ZERO; ONE] [mkBit 0]
                [0%nat])
        with (StateVector.projection ket_bra engine1 [ZERO; ONE] [mkBit 0]
                [0%nat]).
      rewrite E0. cbn [first_nonzero Cre RtoC fst].
      destruct (Req_EM_T 1 0) as [H | _]; [lra | reflexivity]. }
    destruct (@measure_projects ket_bra first_nonzero engine1
                (StateVector.One (mkBit 0)) None (Some plus_minus) false
                [mkBit 0] (zero_state 1) [0; 1] [ZERO; ONE] 0%nat [0%nat]
                initialised_engine1 shape_ket_bra eq_refl Hem (le_n 2) Hqs
                Hreal Hdraw eq_refl)
      as (projected & p & Hp & Hm & _).
    pose proof (eq_trans (eq_sym Hp) E0) as Hpr.
    inversion Hpr. subst projected p. clear Hpr.
    rewrite Hm.
    change [RtoC 1; RtoC 0] with (zero_state 1).
    rewrite norm_zero_state, vdiv_1. reflexivity.
Qed.

(** ** [StateVector.density_matrix] *)

(** The imaginary unit has the square -1 and the squared modulus 1. *)
Lemma Ci_squares : Cmul Ci Ci = RtoC (-1) /\ Cmul Ci (Cconj Ci) = RtoC 1.
Proof. unfold Cmul, Cconj, Ci, RtoC. simpl. split; apply C_eq; ring. Qed.

(** C5 fails on the code: [density_matrix] multiplies the amplitudes without
    conjugating the second one.  For the state i |1>, of norm one, the entry
    (1, 1) it returns is i * i = -1, where the outer product of the state
    with its adjoint has i * conj(i) = 1; the entries of [density_matrix]
    are amp[i] * amp[j] for every state. *)
Theorem density_matrix_not_conjugated :
  norm [RtoC 0; Ci] = 1
  /\ (exists entry,
        (m <- StateVector.density_matrix engine_i ;;
         row <- py_index m 1 ;; py_index row 1)%result = Ok entry
        /\ entry = RtoC (-1)
        /\ entry <> Cmul Ci (Cconj Ci))
  /\ forall k d qs b a snaps,
       StateVector.density_matrix (StateVector.mk k d qs b (Some a) snaps)
       = Ok (map (fun x => map (fun y => Cmul x y) a) a).
Proof.
  split; [| split].
  - unfold norm. simpl.
    replace (Cabs2 (RtoC 0) + (Cabs2 Ci + 0)) with 1
      by (unfold Cabs2, RtoC, Ci; simpl; ring).
    apply sqrt_1.
  - exists (Cmul Ci Ci). destruct Ci_squares as [H1 H2].
    split; [reflexivity |]. split; [exact H1 |].
    rewrite H1, H2. unfold RtoC. intros H. inversion H. lra.
  - reflexivity.
Qed.

(** ** Shared parameters *)

Lemma mapM_py_index_total {A} (pool : list A) (l : list nat) :
  Forall (fun p => (p < length pool)%nat) l ->
  exists xs, mapM (py_index pool) l = Ok xs
             /\ forall k p, nth_error l k = Some p ->
                            nth_error xs k = nth_error pool p.
Proof.
  induction 1 as [| p l Hp _ (xs & Hxs & Hnth)].
  - exists []. split; [reflexivity |]. intros [| k] p; discriminate.
  - destruct (@py_index_lt _ pool p Hp) as [x Hx].
    exists (x :: xs). cbn [mapM]. rewrite Hx, Hxs. split; [reflexivity |].
    intros [| k] p' Hk; simpl in *.
    + inversion Hk. subst. symmetry. apply py_index_Ok. exact Hx.
    + apply Hnth. exact Hk.
Qed.

(** C6: two instructions whose entries of the parameter store hold the same
    pool position [p], at the arguments [k1] and [k2].  After [set(vs)],
    for a list [vs] that covers the positions of both entries and has the
    value [theta] at [p] (after [set([theta])]: [p = 0]), both arguments are
    [theta], and the entries themselves are what they were. *)
Theorem set_changes_linked_arguments (V : Type) (w : Instruction.world V)
    (g1 g2 : Instruction.t) (l1 l2 : list nat) (k1 k2 p : nat)
    (vs : list V) (theta : V)
    (H1 : Instruction.argidx w g1 = Ok (Some (ParameterMap.Positions l1)))
    (H2 : Instruction.argidx w g2 = Ok (Some (ParameterMap.Positions l2)))
    (Hk1 : nth_error l1 k1 = Some p)
    (Hk2 : nth_error l2 k2 = Some p)
    (Hl1 : Forall (fun x => (x < length vs)%nat) l1)
    (Hl2 : Forall (fun x => (x < length vs)%nat) l2)
    (Hp : nth_error vs p = Some theta) :
  let w' :=
    Instruction.mkWorld (Instruction.INDEX w)
                        (ParameterMap.set (Instruction.pmap w) vs) in
  Instruction.get_arg w' g1 k1 = Ok (Some theta)
  /\ Instruction.get_arg w' g2 k2 = Ok (Some theta)
  /\ Instruction.argidx w' g1 = Instruction.argidx w g1
  /\ Instruction.argidx w' g2 = Instruction.argidx w g2
  /\ ParameterMap.params (Instruction.pmap w') = vs.
Proof.
  intros w'.
  assert (Hget : forall g l k,
            Instruction.argidx w g = Ok (Some (ParameterMap.Positions l)) ->
            nth_error l k = Some p ->
            Forall (fun x => (x < length vs)%nat) l ->
            Instruction.get_arg w' g k = Ok (Some theta)).
  { intros g l k Hg Hk Hl.
    unfold Instruction.get_arg, Instruction.args, ParameterMap.get.
    unfold Instruction.argidx in Hg. cbn [w' Instruction.pmap
      ParameterMap.set ParameterMap.indices ParameterMap.params].
    rewrite Hg. cbn [rbind].
    destruct (@mapM_py_index_total _ vs l Hl) as (xs & Hxs & Hnth).
    rewrite Hxs. cbn [rbind].
    assert (Hx : py_index xs k = Ok theta).
    { apply py_index_Ok. rewrite (Hnth k p Hk). exact Hp. }
    rewrite Hx. reflexivity. }
  repeat split.
  - apply (Hget g1 l1 k1); assumption.
  - apply (Hget g2 l2 k2); assumption.
Qed.

(** [set_changes_linked_arguments] at two rotations, the second linked to
    the pool position 0 of the first, after [set([1/2])]. *)
Lemma set_changes_linked_arguments_witness :
  let w0 := Instruction.mkWorld 0 (ParameterMap.empty R) in
  exists g1 g2 w1 w2,
    Instruction.Gate w0 "Rx" (Some [Some (mkBit 0)]) None
      (Some (ParameterMap.Scalar 1)) None 1 1 = (Ok g1, w1)
    /\ Instruction.Gate w1 "Ry" (Some [Some (mkBit 1)]) None
         (Some (ParameterMap.Scalar 2)) (Some (ParameterMap.Position 0)) 1 1
       = (Ok g2, w2)
    /\ let w' :=
         Instruction.mkWorld (Instruction.INDEX w2)
           (ParameterMap.set (Instruction.pmap w2) [1 / 2]) in
       Instruction.get_arg w' g1 0 = Ok (Some (1 / 2))
       /\ Instruction.get_arg w' g2 0 = Ok (Some (1 / 2)).
Proof.
  intros w0. do 4 eexists. split; [reflexivity |]. split; [reflexivity |].
  intros w'.
  match goal with
  | |- Instruction.get_arg _ ?g1 _ = _ /\ Instruction.get_arg _ ?g2 _ = _ =>
      destruct (@set_changes_linked_arguments R
                  (Instruction.mkWorld 2
                     (ParameterMap.mk
                        [Some (ParameterMap.Positions [0%nat]);
                         Some (ParameterMap.Positions [0%nat])]
                        [1; 2]))
                  g1 g2 [0%nat] [0%nat] 0%nat 0%nat 0%nat [1 / 2] (1 / 2)
                  eq_refl eq_refl eq_refl eq_refl
                  (Forall_cons 0%nat (le_n 1) (Forall_nil _))
                  (Forall_cons 0%nat (le_n 1) (Forall_nil _))
                  eq_refl)
        as (Ha & Hb & _)
  end.
  split; [exact Ha | exact Hb].
Defined.

(** ** [Gate.build_matrix] and the names of controlled gates *)

(** C9 fails on the code: [build_matrix] removes every letter c from the
    name of a controlled gate, not the prefix [Gate.__init__] has put in
    front of it.  The gate registered as ["sc"], controlled by qubit 0 on
    qubit 1, is named ["csc"] and is built from the matrix of ["s"], which
    is another matrix; the gate registered as ["dec"] is named ["cdec"] and
    is looked up as ["de"], which raises [KeyError], although the same gate
    without control is built from its own matrix. *)
Theorem build_matrix_strips_every_c (V : Type)
    (cgate : list nat -> nat -> mat -> nat -> nat -> mat)
    (single_gate : list nat -> list mat -> nat -> mat) :
  let w0 := Instruction.mkWorld 0 (ParameterMap.empty V) in
  let q0 := Some (mkBit 0) in
  let q1 := Some (mkBit 1) in
  (exists g w,
     Instruction.Gate w0 "sc" (Some [q1]) (Some [q0]) None None 1 1
     = (Ok g, w)
     /\ Instruction.name g = "csc"%string
     /\ Gate.build_matrix (dict_s_sc V) cgate single_gate w g 2
        = Ok (cgate [0%nat] 1%nat s_matrix 2%nat 1%nat)
     /\ Gate._get_gatefunc (dict_s_sc V) "sc"
        = Ok (Gate.Unary (fun _ => sdg_matrix))
     /\ s_matrix <> sdg_matrix)
  /\ (exists g w,
        Instruction.Gate w0 "dec" (Some [q1]) (Some [q0]) None None 1 1
        = (Ok g, w)
        /\ Instruction.name g = "cdec"%string
        /\ Gate.build_matrix (dict_dec V) cgate single_gate w g 2
           = Err (KeyError "de"))
  /\ (exists g w,
        Instruction.Gate w0 "dec" (Some [q1]) None None None 1 1 = (Ok g, w)
        /\ Gate.build_matrix (dict_dec V) cgate single_gate w g 2
           = Ok (single_gate [1%nat] [sdg_matrix] 2%nat)).
Proof.
  intros w0 q0 q1. split; [| split].
  - do 2 eexists. split; [reflexivity |]. split; [reflexivity |].
    split; [reflexivity |]. split; [reflexivity |].
    unfold s_matrix, sdg_matrix, Ci, Cconj, RtoC. simpl.
    intros H. inversion H. lra.
  - do 2 eexists. split; [reflexivity |]. split; reflexivity.
  - do 2 eexists. split; reflexivity.
Qed.

(** ** The text format of circuits *)

Section RoundTrip.

Variable V : Type.
Variable repr : V -> string.
Variable float_of_str : string -> result V.

(** C1 fails on the code.  For the circuit [c.h(0); c.cx(0, 1);
    c.m([0], [1])], [to_string] gives the text above and [from_string]
    reads a circuit from it, which differs from the first in two places:
    the controlled gate is named ["ccX"], because [from_string] passes
    the printed name ["cX"] to [Gate], which prefixes it again; the
    measurement writes to the classical bit 0, because [from_string]
    reads the classical bits from the field [qbits]. *)
Theorem round_trip_changes_names_and_clbits :
  exists c w c' w',
    bell_measured V = (Ok c, w)
    /\ Circuit.to_string repr w c "; " = Ok bell_measured_text
    /\ Circuit.from_string float_of_str w bell_measured_text "; "
       = (Ok c', w')
    /\ map (described w) (Circuit.instructions c)
       = [("H"%string, Ok (Some [0%nat]), Ok None, Ok None, Ok None);
          ("cX"%string, Ok (Some [1%nat]), Ok (Some [0%nat]), Ok None,
           Ok None);
          ("m"%string, Ok (Some [0%nat]), Ok None, Ok (Some [1%nat]),
           Ok None)]
    /\ map (described w') (Circuit.instructions c')
       = [("H"%string, Ok (Some [0%nat]), Ok None, Ok None, Ok None);
          ("ccX"%string, Ok (Some [1%nat]), Ok (Some [0%nat]), Ok None,
           Ok None);
          ("m"%string, Ok (Some [0%nat]), Ok None, Ok (Some [0%nat]),
           Ok None)]
    /\ map (described w') (Circuit.instructions c')
       <> map (described w) (Circuit.instructions c).
Proof.
  do 4 eexists.
  split; [vm_compute; reflexivity |].
  split; [vm_compute; reflexivity |].
  split; [vm_compute; reflexivity |].
  split; [vm_compute; reflexivity |].
  split; [vm_compute; reflexivity |].
  vm_compute. discriminate.
Qed.

End RoundTrip.

(** ** The invariant of the engine: a vector of norm one *)

(** The complex numbers form a ring, for the [ring] tactic. *)
Lemma C_ring_theory :
  ring_theory (RtoC 0) (RtoC 1) Cadd Cmul Csub Copp (@eq C).
Proof.
  constructor; intros; unfold Csub, Copp, Cadd, Cmul, RtoC;
    repeat match goal with z : C |- _ => destruct z end; simpl;
    try reflexivity; apply C_eq; ring.
Qed.

Add Ring C_ring : C_ring_theory.

Lemma Csumn_ext (k : nat) (f g : nat -> C) :
  (forall i, (i < k)%nat -> f i = g i) -> Csumn k f = Csumn k g.
Proof.
  induction k as [| k IH]; intros H; simpl; [reflexivity |].
  rewrite IH, H by (intros; auto with arith). reflexivity.
Qed.

Lemma Csumn_add (k : nat) (f g : nat -> C) :
  Csumn k (fun i => Cadd (f i) (g i)) = Cadd (Csumn k f) (Csumn k g).
Proof. induction k as [| k IH]; simpl; [| rewrite IH]; ring. Qed.

Lemma Csumn_scale_l (k : nat) (c : C) (f : nat -> C) :
  Cmul c (Csumn k f) = Csumn k (fun i => Cmul c (f i)).
Proof. induction k as [| k IH]; simpl; [| rewrite <- IH]; ring. Qed.

Lemma Csumn_scale_r (k : nat) (c : C) (f : nat -> C) :
  Cmul (Csumn k f) c = Csumn k (fun i => Cmul (f i) c).
Proof. induction k as [| k IH]; simpl; [| rewrite <- IH]; ring. Qed.

Lemma Cconj_add (z w : C) : Cconj (Cadd z w) = Cadd (Cconj z) (Cconj w).
Proof. destruct z, w. unfold Cconj, Cadd. simpl. apply C_eq; ring. Qed.

Lemma Cconj_mul (z w : C) : Cconj (Cmul z w) = Cmul (Cconj z) (Cconj w).
Proof. destruct z, w. unfold Cconj, Cmul. simpl. apply C_eq; ring. Qed.

Lemma Csumn_conj (k : nat) (f : nat -> C) :
  Cconj (Csumn k f) = Csumn k (fun i => Cconj (f i)).
Proof.
  induction k as [| k IH]; simpl.
  - unfold Cconj, RtoC. simpl. apply C_eq; ring.
  - rewrite Cconj_add, IH. reflexivity.
Qed.

Lemma Csumn_zero (k : nat) : Csumn k (fun _ => RtoC 0) = RtoC 0.
Proof. induction k as [| k IH]; simpl; [| rewrite IH]; ring. Qed.

Lemma Csumn_swap (k m : nat) (f : nat -> nat -> C) :
  Csumn k (fun i => Csumn m (fun j => f i j))
  = Csumn m (fun j => Csumn k (fun i => f i j)).
Proof.
  induction k as [| k IH]; simpl.
  - rewrite Csumn_zero. reflexivity.
  - rewrite IH, <- Csumn_add. reflexivity.
Qed.

Lemma Csumn_delta (k j : nat) (g : nat -> C) :
  (j < k)%nat ->
  Csumn k (fun i => Cmul (g i) (if Nat.eqb j i then RtoC 1 else RtoC 0)) = g j.
Proof.
  induction k as [| k IH]; intros Hj; [lia |]. simpl.
  destruct (Nat.eqb_spec j k) as [-> | Hne].
  - rewrite (@Csumn_ext k _ (fun _ => RtoC 0)).
    + rewrite Csumn_zero. ring.
    + intros i Hi. destruct (Nat.eqb_spec k i); [lia | ring].
  - rewrite IH by lia. ring.
Qed.

Lemma Csumn_shift (k : nat) (f : nat -> C) :
  Csumn (S k) f = Cadd (f 0%nat) (Csumn k (fun i => f (S i))).
Proof.
  induction k as [| k IH]; [simpl; ring |].
  change (Csumn (S (S k)) f) with (Cadd (Csumn (S k) f) (f (S k))).
  rewrite IH. simpl. ring.
Qed.

Lemma vdot_Csumn (u v : vec) :
  length u = length v ->
  vdot u v = Csumn (length u) (fun j => Cmul (nth j u (RtoC 0)) (nth j v (RtoC 0))).
Proof.
  revert v. induction u as [| x u IH]; intros [| y v] H; try discriminate.
  - reflexivity.
  - simpl in H. injection H as H.
    change (length (x :: u)) with (S (length u)).
    rewrite Csumn_shift. simpl nth.
    rewrite <- (IH v H). reflexivity.
Qed.

Lemma Cconj_0 : Cconj (RtoC 0) = RtoC 0.
Proof. unfold Cconj, RtoC. simpl. apply C_eq; ring. Qed.

Lemma nth_vconj (v : vec) (i : nat) :
  nth i (vconj v) (RtoC 0) = Cconj (nth i v (RtoC 0)).
Proof.
  unfold vconj. rewrite <- Cconj_0 at 1. apply map_nth.
Qed.

Lemma inner_Csumn (v : vec) :
  vdot (vconj v) v
  = Csumn (length v)
      (fun i => Cmul (Cconj (nth i v (RtoC 0))) (nth i v (RtoC 0))).
Proof.
  rewrite vdot_Csumn by (unfold vconj; apply length_map).
  unfold vconj at 1. rewrite length_map.
  apply Csumn_ext. intros i _. rewrite nth_vconj. reflexivity.
Qed.

Lemma inner_self (v : vec) : vdot (vconj v) v = RtoC (Rsum (map Cabs2 v)).
Proof.
  induction v as [| [a b] v IH]; [reflexivity |].
  change (vdot (vconj ((a, b) :: v)) ((a, b) :: v))
    with (Cadd (Cmul (Cconj (a, b)) (a, b)) (vdot (vconj v) v)).
  rewrite IH. unfold Cadd, Cmul, Cconj, RtoC, Cabs2. simpl.
  apply C_eq; ring.
Qed.

Lemma np_dot_entry (d : nat) (u : mat) (a : vec) (i : nat) :
  shape d d u -> length a = d -> (i < d)%nat ->
  nth i (map (fun row => vdot row a) u) (RtoC 0)
  = Csumn d (fun j => Cmul (entry u i j) (nth j a (RtoC 0))).
Proof.
  intros [Hr Hc] Ha Hi.
  change (RtoC 0) with (vdot [] a) at 1.
  rewrite (map_nth (fun row => vdot row a)).
  assert (Hrow : length (nth i u []) = d).
  { rewrite Forall_forall in Hc. apply Hc. apply nth_In. lia. }
  rewrite vdot_Csumn by (rewrite Ha; exact Hrow). rewrite Hrow. reflexivity.
Qed.

(** A unitary matrix preserves the inner product of a vector with
    itself. *)
Lemma unitary_inner (d : nat) (u : mat) (a : vec) :
  unitary d u -> length a = d ->
  vdot (vconj (map (fun row => vdot row a) u)) (map (fun row => vdot row a) u)
  = vdot (vconj a) a.
Proof.
  intros [Hs Hu] Ha.
  rewrite !inner_Csumn, length_map, (proj1 Hs), Ha.
  set (U := entry u). set (x := fun j => nth j a (RtoC 0)).
  transitivity
    (Csumn d (fun i =>
       Csumn d (fun j => Csumn d (fun k =>
         Cmul (Cmul (Cconj (x j)) (x k))
              (Cmul (Cconj (U i j)) (U i k)))))).
  { apply Csumn_ext. intros i Hi.
    rewrite (@np_dot_entry d u a i Hs Ha Hi). fold U. fold x.
    rewrite Csumn_conj, Csumn_scale_r.
    apply Csumn_ext. intros j _.
    rewrite Csumn_scale_l. apply Csumn_ext. intros k _.
    rewrite Cconj_mul. unfold x. cbv beta. ring. }
  rewrite Csumn_swap.
  apply Csumn_ext. intros j Hj.
  rewrite Csumn_swap.
  transitivity
    (Csumn d (fun k =>
       Cmul (Cmul (Cconj (x j)) (x k))
            (if Nat.eqb j k then RtoC 1 else RtoC 0))).
  { apply Csumn_ext. intros k Hk.
    rewrite <- Csumn_scale_l. unfold U. rewrite (Hu j k Hj Hk). reflexivity. }
  rewrite (@Csumn_delta d j (fun k => Cmul (Cconj (x j)) (x k)) Hj).
  reflexivity.
Qed.

(** A unitary matrix preserves the norm. *)
Lemma unitary_norm (d : nat) (u : mat) (a : vec) :
  unitary d u -> length a = d ->
  norm (map (fun row => vdot row a) u) = norm a.
Proof.
  intros Hu Ha. unfold norm. f_equal.
  pose proof (@unitary_inner d u a Hu Ha) as H.
  rewrite !inner_self in H. unfold RtoC in H. inversion H. reflexivity.
Qed.

Lemma norm_nil : norm [] = 0.
Proof. unfold norm. simpl. apply sqrt_0. Qed.

Lemma Cabs2_zero (z : C) : Cabs2 z = 0 -> z = RtoC 0.
Proof.
  destruct z as [a b]. unfold Cabs2, RtoC. simpl. intros H.
  apply C_eq; nra.
Qed.

(** A vector whose squared entries sum to zero is orthogonal to every
    vector. *)
Lemma vdot_zero_r (u v : vec) :
  Rsum (map Cabs2 v) = 0 -> vdot u v = RtoC 0.
Proof.
  revert u. induction v as [| z v IH]; intros u H.
  - destruct u; reflexivity.
  - destruct u as [| x u]; [reflexivity |].
    simpl in H.
    pose proof (Cabs2_nonneg z) as Hz.
    pose proof (Rsum_Cabs2_nonneg v) as Hv.
    assert (Hz0 : Cabs2 z = 0) by lra.
    assert (Hv0 : Rsum (map Cabs2 v) = 0) by lra.
    change (vdot (x :: u) (z :: v)) with (Cadd (Cmul x z) (vdot u v)).
    rewrite (IH u Hv0), (@Cabs2_zero z Hz0). ring.
Qed.

Lemma norm_neq_0 (v : vec) : Rsum (map Cabs2 v) <> 0 -> norm v <> 0.
Proof.
  intros H Hn. apply H. rewrite <- norm_sqr, Hn. ring.
Qed.

Lemma Rsum_Cabs2_repeat (z : C) (k : nat) :
  Rsum (map Cabs2 (repeat z k)) = INR k * Cabs2 z.
Proof.
  induction k as [| k IH]; [simpl; ring |].
  change (repeat z (S k)) with (z :: repeat z k).
  rewrite map_cons, Rsum_cons, IH, S_INR. ring.
Qed.

(** The row [measure] keeps for an outcome of non-zero probability has a
    non-zero norm. *)
Lemma assign_row_norm (width : nat) (a projected row : vec) :
  (0 < width)%nat ->
  StateVector.assign_row width projected = Ok row ->
  Cre (vdot (vconj a) projected) <> 0 ->
  norm row <> 0.
Proof.
  intros Hw Hrow Hp.
  assert (Hs : Rsum (map Cabs2 projected) <> 0).
  { intros H0. apply Hp. rewrite (@vdot_zero_r (vconj a) projected H0).
    reflexivity. }
  apply norm_neq_0. unfold StateVector.assign_row in Hrow.
  destruct (Nat.eqb (length projected) width).
  - inversion Hrow. subst. exact Hs.
  - destruct projected as [| z [| z' v]]; inversion Hrow. subst.
    rewrite Rsum_Cabs2_repeat. simpl in Hs.
    assert (Hz : Cabs2 z <> 0) by lra.
    pose proof (Cabs2_nonneg z).
    assert (Hk : 0 < INR width) by (apply lt_0_INR; exact Hw).
    nra.
Qed.

Lemma projection_inv (get_projector : vec -> mat) (self : StateVector.t)
    (em : mat) (qs : list Qubit) (res : list nat) (projected : vec) (p : C) :
  StateVector.projection get_projector self em qs res = Ok (projected, p) ->
  exists a, StateVector.amp self = Some a
            /\ p = vdot (vconj a) projected.
Proof.
  unfold StateVector.projection. intros H.
  apply rbind_Ok in H. destruct H as [parts [_ H]].
  apply rbind_Ok in H. destruct H as [a [Ha H]].
  apply rbind_Ok in H. destruct H as [pr [_ H]].
  inversion H. subst. exists a. split; [| reflexivity].
  unfold StateVector.the_amp in Ha.
  destruct (StateVector.amp self); inversion Ha. reflexivity.
Qed.

Lemma save_snapshot_inv (self self' : StateVector.t) :
  StateVector.save_snapshot self = (Ok tt, self') ->
  exists l, self' = StateVector.with_snapshots self l.
Proof.
  unfold StateVector.save_snapshot.
  destruct (StateVector.qubits self) as [qs |]; [| discriminate].
  destruct (StateVector.new qs (StateVector.basis self)
              (StateVector.amp self)) as [s | e]; [| discriminate].
  intros H. inversion H. eauto.
Qed.

Lemma set_normalised (self : StateVector.t) (a : option vec) :
  match StateVector.set self a with
  | (Ok _, self') => normalised self'
  | (Err _, self') => self' = self
  end.
Proof.
  unfold StateVector.set.
  set (state := match a with
                | Some v => v
                | None => kron_vec (repeat ZERO (StateVector.n_qubits self))
                end).
  destruct (Nat.eqb_spec (length state) (StateVector.n self)) as [Hl | Hl];
    simpl negb; cbv iota; [| reflexivity].
  destruct (Req_EM_T (np_round (norm state) 10) 1) as [Hr | Hr];
    [| reflexivity].
  exists (vdiv state (norm state)). split; [reflexivity |].
  split; [rewrite length_vdiv; exact Hl |].
  apply norm_vdiv. apply np_round_one_pos in Hr. lra.
Qed.

Lemma apply_unitary_normalised (self : StateVector.t) (u : mat) :
  normalised self -> unitary (StateVector.n self) u ->
  exists self', StateVector.apply_unitary self u = (Ok tt, self')
                /\ normalised self'.
Proof.
  intros (a & Ha & Hl & Hn) Hu.
  unfold StateVector.apply_unitary, StateVector.the_amp. rewrite Ha.
  cbn [rbind]. rewrite (@np_dot_shape _ _ u a (proj1 Hu) Hl).
  eexists. split; [reflexivity |].
  exists (map (fun row => vdot row a) u). split; [reflexivity |].
  split.
  - rewrite length_map. exact (proj1 (proj1 Hu)).
  - rewrite (@unitary_norm _ u a Hu Hl). exact Hn.
Qed.

Lemma measure_normalised (get_projector : vec -> mat)
    (random_choice : nat -> list R -> option nat)
    (self : StateVector.t) (q : StateVector.qubit_arg)
    (vals : option (list R)) (vecs : option mat) (shadow snapshot : bool) :
  (forall k probs i, random_choice k probs = Some i -> nth i probs 0 <> 0) ->
  normalised self ->
  match StateVector.measure get_projector random_choice self q vals vecs
                            shadow snapshot with
  | (Ok _, self') => normalised self'
  | (Err _, self') => self' = self
  end.
Proof.
  intros Hdraw Hself. unfold StateVector.measure.
  destruct (StateVector.sample get_projector random_choice self
              (StateVector.as_list q) vals vecs)
    as [[[result rows] i] | e] eqn:E; [| reflexivity].
  destruct shadow; cbn [negb]; [exact Hself |].
  apply sample_Ok in E.
  destruct E as (ev & em & probs & res & _ & Ho & Hi & Hres & _).
  apply outcomes_Ok in Ho. destruct Ho as (_ & _ & Ho).
  destruct (Ho i res Hres) as (row & pr & Hrow & Hpr & Hout).
  apply outcome_Ok in Hout.
  destruct Hout as (projected & p & Hproj & Hassign & _ & ->).
  apply projection_inv in Hproj. destruct Hproj as (a' & Ha' & ->).
  destruct Hself as (a & Ha & Hl & Hn).
  assert (Hw : (0 < StateVector.n self)%nat).
  { rewrite <- Hl. destruct a; [| simpl; lia].
    rewrite norm_nil in Hn. lra. }
  assert (Hp : Cre (vdot (vconj a') projected) <> 0).
  { rewrite <- (nth_error_nth _ _ 0 Hpr). apply (Hdraw _ _ _ Hi). }
  pose proof (@assign_row_norm _ a' _ _ Hw Hassign Hp) as Hnorm.
  pose proof (@assign_row_length _ _ _ Hassign) as Hlen.
  assert (Hindex : py_index rows i = Ok row) by (apply py_index_Ok; exact Hrow).
  assert (Hfinal : forall self1, StateVector.n self1 = StateVector.n self ->
            normalised (StateVector.with_amp self1 (vdiv row (norm row)))).
  { intros self1 H1. exists (vdiv row (norm row)).
    split; [reflexivity |]. split.
    - rewrite length_vdiv. simpl. congruence.
    - apply norm_vdiv. exact Hnorm. }
  destruct snapshot.
  - destruct (StateVector.save_snapshot self) as [[[] | e] self1] eqn:Es.
    + rewrite Hindex. apply Hfinal.
      apply save_snapshot_inv in Es. destruct Es as [l ->]. reflexivity.
    + apply save_snapshot_Err in Es. exact (proj1 Es).
  - rewrite Hindex. apply Hfinal. reflexivity.
Qed.

Lemma first_nonzero_draw (k : nat) (probs : list R) (i : nat) :
  first_nonzero k probs = Some i -> nth i probs 0 <> 0.
Proof.
  revert i. induction probs as [| p probs IH]; intros i; simpl;
    [discriminate |].
  destruct (Req_EM_T p 0) as [Hp | Hp].
  - destruct (first_nonzero k probs) as [j |]; [| discriminate].
    intros H. inversion H. subst. apply IH. reflexivity.
  - intros H. inversion H. subst. exact Hp.
Qed.

Lemma normalised_engine1 : normalised engine1.
Proof.
  exists (zero_state 1). repeat split. apply norm_zero_state.
Qed.

Lemma set_qubits_normalised (self : StateVector.t) (qs : list Qubit)
    (b : option Basis) (a : option vec) :
  match StateVector.set_qubits self qs b a with
  | (Ok _, self') => normalised self'
  | (Err _, self') =>
      StateVector.amp self' = StateVector.amp self
      /\ StateVector.snapshots self' = StateVector.snapshots self
  end.
Proof.
  unfold StateVector.set_qubits.
  match goal with
  | |- context [StateVector.set ?s a] =>
      pose proof (set_normalised s a) as H;
      destruct (StateVector.set s a) as [[[] | e] self']
  end.
  - exact H.
  - subst self'. split; reflexivity.
Qed.

Lemma unitary_pauli_x : unitary 2 pauli_x.
Proof.
  split; [split; [reflexivity | repeat constructor] |].
  intros [| [| j]] [| [| k]] Hj Hk; try lia;
    unfold pauli_x, entry; simpl; unfold Cadd, Cmul, Cconj, RtoC; simpl;
    apply C_eq; ring.
Qed.

(** * Further code of the repository *)

(** ** [visuals.py]: the blocks of the text picture of a circuit *)

Local Open Scope string_scope.

(** [s[:k]] and [s[k:]] for a non-negative [k]. *)
Fixpoint str_take (k : nat) (s : string) : string :=
  match k, s with
  | S k', String c s' => String c (str_take k' s')
  | _, _ => EmptyString
  end.

Fixpoint str_drop (k : nat) (s : string) : string :=
  match k, s with
  | S k', String _ s' => str_drop k' s'
  | _, _ => s
  end.

(** [f"{s:{fill}^{width}}"]: [s] centred in a field of [width] characters;
    of an odd number of fill characters the right side gets one more; a
    string that is longer than the field is left as it is. *)
Definition center (fill : ascii) (width : nat) (s : string) : string :=
  let pad := (width - String.length s)%nat in
  let left := (pad / 2)%nat in
  repeat_char fill left ++ s ++ repeat_char fill (pad - left).

Module Visuals.

(** [state_block(val=0)], for a non-negative [val]. *)
Definition state_block (val : nat) : list string :=
  let state := "|" ++ str_of_nat val ++ ">--" in
  let space := repeat_char " " (String.length state) in
  [space; state; space].

(** [gate_block(name, width=11)] *)
Definition gate_block (name : string) (width : nat) : list string :=
  let gate := "| " ++ name ++ " |" in
  let line := "+" ++ repeat_char "-" (String.length gate - 2) ++ "+" in
  let gate := center "-" width gate in
  let line := center " " width line in
  [line; gate; line].

(** [empty_block(width=11)] *)
Definition empty_block (width : nat) : list string :=
  let empty := repeat_char " " width in
  let line := repeat_char "-" width in
  [empty; line; empty].

(** The two loops of [add_layer], over the lines that are left:
    [strings[i] += line; i += 1].  The list is changed in place, so what
    the rounds before an [IndexError] have written stays. *)
Fixpoint add_lines (strings : list string) (i : nat) (lines : list string)
    : result unit * list string :=
  match lines with
  | [] => (Ok tt, strings)
  | line :: rest =>
      match nth_error strings i with
      | None => (Err IndexError, strings)
      | Some s =>
          match py_assign strings i (s ++ line) with
          | Err e => (Err e, strings)
          | Ok strings' => add_lines strings' (S i) rest
          end
      end
  end.

(** [add_layer(strings, layer)]: the outcome and the list [strings] after
    the call. *)
Definition add_layer (strings : list string) (layer : list (list string))
    : result unit * list string :=
  add_lines strings 0 (List.concat layer).

(** The first loop of [build_string], over the layers that are left. *)
Fixpoint add_layers (strings : list string)
    (layers : list (list (list string))) : result (list string) :=
  match layers with
  | [] => Ok strings
  | layer :: rest =>
      match add_layer strings layer with
      | (Err e, _) => Err e
      | (Ok _, strings') => add_layers strings' rest
      end
  end.

(** The lines [build_string] joins. *)
Definition build_lines (layers : list (list (list string))) (n : nat)
    (width : option nat) : result (list string) :=
  (strings <- add_layers (repeat " " (3 * n)) layers ;;
   Ok match width with
      | None => strings
      | Some w => map (str_take w) strings
      end)%result.

(** [build_string(layers, n, width=None)] *)
Definition build_string (layers : list (list (list string))) (n : nat)
    (width : option nat) : result string :=
  (strings <- build_lines layers n width ;;
   Ok (join (String (ascii_of_nat 10) "") strings))%result.

(** [set_char(string, idx, char)] for a non-negative [idx]. *)
Definition set_char (s : string) (idx : nat) (char : string) : string :=
  str_take idx s ++ char ++ str_drop (idx + 1) s.

(** [abs(i - j)] on non-negative numbers. *)
Definition distance (i j : nat) : nat := ((i - j) + (j - i))%nat.

(** [int(np.argmax(l))] from the position [i] on: the first position of the
    greatest entry, [best] at [at] so far. *)
Fixpoint argmax_from (l : list nat) (i at_ best : nat) : nat :=
  match l with
  | [] => at_
  | x :: rest =>
      if (best <? x)%nat then argmax_from rest (S i) i x
      else argmax_from rest (S i) at_ best
  end.

(** [int(np.argmax(l))]: [ValueError] for an empty list. *)
Definition argmax (l : list nat) : result nat :=
  match l with
  | [] => Err ShapeError
  | x :: rest => Ok (argmax_from rest 1 0 x)
  end.

(** [list(product(l1, l2))] *)
Definition product (l1 l2 : list nat) : list (nat * nat) :=
  flat_map (fun i => map (fun j => (i, j)) l2) l1.

(** [outer_indices(indices1, indices2)] *)
Definition outer_indices (indices1 indices2 : list nat)
    : result (nat * nat) :=
  (let combinations := product indices1 indices2 in
   idx <- argmax (map (fun c => distance (fst c) (snd c)) combinations) ;;
   py_index combinations idx)%result.

(** [inner_indices(n, indices1, indices2)] *)
Definition inner_indices (n : nat) (indices1 indices2 : list nat)
    : result (list nat) :=
  ('(a, b) <- outer_indices indices1 indices2 ;;
   let o1 := Nat.min a b in
   let o2 := Nat.max a b in
   Ok (filter (fun i => (o1 <? i)%nat && (i <? o2)%nat) (seq 0 n)))%result.

(** [centered(s1, s2, s3, pad=1)] *)
Definition centered (s1 s2 s3 : string) (pad : nat) : list string :=
  let width := (String.length s1 + pad * 2)%nat in
  [center " " width s1; center "-" width s2; center " " width s3].

End Visuals.

(** *** Properties of the blocks *)

Local Open Scope nat_scope.

Lemma str_length_app (a b : string) :
  String.length (a ++ b) = String.length a + String.length b.
Proof. induction a as [| c a IH]; simpl; [reflexivity | rewrite IH; reflexivity]. Qed.

Lemma length_repeat_char (c : ascii) (k : nat) :
  String.length (repeat_char c k) = k.
Proof. induction k as [| k IH]; simpl; [reflexivity | rewrite IH; reflexivity]. Qed.

Lemma length_str_take (k : nat) (s : string) :
  String.length (str_take k s) = Nat.min k (String.length s).
Proof.
  revert s. induction k as [| k IH]; intros [| c s]; simpl; try reflexivity.
  rewrite IH. reflexivity.
Qed.

Lemma length_str_drop (k : nat) (s : string) :
  String.length (str_drop k s) = String.length s - k.
Proof.
  revert s. induction k as [| k IH]; intros [| c s]; simpl; try reflexivity.
  apply IH.
Qed.

Lemma str_take_all (k : nat) (s : string) :
  String.length s <= k -> str_take k s = s.
Proof.
  revert s. induction k as [| k IH]; intros [| c s]; simpl; intros H;
    try reflexivity; try lia.
  rewrite IH by lia. reflexivity.
Qed.

Lemma str_drop_all (k : nat) (s : string) :
  String.length s <= k -> str_drop k s = "".
Proof.
  revert s. induction k as [| k IH]; intros [| c s]; simpl; intros H;
    try reflexivity; try lia.
  apply IH. lia.
Qed.

(** A centred string fills its field, or keeps its length when it is longer
    than the field. *)
Lemma length_center (fill : ascii) (width : nat) (s : string) :
  String.length (center fill width s) = Nat.max width (String.length s).
Proof.
  unfold center. rewrite !str_length_app, !length_repeat_char.
  assert ((width - String.length s) / 2 <= width - String.length s)
    by (apply Nat.Div0.div_le_upper_bound; lia).
  lia.
Qed.

(** X1: the three strings [centered] returns have the lengths [w],
    [max w len(s2)] and [max w len(s3)] for [w = len(s1) + 2 pad]: the block
    is a rectangle of width [w] unless [s2] or [s3] is longer than that. *)
Theorem centered_lengths (s1 s2 s3 : string) (pad : nat) :
  let w := String.length s1 + 2 * pad in
  map String.length (Visuals.centered s1 s2 s3 pad)
  = [w; Nat.max w (String.length s2); Nat.max w (String.length s3)].
Proof.
  intros w. unfold Visuals.centered. cbn [map].
  rewrite !length_center. unfold w.
  replace (String.length s1 + pad * 2) with (String.length s1 + 2 * pad) by lia.
  f_equal. lia.
Qed.

(** X2: [gate_block] always returns a rectangle: its three strings have the
    length of the field, or the length [len(name) + 4] of the gate when the
    field is narrower. *)
Theorem gate_block_lengths (name : string) (width : nat) :
  let w := Nat.max width (String.length name + 4) in
  map String.length (Visuals.gate_block name width) = [w; w; w].
Proof.
  intros w. unfold Visuals.gate_block. cbn [map].
  rewrite !length_center.
  repeat (rewrite ?str_length_app, ?length_repeat_char; cbn [String.length]).
  unfold w.
  replace (1 + (2 + (String.length name + 2) - 2 + 1))
    with (String.length name + 4) by lia.
  replace (2 + (String.length name + 2)) with (String.length name + 4) by lia.
  reflexivity.
Qed.

Lemma get_app (j : nat) (a b : string) :
  String.get j (a ++ b)
  = if j <? String.length a then String.get j a
    else String.get (j - String.length a) b.
Proof.
  revert j. induction a as [| c a IH]; intros j.
  - simpl. rewrite Nat.sub_0_r. reflexivity.
  - destruct j as [| j]; [reflexivity |].
    cbn [append String.get String.length]. rewrite IH. reflexivity.
Qed.

Lemma get_str_take (j k : nat) (s : string) :
  String.get j (str_take k s) = if j <? k then String.get j s else None.
Proof.
  revert j s. induction k as [| k IH]; intros j [| c s]; simpl.
  - reflexivity.
  - reflexivity.
  - destruct (j <? S k); reflexivity.
  - destruct j as [| j]; [reflexivity |]. rewrite IH. reflexivity.
Qed.

Lemma get_past_end (j : nat) (s : string) :
  String.length s <= j -> String.get j s = None.
Proof.
  revert j. induction s as [| c s IH]; intros j H; [reflexivity |].
  simpl in H. destruct j as [| j]; [lia |]. simpl. apply IH. lia.
Qed.

Lemma get_str_drop (j k : nat) (s : string) :
  String.get j (str_drop k s) = String.get (j + k) s.
Proof.
  revert j s. induction k as [| k IH]; intros j s.
  - rewrite Nat.add_0_r. destruct s; reflexivity.
  - destruct s as [| c s]; [reflexivity |].
    rewrite Nat.add_succ_r. simpl. apply IH.
Qed.

(** X3: [set_char] with an index inside the string and a text of one
    character keeps the length of the string, puts the character at the
    index and leaves every other position as it was. *)
Theorem set_char_replaces (s : string) (idx : nat) (char : string)
    (Hidx : idx < String.length s) (Hchar : String.length char = 1) :
  String.length (Visuals.set_char s idx char) = String.length s
  /\ String.get idx (Visuals.set_char s idx char) = String.get 0 char
  /\ forall j, j <> idx ->
       String.get j (Visuals.set_char s idx char) = String.get j s.
Proof.
  unfold Visuals.set_char.
  split; [| split].
  - rewrite !str_length_app, length_str_take, length_str_drop. lia.
  - rewrite get_app, length_str_take.
    replace (Nat.min idx (String.length s)) with idx by lia.
    rewrite Nat.ltb_irrefl, Nat.sub_diag, get_app, Hchar. reflexivity.
  - intros j Hj. rewrite get_app, length_str_take.
    replace (Nat.min idx (String.length s)) with idx by lia.
    destruct (j <? idx) eqn:E.
    + rewrite get_str_take, E. reflexivity.
    + apply Nat.ltb_ge in E. rewrite get_app, Hchar.
      destruct (j - idx <? 1) eqn:E1; [apply Nat.ltb_lt in E1; lia |].
      rewrite get_str_drop. f_equal. lia.
Qed.

Lemma set_char_replaces_witness :
  String.length (Visuals.set_char "--+--" 2 "|") = 5
  /\ String.get 2 (Visuals.set_char "--+--" 2 "|") = Some "|"%char
  /\ Visuals.set_char "--+--" 2 "|" = "--|--".
Proof.
  destruct (@set_char_replaces "--+--" 2 "|") as (H1 & H2 & _);
    [simpl; lia | reflexivity |].
  split; [exact H1 | split; [exact H2 | reflexivity]].
Defined.

(** X4: [set_char] does not raise for an index at or past the end of the
    string: nothing is replaced and the text is appended, so the string
    grows. *)
Theorem set_char_past_end_appends (s : string) (idx : nat) (char : string)
    (Hidx : String.length s <= idx) :
  Visuals.set_char s idx char = s ++ char.
Proof.
  unfold Visuals.set_char.
  rewrite str_take_all by exact Hidx.
  rewrite str_drop_all by lia.
  f_equal. induction char as [| c t IH]; [reflexivity |].
  simpl. rewrite IH. reflexivity.
Qed.

Lemma set_char_past_end_appends_witness :
  Visuals.set_char "--" 5 "|" = "--|".
Proof. apply (@set_char_past_end_appends "--" 5 "|"). simpl. lia. Defined.

Local Open Scope list_scope.

(** [np.argmax]: the position returned holds the greatest entry, and no
    earlier position holds it. *)
Lemma argmax_from_spec (pre l : list nat) (at_ best : nat) :
  at_ < length pre ->
  nth at_ pre 0 = best ->
  (forall j, j < length pre -> nth j pre 0 <= best) ->
  (forall j, j < at_ -> nth j pre 0 < best) ->
  let k := Visuals.argmax_from l (length pre) at_ best in
  k < length (pre ++ l)
  /\ (forall j, j < length (pre ++ l) ->
        nth j (pre ++ l) 0 <= nth k (pre ++ l) 0)
  /\ (forall j, j < k -> nth j (pre ++ l) 0 < nth k (pre ++ l) 0).
Proof.
  revert pre at_ best.
  induction l as [| x l IH]; intros pre at_ best Hat Hbest Hle Hlt; cbn zeta.
  - cbn [Visuals.argmax_from]. rewrite app_nil_r, Hbest. auto.
  - cbn [Visuals.argmax_from].
    replace (pre ++ x :: l) with ((pre ++ [x]) ++ l)
      by (rewrite <- app_assoc; reflexivity).
    replace (S (length pre)) with (length (pre ++ [x]))
      by (rewrite length_app; simpl; lia).
    assert (Hnew : nth (length pre) (pre ++ [x]) 0 = x)
      by (rewrite app_nth2, Nat.sub_diag by lia; reflexivity).
    assert (Hold : forall j, j < length pre ->
                     nth j (pre ++ [x]) 0 = nth j pre 0)
      by (intros j Hj; apply app_nth1; exact Hj).
    assert (Hcases : forall j, j < length (pre ++ [x]) ->
                       j < length pre \/ j = length pre)
      by (intros j; rewrite length_app; simpl; lia).
    destruct (best <? x) eqn:E.
    + apply Nat.ltb_lt in E. apply IH.
      * rewrite length_app. simpl. lia.
      * exact Hnew.
      * intros j Hj. destruct (Hcases j Hj) as [Hj' | ->].
        -- rewrite Hold by exact Hj'. specialize (Hle j Hj'). lia.
        -- rewrite Hnew. lia.
      * intros j Hj. rewrite Hold by exact Hj. specialize (Hle j Hj). lia.
    + apply Nat.ltb_ge in E. apply IH.
      * rewrite length_app. simpl. lia.
      * rewrite Hold by exact Hat. exact Hbest.
      * intros j Hj. destruct (Hcases j Hj) as [Hj' | ->].
        -- rewrite Hold by exact Hj'. apply Hle. exact Hj'.
        -- rewrite Hnew. exact E.
      * intros j Hj. rewrite Hold by lia. apply Hlt. exact Hj.
Qed.

Lemma argmax_spec (l : list nat) :
  l <> [] ->
  exists k, Visuals.argmax l = Ok k
            /\ k < length l
            /\ (forall j, j < length l -> nth j l 0 <= nth k l 0)
            /\ (forall j, j < k -> nth j l 0 < nth k l 0).
Proof.
  destruct l as [| x l]; [congruence |]. intros _.
  exists (Visuals.argmax_from l 1 0 x). split; [reflexivity |].
  change (x :: l) with ([x] ++ l).
  apply (@argmax_from_spec [x] l 0 x).
  - simpl. lia.
  - reflexivity.
  - intros j Hj. simpl in Hj. assert (j = 0) as -> by lia. simpl. lia.
  - intros j Hj. lia.
Qed.

Lemma in_product (l1 l2 : list nat) (i j : nat) :
  In (i, j) (Visuals.product l1 l2) <-> In i l1 /\ In j l2.
Proof.
  unfold Visuals.product. rewrite in_flat_map. split.
  - intros (x & Hx & H). apply in_map_iff in H.
    destruct H as (y & Hy & Hin). inversion Hy. subst. auto.
  - intros (Hi & Hj). exists i. split; [exact Hi |].
    apply in_map_iff. exists j. auto.
Qed.

Lemma product_nil (l1 l2 : list nat) :
  Visuals.product l1 l2 = [] <-> l1 = [] \/ l2 = [].
Proof.
  split.
  - intros H. destruct l1 as [| i l1]; [auto |].
    destruct l2 as [| j l2]; [auto |].
    assert (Hin : In (i, j) (Visuals.product (i :: l1) (j :: l2)))
      by (apply in_product; simpl; auto).
    rewrite H in Hin. destruct Hin.
  - intros [-> | ->]; [reflexivity |].
    unfold Visuals.product. induction l1 as [| i l1 IH]; [reflexivity |].
    simpl. exact IH.
Qed.

Lemma outer_indices_pair (indices1 indices2 : list nat) :
  indices1 <> [] -> indices2 <> [] ->
  exists i j,
    Visuals.outer_indices indices1 indices2 = Ok (i, j)
    /\ In i indices1 /\ In j indices2
    /\ forall i' j', In i' indices1 -> In j' indices2 ->
         Visuals.distance i' j' <= Visuals.distance i j.
Proof.
  intros H1 H2. unfold Visuals.outer_indices.
  set (combinations := Visuals.product indices1 indices2).
  set (f := fun c : nat * nat => Visuals.distance (fst c) (snd c)).
  assert (Hne : map f combinations <> []).
  { intros H. apply map_eq_nil in H. apply product_nil in H. tauto. }
  destruct (argmax_spec Hne) as (k & Hk & Hlt & Hmax & _).
  rewrite Hk. cbn [rbind]. rewrite length_map in Hlt.
  destruct (nth_error combinations k) as [[i j] |] eqn:E;
    [| apply nth_error_None in E; lia].
  exists i, j. split; [apply py_index_Ok; exact E |].
  assert (Hin : In (i, j) combinations) by (eapply nth_error_In; exact E).
  apply in_product in Hin. destruct Hin as (Hi & Hj).
  split; [exact Hi | split; [exact Hj |]].
  intros i' j' Hi' Hj'.
  assert (Hin' : In (i', j') combinations) by (apply in_product; auto).
  apply In_nth_error in Hin'. destruct Hin' as (p & Hp).
  assert (Hpl : p < length combinations)
    by (apply nth_error_Some; congruence).
  specialize (Hmax p). rewrite length_map in Hmax. specialize (Hmax Hpl).
  rewrite (nth_indep _ 0 (f (0, 0))) in Hmax by (rewrite length_map; lia).
  rewrite (nth_indep _ 0 (f (0, 0)) (n := k)) in Hmax
    by (rewrite length_map; lia).
  rewrite !map_nth in Hmax.
  rewrite (nth_error_nth _ _ (0, 0) Hp) in Hmax.
  rewrite (nth_error_nth _ _ (0, 0) E) in Hmax. exact Hmax.
Qed.

(** X5: [outer_indices] returns a pair of one index of each list whose
    distance is the greatest among all such pairs; it raises numpy's
    [ValueError] exactly when one of the lists is empty. *)
Theorem outer_indices_farthest (indices1 indices2 : list nat) :
  (Visuals.outer_indices indices1 indices2 = Err ShapeError
   <-> indices1 = [] \/ indices2 = [])
  /\ (indices1 <> [] -> indices2 <> [] ->
      exists i j,
        Visuals.outer_indices indices1 indices2 = Ok (i, j)
        /\ In i indices1 /\ In j indices2
        /\ forall i' j', In i' indices1 -> In j' indices2 ->
             Visuals.distance i' j' <= Visuals.distance i j).
Proof.
  split; [| apply outer_indices_pair].
  split.
  - intros H.
    destruct indices1 as [| a l1]; [auto |].
    destruct indices2 as [| b l2]; [auto |].
    destruct (@outer_indices_pair (a :: l1) (b :: l2)) as (i & j & Hij & _);
      [congruence | congruence |].
    rewrite Hij in H. discriminate.
  - intros H. apply product_nil in H. unfold Visuals.outer_indices.
    rewrite H. reflexivity.
Qed.

Lemma filter_sorted (f : nat -> bool) (l : list nat) :
  Sorted.StronglySorted lt l -> Sorted.StronglySorted lt (filter f l).
Proof.
  induction 1 as [| x l Hs IH Hx]; simpl; [constructor |].
  destruct (f x); [| exact IH].
  constructor; [exact IH |].
  apply Forall_forall. intros y Hy. apply filter_In in Hy.
  rewrite Forall_forall in Hx. apply Hx. tauto.
Qed.

Lemma seq_sorted (start len : nat) :
  Sorted.StronglySorted lt (seq start len).
Proof.
  revert start. induction len as [| len IH]; intros start; simpl;
    constructor; [apply IH |].
  apply Forall_forall. intros y Hy. apply in_seq in Hy. lia.
Qed.

(** X6: for the qubits of one gate, [inner_indices(n, indices, indices)]
    returns, in ascending order, exactly the rows below [n] that lie
    strictly between two of the given indices. *)
Theorem inner_indices_between (n : nat) (indices : list nat)
    (Hne : indices <> []) :
  exists rows,
    Visuals.inner_indices n indices indices = Ok rows
    /\ Sorted.StronglySorted lt rows
    /\ forall x, In x rows <->
         x < n /\ (exists a, In a indices /\ a < x)
               /\ (exists b, In b indices /\ x < b).
Proof.
  destruct (outer_indices_pair Hne Hne) as (i & j & Hij & Hi & Hj & Hmax).
  unfold Visuals.inner_indices. rewrite Hij. cbn [rbind].
  eexists. split; [reflexivity |].
  split; [apply filter_sorted, seq_sorted |].
  assert (Hin : forall x, In x indices -> Nat.min i j <= x <= Nat.max i j).
  { intros x Hx.
    pose proof (Hmax x j Hx Hj) as H1. pose proof (Hmax i x Hi Hx) as H2.
    pose proof (Hmax x i Hx Hi) as H3. pose proof (Hmax j x Hj Hx) as H4.
    unfold Visuals.distance in *. lia. }
  intros x. rewrite filter_In, in_seq, andb_true_iff, !Nat.ltb_lt.
  split.
  - intros (Hx & Hlo & Hhi). split; [lia |]. split.
    + destruct (Nat.min_spec i j) as [(_ & E) | (_ & E)]; rewrite E in Hlo;
        eauto.
    + destruct (Nat.max_spec i j) as [(_ & E) | (_ & E)]; rewrite E in Hhi;
        eauto.
  - intros (Hx & (a & Ha & Hax) & (b & Hb & Hxb)).
    pose proof (Hin a Ha). pose proof (Hin b Hb). lia.
Qed.

Lemma inner_indices_between_witness :
  exists rows,
    Visuals.inner_indices 5 [3; 0] [3; 0] = Ok rows
    /\ Sorted.StronglySorted lt rows
    /\ forall x, In x rows <->
         x < 5 /\ (exists a, In a [3; 0] /\ a < x)
               /\ (exists b, In b [3; 0] /\ x < b).
Proof. apply (@inner_indices_between 5 [3; 0]). discriminate. Defined.

(** *** Properties of the layers *)

(** The text the layers give to line [k] of the picture, and a line cut to
    the width asked for. *)
Definition row_text (layers : list (list (list string))) (k : nat) : string :=
  fold_right append ""%string
    (map (fun layer => nth k (List.concat layer) ""%string) layers).

Definition crop (width : option nat) (s : string) : string :=
  match width with
  | None => s
  | Some w => str_take w s
  end.

Definition fits (n : nat) (layer : list (list string)) : bool :=
  length (List.concat layer) <=? n.

Lemma str_app_nil_r (s : string) : (s ++ "")%string = s.
Proof. induction s as [| c s IH]; simpl; [| rewrite IH]; reflexivity. Qed.

Lemma str_app_assoc (a b c : string) :
  ((a ++ b) ++ c)%string = (a ++ (b ++ c))%string.
Proof. induction a as [| x a IH]; simpl; [| rewrite IH]; reflexivity. Qed.

(** What the loops of [add_layer] leave behind, from line [i] on. *)
Lemma add_lines_spec (lines strings : list string) (i : nat) :
  let (r, strings') := Visuals.add_lines strings i lines in
  r = (if length lines <=? length strings - i then Ok tt else Err IndexError)
  /\ length strings' = length strings
  /\ forall k,
       nth_error strings' k
       = if (i <=? k) && (k <? i + length lines)
         then option_map (fun s => (s ++ nth (k - i) lines "")%string)
                         (nth_error strings k)
         else nth_error strings k.
Proof.
  revert strings i.
  induction lines as [| line rest IH]; intros strings i.
  - cbn [Visuals.add_lines length]. split; [reflexivity |].
    split; [reflexivity |]. intros k.
    destruct (i <=? k) eqn:E1; [| reflexivity].
    destruct (k <? i + 0) eqn:E2; [| reflexivity].
    apply Nat.ltb_lt in E2. apply Nat.leb_le in E1. lia.
  - cbn [Visuals.add_lines].
    destruct (nth_error strings i) as [s |] eqn:E.
    + assert (Hi : i < length strings) by (apply nth_error_Some; congruence).
      destruct (py_assign_lt strings (s ++ line)%string Hi) as (st & Hst).
      rewrite Hst.
      destruct (py_assign_nth_error _ _ _ Hst) as (Hlen & Hnth).
      specialize (IH st (S i)).
      destruct (Visuals.add_lines st (S i) rest) as [r strings'].
      destruct IH as (Hr & Hl & Hk).
      split; [| split].
      * rewrite Hr, Hlen. cbn [length].
        destruct (length rest <=? length strings - S i) eqn:E1;
          destruct (S (length rest) <=? length strings - i) eqn:E2;
          try reflexivity;
          [apply Nat.leb_le in E1; apply Nat.leb_gt in E2
          | apply Nat.leb_gt in E1; apply Nat.leb_le in E2]; lia.
      * congruence.
      * intros k. rewrite Hk, Hnth. cbn [length].
        destruct (Nat.lt_trichotomy k i) as [Hlt | [-> | Hgt]].
        -- replace (S i <=? k) with false by (symmetry; apply Nat.leb_gt; lia).
           replace (i <=? k) with false by (symmetry; apply Nat.leb_gt; lia).
           replace (k =? i) with false by (symmetry; apply Nat.eqb_neq; lia).
           reflexivity.
        -- replace (S i <=? i) with false by (symmetry; apply Nat.leb_gt; lia).
           rewrite Nat.leb_refl, Nat.eqb_refl.
           replace (i <? i + S (length rest)) with true
             by (symmetry; apply Nat.ltb_lt; lia).
           cbn [andb]. rewrite E, Nat.sub_diag. reflexivity.
        -- replace (S i <=? k) with true by (symmetry; apply Nat.leb_le; lia).
           replace (i <=? k) with true by (symmetry; apply Nat.leb_le; lia).
           replace (k =? i) with false by (symmetry; apply Nat.eqb_neq; lia).
           replace (S i + length rest) with (i + S (length rest)) by lia.
           cbn [andb].
           destruct (k <? i + S (length rest)); [| reflexivity].
           replace (k - i) with (S (k - S i)) by lia. reflexivity.
    + apply nth_error_None in E.
      split; [| split].
      * cbn [length].
        replace (S (length rest) <=? length strings - i) with false
          by (symmetry; apply Nat.leb_gt; lia).
        reflexivity.
      * reflexivity.
      * intros k.
        destruct ((i <=? k) && (k <? i + length (line :: rest))) eqn:E1;
          [| reflexivity].
        apply andb_true_iff in E1. destruct E1 as (E1 & _).
        apply Nat.leb_le in E1.
        assert (Hk : nth_error strings k = None)
          by (apply nth_error_None; lia).
        rewrite Hk. reflexivity.
Qed.

(** X7: [add_layer] raises [IndexError] exactly when the layer has more
    lines than [strings] has entries.  In both cases the list keeps its
    length and entry [k] has line [k] of the layer appended when the layer
    has such a line: before the error every entry has been extended. *)
Theorem add_layer_appends (strings : list string)
    (layer : list (list string)) :
  let lines := List.concat layer in
  fst (Visuals.add_layer strings layer)
  = (if length lines <=? length strings then Ok tt else Err IndexError)
  /\ length (snd (Visuals.add_layer strings layer)) = length strings
  /\ forall k,
       nth_error (snd (Visuals.add_layer strings layer)) k
       = match nth_error lines k with
         | Some line =>
             option_map (fun s => (s ++ line)%string) (nth_error strings k)
         | None => nth_error strings k
         end.
Proof.
  intros lines. unfold Visuals.add_layer. fold lines.
  pose proof (add_lines_spec lines strings 0) as H.
  destruct (Visuals.add_lines strings 0 lines) as [r strings'].
  destruct H as (Hr & Hl & Hk). cbn [fst snd].
  split; [rewrite Hr, Nat.sub_0_r; reflexivity |].
  split; [exact Hl |].
  intros k. rewrite Hk. cbn [Nat.leb andb Nat.add]. rewrite Nat.sub_0_r.
  destruct (nth_error lines k) as [line |] eqn:E.
  - assert (Hlt : k < length lines) by (apply nth_error_Some; congruence).
    replace (k <? length lines) with true by (symmetry; apply Nat.ltb_lt; lia).
    rewrite (nth_error_nth _ _ _ E). reflexivity.
  - apply nth_error_None in E.
    replace (k <? length lines) with false by (symmetry; apply Nat.ltb_ge; lia).
    reflexivity.
Qed.

Lemma map_nth_seq (strings : list string) :
  map (fun k => nth k strings ""%string) (seq 0 (length strings)) = strings.
Proof.
  apply nth_error_ext. intros k.
  destruct (nth_error strings k) as [s |] eqn:E.
  - assert (Hk : k < length strings) by (apply nth_error_Some; congruence).
    rewrite nth_error_map, nth_error_seq.
    replace (k <? length strings) with true by (symmetry; apply Nat.ltb_lt; lia).
    cbn [option_map Nat.add]. rewrite (nth_error_nth _ _ _ E). reflexivity.
  - apply nth_error_None. rewrite length_map, length_seq.
    apply nth_error_None. exact E.
Qed.

Lemma add_layers_spec (layers : list (list (list string)))
    (strings : list string) :
  Visuals.add_layers strings layers
  = if forallb (fits (length strings)) layers
    then Ok (map (fun k => (nth k strings "" ++ row_text layers k)%string)
                 (seq 0 (length strings)))
    else Err IndexError.
Proof.
  revert strings. induction layers as [| layer rest IH]; intros strings.
  - cbn [Visuals.add_layers forallb]. f_equal.
    rewrite <- (map_nth_seq strings) at 1.
    apply map_ext. intros k. unfold row_text. cbn [map fold_right].
    rewrite str_app_nil_r. reflexivity.
  - cbn [Visuals.add_layers forallb]. unfold Visuals.add_layer.
    pose proof (add_lines_spec (List.concat layer) strings 0) as H.
    destruct (Visuals.add_lines strings 0 (List.concat layer))
      as [r strings'].
    destruct H as (Hr & Hl & Hk). rewrite Nat.sub_0_r in Hr.
    unfold fits at 1. subst r.
    destruct (length (List.concat layer) <=? length strings) eqn:E;
      [| reflexivity].
    cbn [andb]. rewrite IH, Hl.
    destruct (forallb (fits (length strings)) rest); [| reflexivity].
    f_equal. apply map_ext_in. intros k Hin. apply in_seq in Hin.
    assert (Hnth : nth k strings' ""%string
                   = (nth k strings "" ++ nth k (List.concat layer) "")%string).
    { specialize (Hk k). cbn [Nat.leb andb Nat.add] in Hk.
      rewrite Nat.sub_0_r in Hk.
      destruct (nth_error strings k) as [s |] eqn:Es;
        [| apply nth_error_None in Es; lia].
      rewrite (nth_error_nth _ _ _ Es).
      destruct (k <? length (List.concat layer)) eqn:Ek.
      - cbn [option_map] in Hk. apply (nth_error_nth _ _ ""%string) in Hk.
        exact Hk.
      - apply Nat.ltb_ge in Ek.
        rewrite (nth_overflow (List.concat layer)) by exact Ek.
        rewrite str_app_nil_r.
        apply (nth_error_nth _ _ ""%string) in Hk. exact Hk. }
    rewrite Hnth. unfold row_text. cbn [map fold_right].
    apply str_app_assoc.
Qed.

Lemma nth_repeat_blank (k n : nat) :
  k < n -> nth k (repeat " "%string n) ""%string = " "%string.
Proof.
  revert k. induction n as [| n IH]; intros k H; [lia |].
  destruct k as [| k]; [reflexivity |]. simpl. apply IH. lia.
Qed.

(** X8: [build_string] raises [IndexError] exactly when one of the layers
    has more than [3 n] lines.  Otherwise the text has [3 n] lines, joined
    by line feeds; line [k] is one blank followed by line [k] of every
    layer that has one, in the order of the layers, cut to [width]
    characters when a width is given. *)
Theorem build_string_lines (layers : list (list (list string))) (n : nat)
    (width : option nat) :
  Visuals.build_string layers n width
  = if forallb (fits (3 * n)) layers
    then Ok (join (String (ascii_of_nat 10) "")
               (map (fun k => crop width (" " ++ row_text layers k)%string)
                    (seq 0 (3 * n))))
    else Err IndexError.
Proof.
  unfold Visuals.build_string, Visuals.build_lines.
  rewrite add_layers_spec, repeat_length.
  destruct (forallb (fits (3 * n)) layers); [| reflexivity].
  cbn [rbind]. f_equal. f_equal.
  transitivity (map (crop width)
                  (map (fun k => (nth k (repeat " "%string (3 * n)) ""
                                  ++ row_text layers k)%string)
                       (seq 0 (3 * n)))).
  - destruct width as [w |]; [reflexivity |].
    unfold crop. rewrite map_id. reflexivity.
  - rewrite map_map. apply map_ext_in. intros k Hin. apply in_seq in Hin.
    rewrite nth_repeat_blank by lia. reflexivity.
Qed.

(** X9: with a width given, no line that [build_string] joins is longer
    than the width, and there are [3 n] of them. *)
Theorem build_lines_width (layers : list (list (list string))) (n w : nat)
    (lines : list string)
    (Hbuilt : Visuals.build_lines layers n (Some w) = Ok lines) :
  length lines = 3 * n
  /\ Forall (fun line => String.length line <= w) lines.
Proof.
  unfold Visuals.build_lines in Hbuilt. rewrite add_layers_spec in Hbuilt.
  rewrite repeat_length in Hbuilt.
  destruct (forallb (fits (3 * n)) layers); [| discriminate].
  cbn [rbind] in Hbuilt. inversion Hbuilt. subst lines.
  split; [rewrite !length_map, length_seq; reflexivity |].
  apply Forall_forall. intros line Hin. apply in_map_iff in Hin.
  destruct Hin as (s & <- & _). rewrite length_str_take. lia.
Qed.

Lemma build_lines_width_witness :
  exists lines,
    Visuals.build_lines [[Visuals.state_block 0]; [Visuals.gate_block "H" 11]]
      1 (Some 9) = Ok lines
    /\ length lines = 3
    /\ Forall (fun line => String.length line <= 9) lines.
Proof.
  eexists. split; [vm_compute; reflexivity |].
  apply (@build_lines_width
           [[Visuals.state_block 0]; [Visuals.gate_block "H" 11]] 1 9).
  vm_compute. reflexivity.
Defined.

(** ** [instruction.py]: the parameter store behind the instructions *)

Lemma skipn_nth_error {A} (l : list A) (i : nat) (x : A) :
  nth_error l i = Some x -> skipn i l = x :: skipn (S i) l.
Proof.
  revert i. induction l as [| h t IH]; intros [| i] H; try discriminate.
  - inversion H. reflexivity.
  - simpl in H. apply IH in H. exact H.
Qed.

Lemma mapM_py_index_grow {A} (pool more : list A) (l : list nat)
    (xs : list A) :
  mapM (py_index pool) l = Ok xs -> mapM (py_index (pool ++ more)) l = Ok xs.
Proof.
  revert xs. induction l as [| p l IH]; intros xs; [auto |].
  cbn [mapM]. unfold py_index at 1 3.
  destruct (nth_error pool p) as [a |] eqn:E; [| discriminate].
  rewrite nth_error_app1 by (apply nth_error_Some; congruence).
  rewrite E.
  destruct (mapM (py_index pool) l) as [ys |]; [| discriminate].
  rewrite (IH ys eq_refl). auto.
Qed.

Lemma mapM_py_index_tail {A} (xs pool : list A) :
  mapM (py_index (pool ++ xs)) (seq (length pool) (length xs)) = Ok xs.
Proof.
  revert pool. induction xs as [| x xs IH]; intros pool; [reflexivity |].
  cbn [length seq mapM]. unfold py_index at 1.
  rewrite nth_error_app2, Nat.sub_diag by lia. cbn [nth_error].
  replace (pool ++ x :: xs) with ((pool ++ [x]) ++ xs)
    by (rewrite <- app_assoc; reflexivity).
  replace (S (length pool)) with (length (pool ++ [x]))
    by (rewrite length_app; simpl; lia).
  rewrite IH. reflexivity.
Qed.

Section StoreFacts.

Variable V : Type.

Definition values (a : ParameterMap.argument V) : list V :=
  match a with
  | ParameterMap.Scalar x => [x]
  | ParameterMap.Sequence l => l
  end.

Lemma add_arg_loop_fresh (xs : list V) (self : ParameterMap.t V) (i : nat)
    (acc : list nat) :
  ParameterMap.add_arg_loop self None i xs acc
  = (Ok (acc ++ seq (length (ParameterMap.params self)) (length xs)),
     ParameterMap.mk (ParameterMap.indices self)
                     (ParameterMap.params self ++ xs)).
Proof.
  revert self i acc. induction xs as [| x xs IH]; intros self i acc.
  - cbn [ParameterMap.add_arg_loop length seq]. rewrite !app_nil_r.
    destruct self; reflexivity.
  - cbn [ParameterMap.add_arg_loop]. rewrite IH.
    unfold ParameterMap.add_param. cbn [ParameterMap.params
      ParameterMap.indices length seq].
    rewrite length_app. cbn [length]. rewrite Nat.add_1_r.
    rewrite <- !app_assoc. reflexivity.
Qed.

Lemma add_arg_loop_linked (l : list nat) (xs : list V)
    (self : ParameterMap.t V) (i : nat) (acc : list nat) :
  ParameterMap.add_arg_loop self (Some (ParameterMap.Positions l)) i xs acc
  = if length xs <=? length l - i
    then (Ok (acc ++ firstn (length xs) (skipn i l)),
          ParameterMap.mk (ParameterMap.indices self)
                          (ParameterMap.params self ++ xs))
    else (Err IndexError,
          ParameterMap.mk (ParameterMap.indices self)
                          (ParameterMap.params self
                           ++ firstn (length l - i) xs)).
Proof.
  revert self i acc. induction xs as [| x xs IH]; intros self i acc.
  - cbn [ParameterMap.add_arg_loop length firstn Nat.leb].
    rewrite !app_nil_r. destruct self; reflexivity.
  - cbn [ParameterMap.add_arg_loop ParameterMap.subscript]. unfold py_index.
    destruct (nth_error l i) as [pos |] eqn:E.
    + assert (Hi : i < length l) by (apply nth_error_Some; congruence).
      rewrite IH. unfold ParameterMap.add_param.
      cbn [ParameterMap.params ParameterMap.indices length].
      replace (length l - i) with (S (length l - S i)) by lia.
      cbn [Nat.leb firstn].
      destruct (length xs <=? length l - S i) eqn:E1.
      * rewrite <- !app_assoc. cbn [app].
        rewrite (skipn_nth_error _ _ E). reflexivity.
      * rewrite <- !app_assoc. reflexivity.
    + apply nth_error_None in E.
      replace (length l - i) with 0 by lia.
      cbn [firstn length Nat.leb]. rewrite app_nil_r.
      destruct self; reflexivity.
Qed.

(** The store after the values [xs] were added without positions. *)
Definition fresh (self : ParameterMap.t V) (xs : list V) : ParameterMap.t V :=
  ParameterMap.mk
    (ParameterMap.indices self
     ++ [Some (ParameterMap.Positions
                 (seq (length (ParameterMap.params self)) (length xs)))])
    (ParameterMap.params self ++ xs).

Lemma add_fresh_eq (self : ParameterMap.t V)
    (arg : ParameterMap.argument V) :
  ParameterMap.add self (Some arg) None = (Ok tt, fresh self (values arg)).
Proof.
  unfold ParameterMap.add, ParameterMap.add_arg.
  fold (values arg). rewrite add_arg_loop_fresh. reflexivity.
Qed.

Lemma get_fresh_new (self : ParameterMap.t V) (xs : list V) :
  ParameterMap.get (fresh self xs) (length (ParameterMap.indices self))
  = Ok (Some xs).
Proof.
  unfold ParameterMap.get, fresh.
  cbn [ParameterMap.params ParameterMap.indices].
  unfold py_index at 1. rewrite nth_error_app2, Nat.sub_diag by lia.
  cbn [nth_error rbind]. rewrite mapM_py_index_tail. reflexivity.
Qed.

Lemma get_fresh_old (self : ParameterMap.t V) (xs : list V) (i : nat)
    (v : option (list V)) :
  ParameterMap.get self i = Ok v -> ParameterMap.get (fresh self xs) i = Ok v.
Proof.
  unfold ParameterMap.get, fresh.
  cbn [ParameterMap.params ParameterMap.indices].
  unfold py_index at 1 3.
  destruct (nth_error (ParameterMap.indices self) i) as [entry |] eqn:E;
    [| discriminate].
  rewrite nth_error_app1 by (apply nth_error_Some; congruence).
  rewrite E. cbn [rbind].
  destruct entry as [[p | l] |]; auto.
  destruct (mapM (py_index (ParameterMap.params self)) l) as [ys |] eqn:El;
    [| discriminate].
  rewrite (@mapM_py_index_grow _ _ _ _ _ El). auto.
Qed.

(** X10: adding an argument without positions always succeeds: the values
    are appended to the pool, the new entry resolves to exactly these
    values, and every earlier entry that resolved before resolves to the
    same values afterwards. *)
Theorem add_arg_fresh (self : ParameterMap.t V)
    (arg : ParameterMap.argument V) :
  exists self',
    ParameterMap.add self (Some arg) None = (Ok tt, self')
    /\ ParameterMap.params self' = ParameterMap.params self ++ values arg
    /\ length (ParameterMap.indices self')
       = S (length (ParameterMap.indices self))
    /\ ParameterMap.get self' (length (ParameterMap.indices self))
       = Ok (Some (values arg))
    /\ forall i v, ParameterMap.get self i = Ok v ->
                   ParameterMap.get self' i = Ok v.
Proof.
  exists (fresh self (values arg)).
  split; [apply add_fresh_eq |].
  split; [reflexivity |].
  split.
  - unfold fresh. cbn [ParameterMap.indices].
    rewrite length_app. cbn [length]. lia.
  - split; [apply get_fresh_new |].
    intros i v. apply get_fresh_old.
Qed.

(** X11: adding an argument together with positions of values that are
    already in the pool still appends the given values to the pool, but
    the new entry resolves to the values the pool held at the positions:
    the values passed are never read through this entry. *)
Theorem add_arg_linked_ignores_values (self : ParameterMap.t V)
    (arg : ParameterMap.argument V) (l : list nat) (old : list V)
    (Hlen : length (values arg) <= length l)
    (Hold : mapM (py_index (ParameterMap.params self))
              (firstn (length (values arg)) l) = Ok old) :
  exists self',
    ParameterMap.add self (Some arg) (Some (ParameterMap.Positions l))
    = (Ok tt, self')
    /\ ParameterMap.params self' = ParameterMap.params self ++ values arg
    /\ ParameterMap.get self' (length (ParameterMap.indices self))
       = Ok (Some old).
Proof.
  unfold ParameterMap.add, ParameterMap.add_arg.
  fold (values arg). rewrite add_arg_loop_linked. rewrite Nat.sub_0_r.
  replace (length (values arg) <=? length l) with true
    by (symmetry; apply Nat.leb_le; exact Hlen).
  cbn [app skipn].
  eexists. split; [reflexivity |].
  cbn [ParameterMap.params ParameterMap.indices].
  split; [reflexivity |].
  unfold ParameterMap.get. cbn [ParameterMap.params ParameterMap.indices].
  unfold py_index at 1. rewrite nth_error_app2, Nat.sub_diag by lia.
  cbn [nth_error rbind]. rewrite (@mapM_py_index_grow _ _ _ _ _ Hold). reflexivity.
Qed.

(** X12: adding more values than positions raises [IndexError], but only
    after the values that had a position were appended to the pool; no
    entry is recorded for them. *)
Theorem add_arg_short_positions (self : ParameterMap.t V)
    (arg : ParameterMap.argument V) (l : list nat)
    (Hlen : length l < length (values arg)) :
  ParameterMap.add self (Some arg) (Some (ParameterMap.Positions l))
  = (Err IndexError,
     ParameterMap.mk (ParameterMap.indices self)
       (ParameterMap.params self ++ firstn (length l) (values arg))).
Proof.
  unfold ParameterMap.add, ParameterMap.add_arg.
  fold (values arg). rewrite add_arg_loop_linked. rewrite Nat.sub_0_r.
  replace (length (values arg) <=? length l) with false
    by (symmetry; apply Nat.leb_gt; exact Hlen).
  reflexivity.
Qed.

End StoreFacts.

Lemma add_arg_linked_ignores_values_witness :
  exists self',
    ParameterMap.add (ParameterMap.mk [Some (ParameterMap.Positions [0])] [7])
      (Some (ParameterMap.Scalar 9)) (Some (ParameterMap.Positions [0]))
    = (Ok tt, self')
    /\ ParameterMap.params self' = [7; 9]
    /\ ParameterMap.get self' 1 = Ok (Some [7]).
Proof.
  apply (@add_arg_linked_ignores_values nat
           (ParameterMap.mk [Some (ParameterMap.Positions [0])] [7])
           (ParameterMap.Scalar 9) [0] [7]);
    [simpl; lia | reflexivity].
Defined.

Lemma add_arg_short_positions_witness :
  ParameterMap.add (ParameterMap.mk [] [7])
    (Some (ParameterMap.Sequence [1; 2])) (Some (ParameterMap.Positions [0]))
  = (Err IndexError, ParameterMap.mk [] [7; 1]).
Proof.
  apply (@add_arg_short_positions nat (ParameterMap.mk [] [7])
           (ParameterMap.Sequence [1; 2]) [0]).
  simpl. lia.
Defined.

(** ** [instruction.py]: the counter of the instructions *)

(** The counter [Instruction.INDEX] names the entry the next instruction
    will get in the store. *)
Definition aligned {V} (w : Instruction.world V) : Prop :=
  Instruction.INDEX w
  = length (ParameterMap.indices (Instruction.pmap w)).

Section CounterFacts.

Variable V : Type.

Lemma add_arg_loop_indices (xs : list V) (self : ParameterMap.t V)
    (idx : option ParameterMap.positions) (i : nat) (acc : list nat) :
  ParameterMap.indices (snd (ParameterMap.add_arg_loop self idx i xs acc))
  = ParameterMap.indices self.
Proof.
  revert self i acc. induction xs as [| x xs IH]; intros self i acc;
    [reflexivity |].
  cbn [ParameterMap.add_arg_loop].
  destruct (match idx with
            | Some p => ParameterMap.subscript p i
            | None => Ok (length (ParameterMap.params self))
            end) as [pos | e]; [| reflexivity].
  rewrite IH. reflexivity.
Qed.

(** [add] records one entry when it returns and none when it raises. *)
Lemma add_indices (self : ParameterMap.t V)
    (arg : option (ParameterMap.argument V))
    (idx : option ParameterMap.positions) :
  let (r, self') := ParameterMap.add self arg idx in
  match r with
  | Ok _ => exists e, ParameterMap.indices self'
                      = ParameterMap.indices self ++ [e]
  | Err _ => ParameterMap.indices self' = ParameterMap.indices self
  end.
Proof.
  unfold ParameterMap.add.
  destruct arg as [a |].
  - unfold ParameterMap.add_arg.
    pose proof (add_arg_loop_indices
                  match a with
                  | ParameterMap.Scalar x => [x]
                  | ParameterMap.Sequence l => l
                  end self idx 0 []) as H.
    destruct (ParameterMap.add_arg_loop self idx 0 _ []) as [[l | e] self'];
      cbn [snd] in H.
    + cbn [ParameterMap.indices]. rewrite H. eauto.
    + exact H.
  - destruct idx as [p |]; cbn [ParameterMap.link_param ParameterMap.add_empty
      ParameterMap.indices]; eauto.
Qed.

(** X13: while the counter names the next entry of the store, an
    instruction that is created gets the position of its own entry as
    [idx], and the counter names the next entry again.  When the store
    raises, no instruction and no entry exist but the counter has been
    advanced: it is one ahead of the store from then on. *)
Theorem init_counter (w : Instruction.world V) (c : Instruction.kind)
    (name : string) (qubits con clbits : option (list (option Bit)))
    (n : nat) (arg : option (ParameterMap.argument V))
    (argidx : option ParameterMap.positions) (trigger : nat)
    (Haligned : aligned w) :
  let (r, w') :=
    Instruction.init w c name qubits con clbits n arg argidx trigger in
  match r with
  | Ok inst =>
      Instruction.idx inst
      = length (ParameterMap.indices (Instruction.pmap w))
      /\ length (ParameterMap.indices (Instruction.pmap w'))
         = S (length (ParameterMap.indices (Instruction.pmap w)))
      /\ aligned w'
  | Err _ =>
      ParameterMap.indices (Instruction.pmap w')
      = ParameterMap.indices (Instruction.pmap w)
      /\ Instruction.INDEX w'
         = S (length (ParameterMap.indices (Instruction.pmap w')))
  end.
Proof.
  unfold Instruction.init. cbn [Instruction.pmap Instruction.INDEX].
  pose proof (add_indices (Instruction.pmap w) arg argidx) as H.
  destruct (ParameterMap.add (Instruction.pmap w) arg argidx)
    as [[u | e] pm].
  - destruct H as (entry & H). unfold aligned.
    cbn [Instruction.idx Instruction.pmap Instruction.INDEX].
    rewrite H, length_app. cbn [length].
    unfold aligned in Haligned. lia.
  - cbn [Instruction.pmap Instruction.INDEX]. rewrite H.
    unfold aligned in Haligned. auto.
Qed.

End CounterFacts.

Lemma init_counter_witness :
  let w := Instruction.mkWorld 0 (ParameterMap.empty nat) in
  (exists inst w',
     Instruction.init w Instruction.IsGate "Rx" None None None 1
       (Some (ParameterMap.Scalar 5)) None 1 = (Ok inst, w')
     /\ Instruction.idx inst = 0 /\ aligned w')
  /\ (exists e w',
        Instruction.init w Instruction.IsGate "Rx" None None None 1
          (Some (ParameterMap.Scalar 5)) (Some (ParameterMap.Positions []))
          1 = (Err e, w')
        /\ Instruction.INDEX w' = 1
        /\ ParameterMap.indices (Instruction.pmap w') = []).
Proof.
  intros w.
  assert (Hw : aligned w) by reflexivity.
  split.
  - pose proof (@init_counter nat w Instruction.IsGate "Rx" None None None 1
                  (Some (ParameterMap.Scalar 5)) None 1 Hw) as H.
    cbn in H. destruct H as (H1 & _ & H3).
    eexists. eexists. split; [reflexivity |]. split; [exact H1 | exact H3].
  - pose proof (@init_counter nat w Instruction.IsGate "Rx" None None None 1
                  (Some (ParameterMap.Scalar 5))
                  (Some (ParameterMap.Positions [])) 1 Hw) as H.
    cbn in H. destruct H as (H1 & H2).
    eexists. eexists. split; [reflexivity |]. split; [exact H2 | exact H1].
Defined.

(** ** [instruction.py]: the argument of a gate *)

Lemma py_index_repeat {A} (x : A) (k i : nat) :
  py_index (repeat x k) i = if i <? k then Ok x else Err IndexError.
Proof.
  unfold py_index. revert i. induction k as [| k IH]; intros [| i];
    try reflexivity.
  cbn [repeat nth_error]. rewrite IH. reflexivity.
Qed.

Section GateArgument.

Variable V : Type.

(** The gate [Gate.__init__] makes of a list of qubits and one number. *)
Lemma gate_scalar_eq (w : Instruction.world V) (name : string)
    (qubits : list (option Bit)) (con : option (list (option Bit)))
    (x : V) (n trigger : nat) :
  Instruction.Gate w name (Some qubits) con
    (Some (ParameterMap.Scalar x)) None n trigger
  = (Ok (Instruction.mk (Instruction.INDEX w) n
           match con with
           | None => name
           | Some c => (repeat_char "c" (length c) ++ name)%string
           end
           (Some qubits) con None trigger Instruction.IsGate),
     Instruction.mkWorld (S (Instruction.INDEX w))
       (fresh (Instruction.pmap w) (repeat x (length qubits)))).
Proof.
  unfold Instruction.Gate, Instruction.init.
  cbn [Instruction.pmap Instruction.INDEX].
  rewrite (add_fresh_eq (Instruction.pmap w)
             (ParameterMap.Sequence (repeat x (length qubits)))).
  cbn [values]. destruct con as [c |]; reflexivity.
Qed.

Lemma get_arg_fresh (w : Instruction.world V) (g : Instruction.t) (x : V)
    (k m i : nat) :
  aligned w -> Instruction.idx g = Instruction.INDEX w ->
  Instruction.get_arg
    (Instruction.mkWorld k (fresh (Instruction.pmap w) (repeat x m))) g i
  = if i <? m then Ok (Some x) else Err IndexError.
Proof.
  intros Haligned Hg. unfold aligned in Haligned.
  unfold Instruction.get_arg, Instruction.args.
  cbn [Instruction.pmap]. rewrite Hg, Haligned, get_fresh_new.
  cbn [rbind]. rewrite py_index_repeat.
  destruct (i <? m); reflexivity.
Qed.

(** X14: a gate created on a list of qubits with one number as argument
    and no positions always comes into being while the counter names the
    next entry of the store: the number is stored once per qubit,
    [get_arg(i)] returns it for every qubit [i] of the gate and raises
    [IndexError] past the last one, and the arguments of every earlier
    instruction are unchanged. *)
Theorem gate_scalar_argument (w : Instruction.world V) (name : string)
    (qubits : list (option Bit)) (con : option (list (option Bit)))
    (x : V) (n trigger : nat) (Haligned : aligned w) :
  exists g w',
    Instruction.Gate w name (Some qubits) con
      (Some (ParameterMap.Scalar x)) None n trigger = (Ok g, w')
    /\ aligned w'
    /\ ParameterMap.params (Instruction.pmap w')
       = ParameterMap.params (Instruction.pmap w)
         ++ repeat x (length qubits)
    /\ (forall i, i < length qubits ->
          Instruction.get_arg w' g i = Ok (Some x))
    /\ Instruction.get_arg w' g (length qubits) = Err IndexError
    /\ forall g0 v, Instruction.args w g0 = Ok v ->
                    Instruction.args w' g0 = Ok v.
Proof.
  eexists. eexists. split; [apply gate_scalar_eq |].
  split.
  - unfold aligned, fresh in *.
    cbn [Instruction.pmap Instruction.INDEX ParameterMap.indices].
    rewrite length_app, Haligned. cbn [length]. lia.
  - split; [reflexivity |].
    split.
    + intros i Hi. rewrite get_arg_fresh by (exact Haligned || reflexivity).
      replace (i <? length qubits) with true
        by (symmetry; apply Nat.ltb_lt; exact Hi).
      reflexivity.
    + split.
      * rewrite get_arg_fresh by (exact Haligned || reflexivity).
        rewrite Nat.ltb_irrefl. reflexivity.
      * intros g0 v. unfold Instruction.args. cbn [Instruction.pmap].
        apply get_fresh_old.
Qed.

Lemma getitem_setitem_pool (pool pool' : list V) (p q : nat) (theta : V) :
  py_assign pool p theta = Ok pool' ->
  py_index pool' q = if q =? p then Ok theta else py_index pool q.
Proof.
  intros H. apply py_assign_nth_error in H. destruct H as (_ & H).
  unfold py_index. rewrite H. destruct (q =? p); reflexivity.
Qed.

Lemma mapM_py_index_setitem (pool pool' : list V) (p : nat) (theta : V)
    (l : list nat) (vs : list V) :
  py_assign pool p theta = Ok pool' ->
  mapM (py_index pool) l = Ok vs ->
  mapM (py_index pool') l
  = Ok (map (fun qv => if fst qv =? p then theta else snd qv)
            (combine l vs)).
Proof.
  intros Hset. revert vs. induction l as [| q l IH]; intros vs H.
  - reflexivity.
  - cbn [mapM] in *. rewrite (@getitem_setitem_pool _ _ _ q _ Hset).
    destruct (py_index pool q) as [v |] eqn:Eq; [| discriminate].
    destruct (mapM (py_index pool) l) as [vs' |]; [| discriminate].
    inversion H. subst vs. rewrite (IH vs' eq_refl). cbn [combine map fst snd].
    destruct (q =? p); reflexivity.
Qed.

(** X15: [pmap[p] = theta], the assignment behind [Circuit.set_param],
    with a position inside the pool changes that one value: the other pool
    values and all entries stay, and an entry that resolved to values
    before resolves to the same values afterwards except at its slots that
    hold the position [p], which give [theta]. *)
Theorem setitem_changes_linked_slots (self : ParameterMap.t V) (p : nat)
    (theta : V) (Hp : p < length (ParameterMap.params self)) :
  exists self',
    ParameterMap.setitem self p theta = (Ok tt, self')
    /\ ParameterMap.indices self' = ParameterMap.indices self
    /\ (forall q, ParameterMap.getitem self' q
                  = if q =? p then Ok theta else ParameterMap.getitem self q)
    /\ forall i l vs,
         nth_error (ParameterMap.indices self) i
         = Some (Some (ParameterMap.Positions l)) ->
         ParameterMap.get self i = Ok (Some vs) ->
         ParameterMap.get self' i
         = Ok (Some (map (fun qv => if fst qv =? p then theta else snd qv)
                         (combine l vs))).
Proof.
  unfold ParameterMap.setitem.
  destruct (py_assign_lt (ParameterMap.params self) theta Hp)
    as (pool' & Hset).
  rewrite Hset. eexists. split; [reflexivity |].
  cbn [ParameterMap.indices]. split; [reflexivity |].
  split.
  - intros q. unfold ParameterMap.getitem. cbn [ParameterMap.params].
    apply getitem_setitem_pool. exact Hset.
  - intros i l vs Hi. unfold ParameterMap.get.
    cbn [ParameterMap.indices ParameterMap.params].
    unfold py_index at 1 3. rewrite Hi. cbn [rbind].
    destruct (mapM (py_index (ParameterMap.params self)) l) as [vs' |] eqn:E;
      [| discriminate].
    cbn [rbind]. intros H. inversion H. subst vs'.
    rewrite (@mapM_py_index_setitem _ _ _ _ _ _ Hset E). reflexivity.
Qed.

(** X16: [pmap[p] = theta] with a position at or past the end of the pool
    raises [IndexError] and changes nothing: the pool is never extended
    this way. *)
Theorem setitem_out_of_range (self : ParameterMap.t V) (p : nat) (theta : V)
    (Hp : length (ParameterMap.params self) <= p) :
  ParameterMap.setitem self p theta = (Err IndexError, self).
Proof.
  unfold ParameterMap.setitem.
  destruct (py_assign (ParameterMap.params self) p theta) as [pool' | e] eqn:E.
  - apply py_assign_nth_error in E. destruct E as (Hlen & Hnth).
    specialize (Hnth p). rewrite Nat.eqb_refl in Hnth.
    assert (p < length pool') by (apply nth_error_Some; congruence). lia.
  - apply py_assign_Err in E. subst e. reflexivity.
Qed.

End GateArgument.

Lemma gate_scalar_argument_witness :
  exists g w',
    Instruction.Gate (Instruction.mkWorld 0 (ParameterMap.empty nat)) "Rx"
      (Some [Some (mkBit 0); Some (mkBit 1)]) None
      (Some (ParameterMap.Scalar 5)) None 1 1 = (Ok g, w')
    /\ ParameterMap.params (Instruction.pmap w') = [5; 5]
    /\ Instruction.get_arg w' g 1 = Ok (Some 5).
Proof.
  destruct (@gate_scalar_argument nat
              (Instruction.mkWorld 0 (ParameterMap.empty nat)) "Rx"
              [Some (mkBit 0); Some (mkBit 1)] None 5 1 1 eq_refl)
    as (g & w' & H & _ & Hp & Hget & _).
  exists g, w'. split; [exact H |]. split; [exact Hp |].
  apply Hget. simpl. lia.
Defined.

Lemma setitem_changes_linked_slots_witness :
  let self :=
    ParameterMap.mk [Some (ParameterMap.Positions [0; 1; 0])] [3; 4] in
  exists self',
    ParameterMap.setitem self 0 9 = (Ok tt, self')
    /\ ParameterMap.get self' 0 = Ok (Some [9; 4; 9]).
Proof.
  intros self.
  destruct (@setitem_changes_linked_slots nat self 0 9)
    as (self' & H & _ & _ & Hget); [simpl; lia |].
  exists self'. split; [exact H |].
  apply (Hget 0 [0; 1; 0] [3; 4; 3]); reflexivity.
Defined.

Lemma setitem_out_of_range_witness :
  ParameterMap.setitem (ParameterMap.mk [] [3; 4]) 2 9
  = (Err IndexError, ParameterMap.mk [] [3; 4]).
Proof.
  apply (@setitem_out_of_range nat (ParameterMap.mk [] [3; 4]) 2 9).
  simpl. lia.
Defined.

(** ** [instruction.py]: the dictionary of the gates *)

Lemma dict_get_update {A} (d : dict A) (key key' : string) (v : A) :
  dict_get (dict_update d key v) key'
  = if String.eqb key key' then Some v else dict_get d key'.
Proof.
  induction d as [| [k w] d IH]; cbn [dict_update dict_get].
  - reflexivity.
  - destruct (String.eqb k key) eqn:E.
    + apply String.eqb_eq in E. subst k. cbn [dict_get].
      destruct (String.eqb key key'); reflexivity.
    + cbn [dict_get]. rewrite IH.
      destruct (String.eqb k key') eqn:E'; [| reflexivity].
      apply String.eqb_eq in E'. subst k.
      destruct (String.eqb key key') eqn:E2; [| reflexivity].
      apply String.eqb_eq in E2. subst key'.
      rewrite String.eqb_refl in E. discriminate E.
Qed.

Lemma lower_ascii_idem (c : ascii) : lower_ascii (lower_ascii c) = lower_ascii c.
Proof.
  destruct c as [[] [] [] [] [] [] [] []]; vm_compute; reflexivity.
Qed.

Lemma lower_idem (s : string) : lower (lower s) = lower s.
Proof.
  induction s as [| c s IH]; [reflexivity |].
  cbn [lower]. rewrite lower_ascii_idem, IH. reflexivity.
Qed.

Lemma remove_char_prefix (c : ascii) (k : nat) (s : string) :
  remove_char c (repeat_char c k ++ s)%string = remove_char c s.
Proof.
  induction k as [| k IH]; [reflexivity |].
  cbn [repeat_char append remove_char]. rewrite Ascii.eqb_refl. exact IH.
Qed.

Section GateFacts.

Variable V : Type.
Variable cgate : list nat -> nat -> mat -> nat -> nat -> mat.
Variable single_gate : list nat -> list mat -> nat -> mat.

(** X17: a gate function registered by [add_custom_gate] is looked up
    under the lowercase form of the name asked for.  It is found by every
    spelling of its name when it was registered under a lowercase name;
    registered under a name with an uppercase letter it is found by no
    name at all, and every lookup gives what it gave before. *)
Theorem custom_gate_lookup (d : dict (Gate.gate_func V)) (name : string)
    (item : Gate.gate_func V) :
  (forall asked,
     Gate._get_gatefunc (Gate.add_custom_gate d name item) asked
     = if String.eqb name (lower asked) then Ok item
       else Gate._get_gatefunc d asked)
  /\ (lower name <> name ->
      forall asked,
        Gate._get_gatefunc (Gate.add_custom_gate d name item) asked
        = Gate._get_gatefunc d asked).
Proof.
  assert (H : forall asked,
     Gate._get_gatefunc (Gate.add_custom_gate d name item) asked
     = if String.eqb name (lower asked) then Ok item
       else Gate._get_gatefunc d asked).
  { intros asked. unfold Gate._get_gatefunc, Gate.add_custom_gate.
    rewrite dict_get_update.
    destruct (String.eqb name (lower asked)); reflexivity. }
  split; [exact H |].
  intros Hupper asked. rewrite H.
  destruct (String.eqb name (lower asked)) eqn:E; [| reflexivity].
  apply String.eqb_eq in E. exfalso. apply Hupper.
  rewrite E. apply lower_idem.
Qed.

(** X18: a gate with controls whose name is a run of the letter c in front
    of a name without that letter is built from the gate function of that
    name, the argument at position 0 and the first of its qubits only:
    further qubits and arguments of the gate are not read. *)
Theorem build_matrix_controlled (GATE_DICT : dict (Gate.gate_func V))
    (w : Instruction.world V) (self : Instruction.t) (n_qubits k : nat)
    (base : string) (f : option V -> mat) (arg : option V)
    (cn targets : list nat) (q : nat)
    (Hcon : Instruction.is_controlled self = true)
    (Hname : Instruction.name self = (repeat_char "c" k ++ base)%string)
    (Hbase : remove_char "c" base = base)
    (Hfunc : Gate._get_gatefunc GATE_DICT base = Ok (Gate.Unary f))
    (Harg : Instruction.get_arg w self 0 = Ok arg)
    (Hcn : Instruction.con_indices self = Ok (Some cn))
    (Hq : Instruction.qu_indices self = Ok (Some (q :: targets))) :
  Gate.build_matrix GATE_DICT cgate single_gate w self n_qubits
  = Ok (cgate cn q (f arg) n_qubits (Instruction.con_trigger self)).
Proof.
  unfold Gate.build_matrix. rewrite Hcon, Hname, remove_char_prefix, Hbase.
  rewrite Hfunc. cbn [rbind]. rewrite Harg. cbn [rbind Gate.call1].
  rewrite Hcn. cbn [rbind]. rewrite Hq. reflexivity.
Qed.

Lemma bit_indices_some (bits : list Bit) :
  Instruction.bit_indices (map Some bits) = Ok (map index bits).
Proof.
  unfold Instruction.bit_indices.
  induction bits as [| b bits IH]; [reflexivity |].
  cbn [map mapM]. rewrite IH. reflexivity.
Qed.

Lemma mapM_const {A B} (f : A -> result B) (l : list A) (b : B) :
  (forall a, In a l -> f a = Ok b) -> mapM f l = Ok (repeat b (length l)).
Proof.
  induction l as [| a l IH]; intros H; [reflexivity |].
  cbn [mapM length repeat]. rewrite (H a) by (left; reflexivity).
  rewrite IH by (intros a' Ha'; apply H; right; exact Ha'). reflexivity.
Qed.

(** X19: a gate of one-qubit operations created on a list of qubits with
    one number as argument, without controls, builds: its matrix is
    [single_gate] of the indices of its qubits and, for every qubit, the
    matrix its gate function gives for that number. *)
Theorem gate_scalar_builds (GATE_DICT : dict (Gate.gate_func V))
    (w : Instruction.world V) (name : string) (bits : list Bit) (x : V)
    (trigger n_qubits : nat) (f : option V -> mat)
    (Haligned : aligned w)
    (Hfunc : Gate._get_gatefunc GATE_DICT name = Ok (Gate.Unary f)) :
  exists g w',
    Instruction.Gate w name (Some (map Some bits)) None
      (Some (ParameterMap.Scalar x)) None 1 trigger = (Ok g, w')
    /\ Gate.build_matrix GATE_DICT cgate single_gate w' g n_qubits
       = Ok (single_gate (map index bits)
               (repeat (f (Some x)) (length bits)) n_qubits).
Proof.
  eexists. eexists. split; [apply gate_scalar_eq |].
  unfold Gate.build_matrix, Instruction.is_controlled, Instruction.qu_indices.
  cbn [Instruction.con Instruction.size Instruction.qubits].
  rewrite bit_indices_some. cbn [Nat.ltb Nat.leb rbind].
  rewrite (@mapM_const _ _ _ _ (f (Some x))).
  - rewrite length_seq, !length_map. reflexivity.
  - intros i Hi. apply in_seq in Hi. rewrite length_map in Hi.
    unfold Gate._qubit_gate_matrix.
    rewrite get_arg_fresh by (exact Haligned || reflexivity).
    rewrite length_map.
    replace (i <? length bits) with true
      by (symmetry; apply Nat.ltb_lt; lia).
    cbn [rbind Instruction.name]. rewrite Hfunc. reflexivity.
Qed.

End GateFacts.

Lemma build_matrix_controlled_witness :
  let cgate := fun (_ : list nat) (_ : nat) (m : mat) (_ _ : nat) => m in
  let single_gate := fun (_ : list nat) (_ : list mat) (_ : nat) => eye2 in
  let GATE_DICT := [("x"%string, Gate.Unary (fun _ : option nat => pauli_x))] in
  let w := Instruction.mkWorld 1 (ParameterMap.mk [None] []) in
  let self :=
    Instruction.mk 0 1 "cX" (Some [Some (mkBit 1); Some (mkBit 2)])
      (Some [Some (mkBit 0)]) None 1 Instruction.IsGate in
  Gate.build_matrix GATE_DICT cgate single_gate w self 3 = Ok pauli_x.
Proof.
  intros cgate single_gate GATE_DICT w self.
  apply (@build_matrix_controlled nat cgate single_gate GATE_DICT w self 3 1
           "X" (fun _ => pauli_x) None [0] [2] 1); reflexivity.
Defined.

Lemma gate_scalar_builds_witness :
  let cgate := fun (_ : list nat) (_ : nat) (m : mat) (_ _ : nat) => m in
  let single_gate :=
    fun (_ : list nat) (ms : list mat) (_ : nat) => kron ms in
  let GATE_DICT := [("x"%string, Gate.Unary (fun _ : option nat => pauli_x))] in
  let w := Instruction.mkWorld 0 (ParameterMap.empty nat) in
  exists g w',
    Instruction.Gate w "X" (Some [Some (mkBit 0); Some (mkBit 1)]) None
      (Some (ParameterMap.Scalar 5)) None 1 1 = (Ok g, w')
    /\ Gate.build_matrix GATE_DICT cgate single_gate w' g 2
       = Ok (kron [pauli_x; pauli_x]).
Proof.
  intros cgate single_gate GATE_DICT w.
  apply (@gate_scalar_builds nat cgate single_gate GATE_DICT w "X"
           [mkBit 0; mkBit 1] 5 1 2 (fun _ => pauli_x));
    reflexivity.
Defined.

(** ** [backends.py]: further methods of the class [StateVector] *)

Local Open Scope R_scope.

Module Backend.

(** [StateVector.project(idx, op)], for a non-negative [idx]. *)
Definition project (self : StateVector.t) (idx : nat) (op : mat)
    : result vec :=
  (parts <- py_assign (repeat eye2 (StateVector.n_qubits self)) idx op ;;
   a <- StateVector.the_amp self ;;
   np_dot (kron parts) a)%result.

(** What [apply_gate] may be given: an array or a [Gate] object. *)
Inductive gate_arg : Type :=
| Array (u : mat)
| Object (g : Instruction.t).

Section Gates.

Variable V : Type.
Variable GATE_DICT : dict (Gate.gate_func V).
Variable cgate : list nat -> nat -> mat -> nat -> nat -> mat.
Variable single_gate : list nat -> list mat -> nat -> mat.

(** [StateVector.apply_gate(gate)] *)
Definition apply_gate (w : Instruction.world V) (self : StateVector.t)
    (gate : gate_arg) : result unit * StateVector.t :=
  match
    match gate with
    | Array u => Ok u
    | Object g =>
        Gate.build_matrix GATE_DICT cgate single_gate w g
          (StateVector.n_qubits self)
    end
  with
  | Err e => (Err e, self)
  | Ok u => StateVector.apply_unitary self u
  end.

End Gates.

Section MeasureQubit.

(** [get_projector] of [utils.py], which is not among the sources, and the
    number [np.random.random()] returns. *)
Variable get_projector : vec -> mat.
Variable random : R.

(** The first lines of [measure_qubit]: the two eigenvectors and the
    eigenvalues.  [v0, v1 = eigvecs.T] raises [ValueError] unless the
    transposed array has two rows. *)
Definition eigenpair (eigvals : option (list R)) (eigvecs : option mat)
    : result (vec * vec * list R) :=
  match eigvals with
  | None => Ok (ZERO, ONE, [0; 1])
  | Some vals =>
      match eigvecs with
      | None => Err MissingEigenvectors
      | Some vecs =>
          match np_T vecs with
          | [v0; v1] => Ok (v0, v1, vals)
          | _ => Err ShapeError
          end
      end
  end.

(** [measure_qubit] up to the sampling: the projected state and the index
    of the outcome.  Nothing is written to [self] here. *)
Definition draw (self : StateVector.t) (idx : nat) (v0 v1 : vec)
    : result (vec * nat) :=
  (projected <- project self idx (get_projector v0) ;;
   a <- StateVector.the_amp self ;;
   let p0 := vdot (vconj a) projected in
   if Rgt_dec (Rabs (Cim p0)) (1 / 10 ^ 15) then Err ComplexProbability
   else
     let index := if Rgt_dec random (Cre p0) then 1%nat else 0%nat in
     projected <- (if Nat.eqb index 1%nat
                   then project self idx (get_projector v1)
                   else Ok projected) ;;
     Ok (projected, index))%result.

(** [StateVector.measure_qubit(qubit, eigvals=None, eigvecs=None,
    shadow=False)]: the state is written before the eigenvalue is looked
    up. *)
Definition measure_qubit (self : StateVector.t) (qubit : Qubit)
    (eigvals : option (list R)) (eigvecs : option mat) (shadow : bool)
    : result R * StateVector.t :=
  match eigenpair eigvals eigvecs with
  | Err e => (Err e, self)
  | Ok (v0, v1, vals) =>
      match draw self (index qubit) v0 v1 with
      | Err e => (Err e, self)
      | Ok (projected, i) =>
          let self' :=
            if negb shadow
            then StateVector.with_amp self (vdiv projected (norm projected))
            else self in
          match py_index vals i with
          | Ok val => (Ok val, self')
          | Err e => (Err e, self')
          end
      end
  end.

End MeasureQubit.

End Backend.

(** *** Properties of the further methods *)

Lemma py_assign_shape (parts parts' : list mat) (i : nat) (op : mat) :
  py_assign parts i op = Ok parts' ->
  Forall (shape 2 2) parts -> shape 2 2 op ->
  Forall (shape 2 2) parts' /\ length parts' = length parts.
Proof. intros H HF Hop. exact (@py_assign_Ok _ (shape 2 2) _ _ _ _ H HF Hop). Qed.

Lemma py_assign_past_end {A} (l : list A) (i : nat) (x : A) :
  (length l <= i)%nat -> py_assign l i x = Err IndexError.
Proof.
  intros H. destruct (py_assign l i x) as [l' | e] eqn:E.
  - apply py_assign_nth_error in E. destruct E as (Hlen & Hnth).
    specialize (Hnth i). rewrite Nat.eqb_refl in Hnth.
    assert (i < length l')%nat by (apply nth_error_Some; congruence). lia.
  - apply py_assign_Err in E. subst e. reflexivity.
Qed.

Lemma Forall_repeat_eye2 (k : nat) : Forall (shape 2 2) (repeat eye2 k).
Proof.
  apply Forall_forall. intros m Hm. apply repeat_spec in Hm. subst m.
  apply shape_eye2.
Qed.

Lemma project_Ok (self : StateVector.t) (idx : nat) (op : mat) (a : vec) :
  (idx < StateVector.n_qubits self)%nat -> shape 2 2 op ->
  StateVector.amp self = Some a ->
  length a = (2 ^ StateVector.n_qubits self)%nat ->
  exists parts,
    py_assign (repeat eye2 (StateVector.n_qubits self)) idx op = Ok parts
    /\ Backend.project self idx op
       = Ok (map (fun row => vdot row a) (kron parts))
    /\ length (kron parts) = (2 ^ StateVector.n_qubits self)%nat.
Proof.
  intros Hidx Hop Hamp Hlen. unfold Backend.project.
  destruct (@py_assign_lt _ (repeat eye2 (StateVector.n_qubits self)) idx op)
    as (parts & Hparts); [rewrite repeat_length; exact Hidx |].
  exists parts. split; [exact Hparts |]. rewrite Hparts. cbn [rbind].
  unfold StateVector.the_amp. rewrite Hamp. cbn [rbind].
  destruct (@py_assign_shape _ _ _ _ Hparts (Forall_repeat_eye2 _) Hop)
    as (HF & Hl).
  rewrite repeat_length in Hl.
  pose proof (shape_kron HF) as Hk. rewrite Hl in Hk.
  split.
  - apply (@np_dot_shape _ _ _ _ Hk). exact Hlen.
  - destruct Hk as [Hrows _]. exact Hrows.
Qed.

(** X21: [project(idx, op)] raises [IndexError] when [idx] is not the
    index of a qubit of the engine, before the state is read.  For a qubit
    of the engine and an operator of two rows and two columns, on an
    engine that holds 2^n coefficients, it returns a vector of 2^n
    entries. *)
Theorem project_length (self : StateVector.t) (idx : nat) (op : mat) :
  ((StateVector.n_qubits self <= idx)%nat ->
   Backend.project self idx op = Err IndexError)
  /\ ((idx < StateVector.n_qubits self)%nat -> shape 2 2 op ->
      well_formed self ->
      exists v, Backend.project self idx op = Ok v
                /\ length v = (2 ^ StateVector.n_qubits self)%nat).
Proof.
  split.
  - intros H. unfold Backend.project.
    rewrite py_assign_past_end by (rewrite repeat_length; exact H).
    reflexivity.
  - intros Hidx Hop (a & Hamp & Hlen & _).
    destruct (@project_Ok self idx op a Hidx Hop Hamp Hlen) as (parts & _ & Hp & Hk).
    eexists. split; [exact Hp |]. rewrite length_map. exact Hk.
Qed.

Section BackendGates.

Variable V : Type.
Variable GATE_DICT : dict (Gate.gate_func V).
Variable cgate : list nat -> nat -> mat -> nat -> nat -> mat.
Variable single_gate : list nat -> list mat -> nat -> mat.

(** X22: [apply_gate] with a [Gate] object builds the matrix of the gate
    for the qubits of the engine and applies it; when the gate does not
    build, the error is passed on and the engine is unchanged.  A
    normalised engine stays normalised when the matrix given or built is
    unitary of the dimension of the engine. *)
Theorem apply_gate_normalised (w : Instruction.world V)
    (self : StateVector.t) (gate : Backend.gate_arg)
    (Hnorm : normalised self)
    (Hunitary :
       match gate with
       | Backend.Array u => unitary (StateVector.n self) u
       | Backend.Object g =>
           forall u,
             Gate.build_matrix GATE_DICT cgate single_gate w g
               (StateVector.n_qubits self) = Ok u ->
             unitary (StateVector.n self) u
       end) :
  match gate with
  | Backend.Array u =>
      Backend.apply_gate GATE_DICT cgate single_gate w self gate
      = StateVector.apply_unitary self u
  | Backend.Object g =>
      match Gate.build_matrix GATE_DICT cgate single_gate w g
              (StateVector.n_qubits self) with
      | Ok u =>
          Backend.apply_gate GATE_DICT cgate single_gate w self gate
          = StateVector.apply_unitary self u
      | Err e =>
          Backend.apply_gate GATE_DICT cgate single_gate w self gate
          = (Err e, self)
      end
  end
  /\ match Backend.apply_gate GATE_DICT cgate single_gate w self gate with
     | (Ok _, self') => normalised self'
     | (Err _, self') => self' = self
     end.
Proof.
  unfold Backend.apply_gate. destruct gate as [u | g].
  - split; [reflexivity |].
    destruct (@apply_unitary_normalised self u Hnorm Hunitary) as (self' & H & Hn).
    rewrite H. exact Hn.
  - destruct (Gate.build_matrix GATE_DICT cgate single_gate w g
                (StateVector.n_qubits self)) as [u | e].
    + split; [reflexivity |].
      destruct (@apply_unitary_normalised self u Hnorm (Hunitary u eq_refl))
        as (self' & H & Hn).
      rewrite H. exact Hn.
    + split; reflexivity.
Qed.

End BackendGates.

Lemma apply_gate_normalised_witness :
  let single_gate :=
    fun (_ : list nat) (ms : list mat) (_ : nat) => nth 0 ms eye2 in
  let cgate := fun (_ : list nat) (_ : nat) (m : mat) (_ _ : nat) => m in
  let GATE_DICT := [("x"%string, Gate.Unary (fun _ : option nat => pauli_x))] in
  let w := Instruction.mkWorld 1 (ParameterMap.mk [None] []) in
  let g :=
    Instruction.mk 0 1 "X" (Some [Some (mkBit 0)]) None None 1
      Instruction.IsGate in
  match Backend.apply_gate GATE_DICT cgate single_gate w engine1
          (Backend.Object g) with
  | (Ok _, self') => normalised self'
  | (Err _, self') => self' = engine1
  end.
Proof.
  intros single_gate cgate GATE_DICT w g.
  apply (@apply_gate_normalised nat GATE_DICT cgate single_gate w engine1
           (Backend.Object g) normalised_engine1).
  intros u Hu. cbv in Hu. inversion Hu. exact unitary_pauli_x.
Defined.

(** ** [backends.py]: measuring one qubit *)

(** The projected state and the probability of the outcome with the
    eigenvector [v] when the qubit [idx] is measured. *)
Definition qubit_outcome (get_projector : vec -> mat) (self : StateVector.t)
    (idx : nat) (v : vec) : result (vec * C) :=
  (projected <- Backend.project self idx (get_projector v) ;;
   a <- StateVector.the_amp self ;;
   Ok (projected, vdot (vconj a) projected))%result.

Section MeasureQubitFacts.

Variable get_projector : vec -> mat.

Lemma qubit_outcome_Ok (self : StateVector.t) (idx : nat) (v : vec) :
  well_formed self -> projector_ok get_projector ->
  (idx < StateVector.n_qubits self)%nat -> length v = 2%nat ->
  exists projected a,
    Backend.project self idx (get_projector v) = Ok projected
    /\ StateVector.amp self = Some a
    /\ length projected = StateVector.n self
    /\ qubit_outcome get_projector self idx v
       = Ok (projected, vdot (vconj a) projected).
Proof.
  intros (a & Hamp & Hlen & Hn) Hgp Hidx Hv.
  destruct (@project_Ok self idx (get_projector v) a Hidx (Hgp v Hv) Hamp Hlen)
    as (parts & _ & Hp & Hk).
  eexists. exists a. split; [exact Hp |]. split; [exact Hamp |].
  split; [rewrite length_map, Hk, Hn; reflexivity |].
  unfold qubit_outcome. rewrite Hp. cbn [rbind].
  unfold StateVector.the_amp. rewrite Hamp. reflexivity.
Qed.

(** One round of [measure] on a single qubit computes what
    [measure_qubit] computes for that outcome. *)
Lemma projection_single (self : StateVector.t) (em : mat) (q : Qubit)
    (r : nat) (v : vec) :
  nth_error em r = Some v ->
  StateVector.projection get_projector self em [q] [r]
  = qubit_outcome get_projector self (index q) v.
Proof.
  intros Hv. unfold StateVector.projection, qubit_outcome, Backend.project.
  cbn [combine StateVector.build_parts]. unfold py_index at 1. rewrite Hv.
  cbn [rbind].
  destruct (py_assign (repeat eye2 (StateVector.n_qubits self)) (index q)
              (get_projector v)) as [parts |]; [| reflexivity].
  cbn [rbind].
  destruct (StateVector.the_amp self) as [a |]; [| reflexivity].
  cbn [rbind].
  destruct (np_dot (kron parts) a) as [projected |]; reflexivity.
Qed.

End MeasureQubitFacts.

Section MeasureQubitAgrees.

Variable get_projector : vec -> mat.
Variable random_choice : nat -> list R -> option nat.
Variable random : R.

Lemma eigenpair_eigenbasis (eigvals : option (list R))
    (eigvecs : option mat) (v0 v1 : vec) (vals : list R) :
  Backend.eigenpair eigvals eigvecs = Ok (v0, v1, vals) ->
  StateVector.eigenbasis eigvals eigvecs = Ok (vals, [v0; v1]).
Proof.
  unfold Backend.eigenpair, StateVector.eigenbasis.
  destruct eigvals as [vals' |].
  - destruct eigvecs as [vecs |]; [| discriminate].
    destruct (np_T vecs) as [| a [| b [| c l]]]; try discriminate.
    intros H. inversion H. reflexivity.
  - intros H. inversion H. reflexivity.
Qed.

(** What a collapsing [measure_qubit] with eigenvalues and eigenvectors
    does when both outcomes have a projected state and the probability of
    the first one is real: the state is written, and the outcome of the
    call is the outcome of the lookup of the eigenvalue. *)
Lemma measure_qubit_eq (self : StateVector.t) (q : Qubit)
    (eigvals : option (list R)) (eigvecs : option mat) (vals : list R)
    (v0 v1 projected0 projected1 a : vec) :
  Backend.eigenpair eigvals eigvecs = Ok (v0, v1, vals) ->
  StateVector.amp self = Some a ->
  Backend.project self (index q) (get_projector v0) = Ok projected0 ->
  Backend.project self (index q) (get_projector v1) = Ok projected1 ->
  Rabs (Cim (vdot (vconj a) projected0)) <= 1 / 10 ^ 15 ->
  Backend.measure_qubit get_projector random self q eigvals eigvecs false
  = if Rgt_dec random (Cre (vdot (vconj a) projected0))
    then (py_index vals 1,
          StateVector.with_amp self (vdiv projected1 (norm projected1)))
    else (py_index vals 0,
          StateVector.with_amp self (vdiv projected0 (norm projected0))).
Proof.
  intros Hpair Hamp H0 H1 Hreal.
  unfold Backend.measure_qubit. rewrite Hpair.
  unfold Backend.draw. rewrite H0. cbn [rbind].
  unfold StateVector.the_amp. rewrite Hamp. cbn [rbind].
  destruct (Rgt_dec (Rabs (Cim (vdot (vconj a) projected0))) (1 / 10 ^ 15))
    as [Hc | _]; [lra |].
  destruct (Rgt_dec random (Cre (vdot (vconj a) projected0))) as [Hgt | Hle].
  - cbn [Nat.eqb]. rewrite H1. cbn [rbind negb].
    destruct (py_index vals 1); reflexivity.
  - cbn [Nat.eqb rbind negb].
    destruct (py_index vals 0); reflexivity.
Qed.

(** X23: [measure_qubit] looks the eigenvalue up after it has written the
    state, [measure] before.  With fewer than two eigenvalues, real
    probabilities and the second outcome drawn, both raise [IndexError]:
    after [measure_qubit] the engine holds the state projected on the
    second eigenvector, after [measure] the engine is as it was. *)
Theorem measure_qubit_raises_after_write (self : StateVector.t) (q : Qubit)
    (vals : list R) (vecs : mat) (v0 v1 projected0 projected1 : vec)
    (a : vec) (snapshot : bool)
    (Hvals : (length vals < 2)%nat)
    (Hvecs : np_T vecs = [v0; v1])
    (Hamp : StateVector.amp self = Some a)
    (H0 : Backend.project self (index q) (get_projector v0) = Ok projected0)
    (H1 : Backend.project self (index q) (get_projector v1) = Ok projected1)
    (Hl0 : length projected0 = StateVector.n self)
    (Hl1 : length projected1 = StateVector.n self)
    (Hreal0 : Rabs (Cim (vdot (vconj a) projected0)) <= 1 / 10 ^ 15)
    (Hreal1 : Rabs (Cim (vdot (vconj a) projected1)) <= 1 / 10 ^ 15)
    (Hdraw : random > Cre (vdot (vconj a) projected0))
    (Hchoice : random_choice 2 [Cre (vdot (vconj a) projected0);
                                Cre (vdot (vconj a) projected1)]
               = Some 1%nat) :
  Backend.measure_qubit get_projector random self q (Some vals) (Some vecs)
    false
  = (Err IndexError,
     StateVector.with_amp self (vdiv projected1 (norm projected1)))
  /\ StateVector.measure get_projector random_choice self (StateVector.One q)
       (Some vals) (Some vecs) false snapshot
     = (Err IndexError, self).
Proof.
  assert (Hpair : Backend.eigenpair (Some vals) (Some vecs)
                  = Ok (v0, v1, vals))
    by (unfold Backend.eigenpair; rewrite Hvecs; reflexivity).
  assert (Hlookup : py_index vals 1 = Err IndexError).
  { unfold py_index.
    destruct (nth_error vals 1) as [x |] eqn:E; [| reflexivity].
    assert (1 < length vals)%nat by (apply nth_error_Some; congruence).
    lia. }
  split.
  - rewrite (@measure_qubit_eq self q _ _ _ _ _ _ _ _ Hpair Hamp H0 H1 Hreal0).
    destruct (Rgt_dec random (Cre (vdot (vconj a) projected0)))
      as [_ | Hn]; [| contradiction].
    rewrite Hlookup. reflexivity.
  - assert (Hpr0 : StateVector.projection get_projector self [v0; v1] [q]
                     [0%nat]
                   = Ok (projected0, vdot (vconj a) projected0)).
    { rewrite (@projection_single get_projector self [v0; v1] q 0 v0 eq_refl).
      unfold qubit_outcome. rewrite H0. cbn [rbind].
      unfold StateVector.the_amp. rewrite Hamp. reflexivity. }
    assert (Hpr1 : StateVector.projection get_projector self [v0; v1] [q]
                     [1%nat]
                   = Ok (projected1, vdot (vconj a) projected1)).
    { rewrite (@projection_single get_projector self [v0; v1] q 1 v1 eq_refl).
      unfold qubit_outcome. rewrite H1. cbn [rbind].
      unfold StateVector.the_amp. rewrite Hamp. reflexivity. }
    unfold StateVector.measure, StateVector.sample.
    rewrite (@eigenpair_eigenbasis _ _ _ _ _ Hpair).
    cbn [rbind StateVector.as_list length].
    change (StateVector.product01 1) with [[0%nat]; [1%nat]].
    cbn [StateVector.outcomes].
    rewrite (@outcome_cases get_projector self _ _ _ _ _ Hpr0 Hl0).
    rewrite (@outcome_cases get_projector self _ _ _ _ _ Hpr1 Hl1).
    destruct (Rgt_dec (Rabs (Cim (vdot (vconj a) projected0)))
                (1 / 10 ^ 15)) as [Hc | _]; [lra |].
    destruct (Rgt_dec (Rabs (Cim (vdot (vconj a) projected1)))
                (1 / 10 ^ 15)) as [Hc | _]; [lra |].
    cbn [rbind length]. rewrite Hchoice. cbn [rbind].
    change (py_index [[0%nat]; [1%nat]] 1) with (Ok (A:=list nat) [1%nat]).
    cbn [rbind mapM]. rewrite Hlookup. reflexivity.
Qed.

(** X24: on a single qubit [measure] (without snapshot) and
    [measure_qubit] agree.  For an engine that holds 2^n coefficients, a
    qubit of the engine, two eigenvectors of two entries and two
    eigenvalues at least, both outcomes have a projected state and a
    probability; when both probabilities are real and numpy draws the
    outcome [measure_qubit] draws, the two calls return the same
    eigenvalue and leave the same engine. *)
Theorem measure_qubit_agrees_with_measure (self : StateVector.t) (q : Qubit)
    (eigvals : option (list R)) (eigvecs : option mat) (v0 v1 : vec)
    (vals : list R) (shadow : bool)
    (Hwf : well_formed self)
    (Hgp : projector_ok get_projector)
    (Hq : (index q < StateVector.n_qubits self)%nat)
    (Hpair : Backend.eigenpair eigvals eigvecs = Ok (v0, v1, vals))
    (Hv0 : length v0 = 2%nat) (Hv1 : length v1 = 2%nat)
    (Hvals : (2 <= length vals)%nat) :
  exists projected0 p0 projected1 p1,
    qubit_outcome get_projector self (index q) v0 = Ok (projected0, p0)
    /\ qubit_outcome get_projector self (index q) v1 = Ok (projected1, p1)
    /\ (Rabs (Cim p0) <= 1 / 10 ^ 15 ->
        Rabs (Cim p1) <= 1 / 10 ^ 15 ->
        random_choice 2 [Cre p0; Cre p1]
        = Some (if Rgt_dec random (Cre p0) then 1%nat else 0%nat) ->
        exists val self',
          StateVector.measure get_projector random_choice self
            (StateVector.One q) eigvals eigvecs shadow false
          = (Ok [val], self')
          /\ Backend.measure_qubit get_projector random self q eigvals
               eigvecs shadow
             = (Ok val, self')).
Proof.
  destruct (@qubit_outcome_Ok get_projector self (index q) v0 Hwf Hgp Hq Hv0)
    as (projected0 & a & Hp0 & Hamp & Hl0 & Ho0).
  destruct (@qubit_outcome_Ok get_projector self (index q) v1 Hwf Hgp Hq Hv1)
    as (projected1 & a' & Hp1 & Hamp' & Hl1 & Ho1).
  assert (a' = a) by congruence. subst a'.
  set (p0 := vdot (vconj a) projected0) in *.
  set (p1 := vdot (vconj a) projected1) in *.
  exists projected0, p0, projected1, p1.
  split; [exact Ho0 |]. split; [exact Ho1 |].
  intros Hr0 Hr1 Hdraw.
  pose proof (eigenpair_eigenbasis _ _ Hpair) as Hbasis.
  assert (Hpr0 : StateVector.projection get_projector self [v0; v1] [q] [0%nat]
                 = Ok (projected0, p0))
    by (rewrite (@projection_single get_projector self [v0; v1] q 0 v0 eq_refl);
        exact Ho0).
  assert (Hpr1 : StateVector.projection get_projector self [v0; v1] [q] [1%nat]
                 = Ok (projected1, p1))
    by (rewrite (@projection_single get_projector self [v0; v1] q 1 v1 eq_refl);
        exact Ho1).
  assert (Hout : StateVector.outcomes get_projector self [v0; v1] [q]
                   [[0%nat]; [1%nat]]
                 = Ok ([projected0; projected1], [Cre p0; Cre p1])).
  { cbn [StateVector.outcomes].
    rewrite (@outcome_cases get_projector self _ _ _ _ _ Hpr0 Hl0).
    rewrite (@outcome_cases get_projector self _ _ _ _ _ Hpr1 Hl1).
    destruct (Rgt_dec (Rabs (Cim p0)) (1 / 10 ^ 15)) as [Hc | _]; [lra |].
    destruct (Rgt_dec (Rabs (Cim p1)) (1 / 10 ^ 15)) as [Hc | _]; [lra |].
    reflexivity. }
  destruct (nth_error vals 0) as [e0 |] eqn:E0;
    [| apply nth_error_None in E0; lia].
  destruct (nth_error vals 1) as [e1 |] eqn:E1;
    [| apply nth_error_None in E1; lia].
  assert (Hi0 : py_index vals 0 = Ok e0)
    by (unfold py_index; rewrite E0; reflexivity).
  assert (Hi1 : py_index vals 1 = Ok e1)
    by (unfold py_index; rewrite E1; reflexivity).
  assert (Hres0 : py_index [[0%nat]; [1%nat]] 0 = Ok [0%nat]) by reflexivity.
  assert (Hres1 : py_index [[0%nat]; [1%nat]] 1 = Ok [1%nat]) by reflexivity.
  assert (Hrow0 : py_index [projected0; projected1] 0 = Ok projected0)
    by reflexivity.
  assert (Hrow1 : py_index [projected0; projected1] 1 = Ok projected1)
    by reflexivity.
  unfold StateVector.measure, StateVector.sample, Backend.measure_qubit.
  rewrite Hbasis, Hpair. cbn [rbind StateVector.as_list length].
  change (StateVector.product01 1) with [[0%nat]; [1%nat]].
  rewrite Hout. cbn [rbind length]. rewrite Hdraw.
  unfold Backend.draw. rewrite Hp0. cbn [rbind].
  unfold StateVector.the_amp. rewrite Hamp. cbn [rbind]. fold p0.
  destruct (Rgt_dec (Rabs (Cim p0)) (1 / 10 ^ 15)) as [Hc | _]; [lra |].
  destruct (Rgt_dec random (Cre p0)) as [Hgt | Hle].
  - cbn [rbind Nat.eqb]. rewrite Hres1. cbn [rbind mapM].
    rewrite Hi1, Hp1. cbn [rbind]. rewrite ?Hi1, ?Hrow1.
    destruct shadow; cbn [negb]; eexists; eexists; split; reflexivity.
  - cbn [rbind Nat.eqb]. rewrite Hres0. cbn [rbind mapM].
    rewrite Hi0. cbn [rbind]. rewrite ?Hi0, ?Hrow0.
    destruct shadow; cbn [negb]; eexists; eexists; split; reflexivity.
Qed.

End MeasureQubitAgrees.

(** The two outcomes of a measurement of the qubit of the state
    (3/5, 4/5) in the computational basis. *)
Lemma project_engine_34 :
  Backend.project engine_34 0 (ket_bra [RtoC 1; RtoC 0])
  = Ok [RtoC (3 / 5); RtoC 0]
  /\ Backend.project engine_34 0 (ket_bra [RtoC 0; RtoC 1])
     = Ok [RtoC 0; RtoC (4 / 5)].
Proof.
  split; cbn; unfold Cadd, Cmul, Cconj, RtoC; cbn [fst snd];
    (f_equal; f_equal; [| f_equal]); apply C_eq; field.
Qed.

(** [measure_qubit_raises_after_write] at the state (3/5, 4/5), measured
    in the computational basis with the one eigenvalue 7, the draw 1/2
    above the probability 9/25 of the first outcome: [measure_qubit]
    raises and leaves the state (0, 1), [measure] raises and leaves the
    state (3/5, 4/5). *)
Lemma measure_qubit_raises_after_write_witness :
  exists self',
    Backend.measure_qubit ket_bra (1 / 2) engine_34 (mkBit 0) (Some [7])
      (Some eye2) false
    = (Err IndexError, self')
    /\ StateVector.amp self' = Some [RtoC 0; RtoC 1]
    /\ StateVector.measure ket_bra draw_second engine_34
         (StateVector.One (mkBit 0)) (Some [7]) (Some eye2) false true
       = (Err IndexError, engine_34).
Proof.
  destruct project_engine_34 as (E0 & E1).
  destruct (@measure_qubit_raises_after_write ket_bra draw_second (1 / 2)
              engine_34 (mkBit 0) [7] eye2 [RtoC 1; RtoC 0] [RtoC 0; RtoC 1]
              [RtoC (3 / 5); RtoC 0] [RtoC 0; RtoC (4 / 5)]
              [RtoC (3 / 5); RtoC (4 / 5)] true)
    as (Hq & Hm).
  - simpl. lia.
  - reflexivity.
  - reflexivity.
  - exact E0.
  - exact E1.
  - reflexivity.
  - reflexivity.
  - cbn. match goal with
         | |- Rabs ?x <= _ => replace x with 0 by ring
         end.
    rewrite Rabs_R0. lra.
  - cbn. match goal with
         | |- Rabs ?x <= _ => replace x with 0 by ring
         end.
    rewrite Rabs_R0. lra.
  - cbn. match goal with
         | |- _ > ?x => replace x with (9 / 25) by field
         end.
    lra.
  - reflexivity.
  - eexists. split; [exact Hq |]. split; [| exact Hm].
    cbn [StateVector.amp StateVector.with_amp]. rewrite norm_0_45.
    unfold vdiv, Cdiv_real, RtoC. cbn [map fst snd].
    replace (0 / (4 / 5)) with 0 by field.
    replace (4 / 5 / (4 / 5)) with 1 by field.
    reflexivity.
Defined.

Lemma measure_qubit_agrees_with_measure_witness :
  exists val self',
    StateVector.measure ket_bra first_nonzero engine1
      (StateVector.One (mkBit 0)) None None false false
    = (Ok [val], self')
    /\ Backend.measure_qubit ket_bra (1 / 2) engine1 (mkBit 0) None
         None false
       = (Ok val, self').
Proof.
  destruct (@measure_qubit_agrees_with_measure ket_bra first_nonzero (1 / 2)
              engine1 (mkBit 0) None None ZERO ONE [0; 1] false
              (initialised_well_formed initialised_engine1) shape_ket_bra)
    as (projected0 & p0 & projected1 & p1 & H0 & H1 & H);
    [simpl; lia | reflexivity | reflexivity | reflexivity | simpl; lia |].
  cbn in H0, H1. inversion H0. inversion H1. subst. clear H0 H1.
  assert (Hbound : 0 <= 1 / 10 ^ 15)
    by (apply Rlt_le, Rdiv_lt_0_compat; [lra | apply pow_lt; lra]).
  apply H.
  - cbn. match goal with
         | |- Rabs ?x <= _ => replace x with 0 by ring
         end.
    rewrite Rabs_R0. exact Hbound.
  - cbn. match goal with
         | |- Rabs ?x <= _ => replace x with 0 by ring
         end.
    rewrite Rabs_R0. exact Hbound.
  - cbn.
    match goal with
    | |- context [Rgt_dec ?r ?x] =>
        replace x with 1 by ring; destruct (Rgt_dec r 1) as [Hgt | _]
    end; [lra |].
    match goal with
    | |- context [Req_EM_T ?x 0] => destruct (Req_EM_T x 0) as [Hz | _]
    end; [exfalso; lra | reflexivity].
Defined.

(** ** [circuit.py] and [instruction.py]: the basis of a measurement *)

(** X25: [Circuit.measure] with a basis always raises the error of the
    missing eigenvectors and leaves the backend as it is, whatever the
    qubits, the state and the basis are: the basis reaches
    [StateVector.measure] as its eigenvalues, without eigenvectors. *)
Theorem circuit_measure_basis_raises (get_projector : vec -> mat)
    (random_choice : nat -> list R -> option nat)
    (backend : StateVector.t) (qs : list Qubit) (basis : list R) :
  Circuit.measure get_projector random_choice backend qs (Some basis)
  = (Err MissingEigenvectors, backend).
Proof. reflexivity. Qed.

Section BasisFacts.

Variable V : Type.
Variable repr : V -> string.
Variable float_of_str : string -> result V.

(** The instruction [self] with another class. *)
Definition with_cls (self : Instruction.t) (c : Instruction.kind)
    : Instruction.t :=
  Instruction.mk (Instruction.idx self) (Instruction.size self)
    (Instruction.name self) (Instruction.qubits self)
    (Instruction.con self) (Instruction.clbits self)
    (Instruction.con_trigger self) c.

Lemma init_cls (w w' : Instruction.world V) (c : Instruction.kind)
    (name : string) (qubits con clbits : option (list (option Bit)))
    (n : nat) (arg : option (ParameterMap.argument V))
    (argidx : option ParameterMap.positions) (trigger : nat)
    (inst : Instruction.t) :
  Instruction.init w c name qubits con clbits n arg argidx trigger
  = (Ok inst, w') ->
  Instruction.cls inst = c.
Proof.
  unfold Instruction.init.
  destruct (ParameterMap.add _ arg argidx) as [[u | e] pm]; intros H;
    inversion H. reflexivity.
Qed.

(** X26: the text format does not carry the basis of a measurement.  The
    text of an instruction does not depend on its class or basis, and an
    instruction read from a text is a gate or a measurement without
    basis: a measurement in the x or y basis comes back as a measurement
    in the computational basis. *)
Theorem text_drops_basis :
  (forall (w : Instruction.world V) (self : Instruction.t)
          (c : Instruction.kind) (delim : string),
     Instruction.to_string repr w (with_cls self c) delim
     = Instruction.to_string repr w self delim)
  /\ (forall (w w' : Instruction.world V) (text delim : string)
             (qubit_list : list Qubit) (clbit_list : list Clbit)
             (inst : Instruction.t),
        Instruction.from_string float_of_str w text qubit_list clbit_list
          delim = (Ok inst, w') ->
        Instruction.cls inst = Instruction.IsGate
        \/ Instruction.cls inst = Instruction.IsMeasurement None).
Proof.
  split.
  - reflexivity.
  - intros w w' text delim qubit_list clbit_list inst.
    unfold Instruction.from_string.
    match goal with
    | |- match ?r with _ => _ end = _ -> _ => destruct r as [parsed | e]
    end; [| discriminate].
    destruct parsed as [[[[[name qubits] con] clbits] arg] argidx].
    destruct (String.eqb (lower name) "m").
    + unfold Instruction.Measurement. intros H.
      apply init_cls in H. right. exact H.
    + unfold Instruction.Gate.
      match goal with
      | |- match Instruction.init ?a ?b ?c ?d ?e ?f ?g ?h ?i ?j with
           | _ => _ end = _ -> _ =>
          destruct (Instruction.init a b c d e f g h i j)
            as [[g0 | e0] w0] eqn:E
      end; [| discriminate].
      apply init_cls in E.
      destruct con as [cs |]; intros H; inversion H; subst; left;
        [cbn [Instruction.cls]; exact E | exact E].
Qed.

End BasisFacts.

(** * The invariant of the engine: every operation that writes the state *)

Lemma vdiv_zero_norm (v : vec) (r : R) : norm v = 0 -> vdiv v r = v.
Proof.
  intros Hn.
  assert (Hs : Rsum (map Cabs2 v) = 0)
    by (rewrite <- norm_sqr, Hn; ring).
  clear Hn. induction v as [| z v IH]; [reflexivity |].
  rewrite map_cons, Rsum_cons in Hs.
  pose proof (Cabs2_nonneg z) as Hz.
  pose proof (Rsum_Cabs2_nonneg v) as Hv.
  assert (Hz0 : Cabs2 z = 0) by lra.
  assert (Hv0 : Rsum (map Cabs2 v) = 0) by lra.
  apply Cabs2_zero in Hz0. subst z.
  unfold vdiv in *. cbn [map]. rewrite (IH Hv0).
  f_equal. unfold Cdiv_real, RtoC. cbn [fst snd].
  apply C_eq; unfold Rdiv; apply Rmult_0_l.
Qed.

(** A failing [set_qubits] leaves the engine with the new register and the
    old state. *)
Lemma set_qubits_cases (self : StateVector.t) (qs : list Qubit)
    (b : option Basis) (a : option vec) :
  match StateVector.set_qubits self qs b a with
  | (Ok _, self') => normalised self'
  | (Err _, self') =>
      self' = StateVector.mk (length qs) (2 ^ length qs) (Some qs)
                (Some match b with
                      | Some b' => b'
                      | None => mkBasis (length qs)
                      end)
                (StateVector.amp self) (StateVector.snapshots self)
  end.
Proof.
  unfold StateVector.set_qubits.
  match goal with
  | |- context [StateVector.set ?s a] =>
      pose proof (set_normalised s a) as H;
      destruct (StateVector.set s a) as [[[] | e] self']
  end; exact H.
Qed.

Section Writers.

Variable get_projector : vec -> mat.
Variable random_choice : nat -> list R -> option nat.
Variable random : R.

Lemma draw_Ok (self : StateVector.t) (idx : nat) (v0 v1 projected : vec)
    (i : nat) :
  Backend.draw get_projector random self idx v0 v1 = Ok (projected, i) ->
  exists v, (v = v0 \/ v = v1)
            /\ Backend.project self idx (get_projector v) = Ok projected.
Proof.
  unfold Backend.draw. intros H.
  apply rbind_Ok in H. destruct H as (projected0 & H0 & H).
  apply rbind_Ok in H. destruct H as (a & Ha & H).
  destruct (Rgt_dec (Rabs (Cim (vdot (vconj a) projected0))) (1 / 10 ^ 15));
    [discriminate |].
  apply rbind_Ok in H. destruct H as (pr & Hpr & H).
  inversion H. subst pr i. clear H.
  destruct (Rgt_dec random (Cre (vdot (vconj a) projected0))).
  - cbn [Nat.eqb] in Hpr. exists v1. auto.
  - cbn [Nat.eqb] in Hpr. inversion Hpr. subst. exists v0. auto.
Qed.

(** What [measure_qubit] leaves behind. *)
Lemma measure_qubit_writes (self : StateVector.t) (q : Qubit)
    (eigvals : option (list R)) (eigvecs : option mat) (shadow : bool) :
  well_formed self -> projector_ok get_projector ->
  (forall v0 v1 vals,
      Backend.eigenpair eigvals eigvecs = Ok (v0, v1, vals) ->
      length v0 = 2%nat /\ length v1 = 2%nat) ->
  let call :=
    Backend.measure_qubit get_projector random self q eigvals eigvecs shadow in
  snd call = self
  \/ (shadow = false
      /\ (fst call = Err IndexError \/ exists val, fst call = Ok val)
      /\ exists projected,
           length projected = StateVector.n self
           /\ snd call
              = StateVector.with_amp self
                  (map (fun z => (fst z / norm projected,
                                  snd z / norm projected)) projected)
           /\ (norm projected <> 0 -> normalised (snd call))
           /\ (norm projected = 0 -> ~ normalised (snd call))).
Proof.
  intros Hwf Hgp Hlen call. unfold call, Backend.measure_qubit.
  destruct (Backend.eigenpair eigvals eigvecs) as [[[v0 v1] vals] | e] eqn:Ep;
    [| left; reflexivity].
  destruct (Hlen v0 v1 vals eq_refl) as (Hv0 & Hv1).
  destruct (Backend.draw get_projector random self (index q) v0 v1)
    as [[projected i] | e] eqn:Ed; [| left; reflexivity].
  destruct shadow; cbn [negb].
  - left. destruct (py_index vals i); reflexivity.
  - right. split; [reflexivity |].
    split.
    + destruct (py_index vals i) as [val | e] eqn:Ei; cbn [fst].
      * right. eauto.
      * left. apply py_index_Err in Ei. subst e. reflexivity.
    + apply draw_Ok in Ed. destruct Ed as (v & Hv & Hp).
      assert (Hlv : length v = 2%nat) by (destruct Hv; subst; assumption).
      assert (Hidx : (index q < StateVector.n_qubits self)%nat).
      { destruct (Nat.lt_ge_cases (index q) (StateVector.n_qubits self))
          as [Hlt | Hge]; [exact Hlt |].
        unfold Backend.project in Hp.
        rewrite py_assign_past_end in Hp
          by (rewrite repeat_length; exact Hge).
        discriminate Hp. }
      destruct Hwf as (a & Hamp & Hla & Hn).
      destruct (@project_Ok self (index q) (get_projector v) a Hidx
                  (Hgp v Hlv) Hamp Hla) as (parts & _ & Hp' & Hk).
      assert (Hl : length projected = StateVector.n self).
      { rewrite Hp' in Hp. inversion Hp. subst projected.
        rewrite length_map, Hk, Hn. reflexivity. }
      exists projected. split; [exact Hl |].
      assert (Hsnd : forall r : result R,
                snd (match r with
                     | Ok val =>
                         (Ok val,
                          StateVector.with_amp self
                            (vdiv projected (norm projected)))
                     | Err e =>
                         (Err e,
                          StateVector.with_amp self
                            (vdiv projected (norm projected)))
                     end)
                = StateVector.with_amp self (vdiv projected (norm projected)))
        by (intros [val | e]; reflexivity).
      rewrite Hsnd.
      split; [reflexivity |].
      split.
      * intros Hnz. exists (vdiv projected (norm projected)).
        split; [reflexivity |].
        split; [rewrite length_vdiv; exact Hl | apply norm_vdiv; exact Hnz].
      * intros Hz (a' & Ha' & _ & Hn').
        cbn [StateVector.amp StateVector.with_amp] in Ha'.
        inversion Ha'. subst a'.
        rewrite (@vdiv_zero_norm projected (norm projected) Hz), Hz in Hn'. lra.
Qed.

(** C4, as the code has it, in exact arithmetic.
    - [set] puts the engine in a normalised state or raises and leaves the
      whole engine as it was, also one that has no vector yet.
    - [set_qubits] validates after it has assigned the register: when it
      raises, the amplitude vector and the snapshot log are as they were,
      but the qubits, their number, the dimension and the basis are
      already those of the call; an engine [StateVector(...)] returns is
      normalised.
    - [apply_unitary] with a unitary matrix of the dimension of a
      normalised engine returns and keeps it normalised, and when
      [apply_unitary] raises the engine is as it was.
    - [measure] on a normalised engine, with a source of randomness that
      never draws an outcome of probability zero, leaves it normalised
      when it returns and as it was when it raises.
    - [measure_qubit] leaves the engine as it was or, without shadow,
      with the projected state of the drawn outcome divided by its norm,
      whether it returns or raises [IndexError] at the lookup of the
      eigenvalue; that state is normalised exactly when the projected
      state is not zero. *)
Theorem engine_invariant
    (Hdraw : forall k probs i,
        random_choice k probs = Some i -> nth i probs 0 <> 0)
    (self : StateVector.t) :
  (forall a,
      match StateVector.set self a with
      | (Ok _, self') => normalised self'
      | (Err _, self') => self' = self
      end)
  /\ (forall qs b a,
         match StateVector.set_qubits self qs b a with
         | (Ok _, self') => normalised self'
         | (Err _, self') =>
             self' = StateVector.mk (length qs) (2 ^ length qs) (Some qs)
                       (Some match b with
                             | Some b' => b'
                             | None => mkBasis (length qs)
                             end)
                       (StateVector.amp self) (StateVector.snapshots self)
         end)
  /\ (forall qs b a,
         match StateVector.new qs b a with
         | Ok self' => normalised self'
         | Err _ => True
         end)
  /\ (forall u,
         normalised self -> unitary (StateVector.n self) u ->
         exists self', StateVector.apply_unitary self u = (Ok tt, self')
                       /\ normalised self')
  /\ (forall u,
         match StateVector.apply_unitary self u with
         | (Ok _, _) => True
         | (Err _, self') => self' = self
         end)
  /\ (forall q vals vecs shadow snapshot,
         normalised self ->
         match StateVector.measure get_projector random_choice self q
                                   vals vecs shadow snapshot with
         | (Ok _, self') => normalised self'
         | (Err _, self') => self' = self
         end)
  /\ (forall q eigvals eigvecs shadow,
         well_formed self -> projector_ok get_projector ->
         (forall v0 v1 vals,
             Backend.eigenpair eigvals eigvecs = Ok (v0, v1, vals) ->
             length v0 = 2%nat /\ length v1 = 2%nat) ->
         let call :=
           Backend.measure_qubit get_projector random self q eigvals eigvecs
             shadow in
         snd call = self
         \/ (shadow = false
             /\ (fst call = Err IndexError \/ exists val, fst call = Ok val)
             /\ exists projected,
                  length projected = StateVector.n self
                  /\ snd call
                     = StateVector.with_amp self
                         (map (fun z => (fst z / norm projected,
                                         snd z / norm projected)) projected)
                  /\ (norm projected <> 0 -> normalised (snd call))
                  /\ (norm projected = 0 -> ~ normalised (snd call)))).
Proof.
  split; [| split; [| split; [| split; [| split; [| split]]]]].
  - apply set_normalised.
  - apply set_qubits_cases.
  - intros qs b a. unfold StateVector.new.
    pose proof (set_qubits_normalised (StateVector.mk 0 0 None None None [])
                  qs b a) as H.
    destruct (StateVector.set_qubits _ qs b a) as [[[] | e] self'];
      [exact H | exact I].
  - intros u. apply apply_unitary_normalised.
  - intros u. unfold StateVector.apply_unitary.
    destruct (rbind (StateVector.the_amp self) (fun a => np_dot u a));
      [exact I | reflexivity].
  - intros q vals vecs shadow snapshot.
    apply measure_normalised. exact Hdraw.
  - intros q eigvals eigvecs shadow. apply measure_qubit_writes.
Qed.

End Writers.

(** The two outcomes of a measurement of the qubit of the state |0> in the
    computational basis. *)
Lemma project_engine1 :
  Backend.project engine1 0 (ket_bra [RtoC 1; RtoC 0])
  = Ok [RtoC 1; RtoC 0]
  /\ Backend.project engine1 0 (ket_bra [RtoC 0; RtoC 1])
     = Ok [RtoC 0; RtoC 0].
Proof.
  split; cbn; unfold Cadd, Cmul, Cconj, RtoC; cbn [fst snd];
    (f_equal; f_equal; [| f_equal]); apply C_eq; ring.
Qed.

Lemma norm_0_0 : norm [RtoC 0; RtoC 0] = 0.
Proof.
  unfold norm. cbn [map Rsum fold_right]. unfold Cabs2, RtoC. cbn [fst snd].
  replace (0 * 0 + 0 * 0 + (0 * 0 + 0 * 0 + 0)) with 0 by ring.
  apply sqrt_0.
Qed.

Lemma normalised_engine_34 : normalised engine_34.
Proof.
  exists [RtoC (3 / 5); RtoC (4 / 5)]. repeat split. apply norm_engine_34.
Qed.

(** C4 as it is stated fails: a call can raise and leave the engine
    written, and a call can return and leave it without a vector of norm
    one.
    - [set_qubits] with two qubits and a vector of two entries raises the
      dimension error; the engine then has two qubits and the dimension
      four but still the vector of two entries: it is neither as it was
      nor normalised.
    - [measure_qubit] on the state (3/5, 4/5) with the one eigenvalue 7
      and the draw 1/2 raises [IndexError] and leaves the state (0, 1).
    - [measure_qubit] on the state |0> with the eigenvectors (0, 1) and
      (1, 0) and the draw 0 returns the eigenvalue 1 of the outcome of
      probability zero and leaves the zero vector divided by its norm. *)
Lemma engine_written_on_failure :
  (let call :=
     StateVector.set_qubits engine1 [mkBit 0; mkBit 1] None
       (Some [RtoC 1; RtoC 0]) in
   fst call = Err DimensionMismatch
   /\ StateVector.n_qubits (snd call) = 2%nat
   /\ StateVector.n (snd call) = 4%nat
   /\ StateVector.amp (snd call) = Some [RtoC 1; RtoC 0]
   /\ snd call <> engine1
   /\ ~ normalised (snd call))
  /\ (let call :=
        Backend.measure_qubit ket_bra (1 / 2) engine_34 (mkBit 0) (Some [7])
          (Some eye2) false in
      fst call = Err IndexError
      /\ StateVector.amp (snd call) = Some [RtoC 0; RtoC 1]
      /\ snd call <> engine_34)
  /\ (let call :=
        Backend.measure_qubit ket_bra 0 engine1 (mkBit 0) (Some [1; -1])
          (Some pauli_x) false in
      fst call = Ok 1
      /\ ~ normalised (snd call)).
Proof.
  split; [| split].
  - intros call. unfold call.
    split; [reflexivity |]. split; [reflexivity |]. split; [reflexivity |].
    split; [reflexivity |].
    split.
    + intros H. apply (f_equal StateVector.n_qubits) in H.
      cbn in H. discriminate H.
    + intros (a & Ha & Hl & _). cbn in Ha, Hl.
      inversion Ha. subst a. cbn in Hl. discriminate Hl.
  - intros call.
    destruct project_engine_34 as (E0 & E1).
    assert (Hcall : call
                    = (Err IndexError,
                       StateVector.with_amp engine_34
                         (vdiv [RtoC 0; RtoC (4 / 5)]
                               (norm [RtoC 0; RtoC (4 / 5)])))).
    { unfold call.
      rewrite (@measure_qubit_eq ket_bra (1 / 2) engine_34 (mkBit 0)
                 (Some [7]) (Some eye2) [7] [RtoC 1; RtoC 0] [RtoC 0; RtoC 1]
                 [RtoC (3 / 5); RtoC 0] [RtoC 0; RtoC (4 / 5)]
                 [RtoC (3 / 5); RtoC (4 / 5)] eq_refl eq_refl E0 E1).
      - match goal with
        | |- context [Rgt_dec ?r ?x] =>
            replace x with (9 / 25) by (cbn; field);
            destruct (Rgt_dec r (9 / 25)) as [_ | Hn]
        end; [reflexivity | exfalso; apply Hn; lra].
      - cbn. match goal with
             | |- Rabs ?x <= _ => replace x with 0 by ring
             end.
        rewrite Rabs_R0. lra. }
    assert (Hamp : StateVector.amp (snd call) = Some [RtoC 0; RtoC 1]).
    { rewrite Hcall. cbn [snd StateVector.amp StateVector.with_amp].
      rewrite norm_0_45. unfold vdiv, Cdiv_real, RtoC. cbn [map fst snd].
      replace (0 / (4 / 5)) with 0 by field.
      replace (4 / 5 / (4 / 5)) with 1 by field.
      reflexivity. }
    split; [rewrite Hcall; reflexivity |]. split; [exact Hamp |].
    intros H. rewrite H in Hamp. cbn in Hamp. inversion Hamp. lra.
  - intros call.
    destruct project_engine1 as (E0 & E1).
    assert (Hcall : call
                    = (Ok 1,
                       StateVector.with_amp engine1
                         (vdiv [RtoC 0; RtoC 0] (norm [RtoC 0; RtoC 0])))).
    { unfold call.
      rewrite (@measure_qubit_eq ket_bra 0 engine1 (mkBit 0)
                 (Some [1; -1]) (Some pauli_x) [1; -1] [RtoC 0; RtoC 1]
                 [RtoC 1; RtoC 0] [RtoC 0; RtoC 0] [RtoC 1; RtoC 0]
                 [RtoC 1; RtoC 0] eq_refl eq_refl E1 E0).
      - match goal with
        | |- context [Rgt_dec ?r ?x] =>
            replace x with 0 by (cbn; ring);
            destruct (Rgt_dec r 0) as [Hgt | _]
        end; [exfalso; lra | reflexivity].
      - cbn. match goal with
             | |- Rabs ?x <= _ => replace x with 0 by ring
             end.
        rewrite Rabs_R0. lra. }
    split; [rewrite Hcall; reflexivity |].
    rewrite Hcall. intros (a & Ha & _ & Hn).
    cbn [snd StateVector.amp StateVector.with_amp] in Ha.
    inversion Ha. subst a.
    change (norm (vdiv [RtoC 0; RtoC 0] (norm [RtoC 0; RtoC 0])) = 1) in Hn.
    rewrite (@vdiv_zero_norm [RtoC 0; RtoC 0] (norm [RtoC 0; RtoC 0])
               norm_0_0), norm_0_0 in Hn.
    lra.
Qed.

(** [engine_invariant] at engines of one qubit, with a source of randomness
    that draws the first outcome of non-zero probability: the state
    (3/5, 4/5) after a collapsing measurement, the state |0> after the
    gate X, and the state (3/5, 4/5) after [measure_qubit] with the draw
    1/2. *)
Lemma engine_invariant_witness :
  match StateVector.measure ket_bra first_nonzero engine_34
          (StateVector.One (mkBit 0)) None None false true with
  | (Ok _, self') => normalised self'
  | (Err _, self') => self' = engine_34
  end
  /\ (exists self', StateVector.apply_unitary engine1 pauli_x = (Ok tt, self')
                    /\ normalised self')
  /\ (let call :=
        Backend.measure_qubit ket_bra (1 / 2) engine_34 (mkBit 0) None None
          false in
      snd call = engine_34
      \/ (false = false
          /\ (fst call = Err IndexError \/ exists val, fst call = Ok val)
          /\ exists projected,
               length projected = StateVector.n engine_34
               /\ snd call
                  = StateVector.with_amp engine_34
                      (map (fun z => (fst z / norm projected,
                                      snd z / norm projected)) projected)
               /\ (norm projected <> 0 -> normalised (snd call))
               /\ (norm projected = 0 -> ~ normalised (snd call)))).
Proof.
  destruct (@engine_invariant ket_bra first_nonzero (1 / 2) first_nonzero_draw
              engine_34)
    as (_ & _ & _ & _ & _ & Hm & Hq).
  destruct (@engine_invariant ket_bra first_nonzero (1 / 2) first_nonzero_draw
              engine1)
    as (_ & _ & _ & Hu & _).
  split; [| split].
  - apply Hm. exact normalised_engine_34.
  - apply Hu; [exact normalised_engine1 | exact unitary_pauli_x].
  - apply Hq.
    + exact (initialised_well_formed initialised_engine_34).
    + exact shape_ket_bra.
    + intros v0 v1 vals H. cbn in H. inversion H. split; reflexivity.
Defined.
